(** * paper-summarizer: section segmentation, summaries and metadata

    A shallow embedding of [paper_summarizer/pdf_processor.py] and
    [paper_summarizer/summarizer.py], and the properties of the
    specification that are settled on it.

    Text.  A Python [str] is a sequence of Unicode code points and is
    modelled as a list of numbers.  White space, the digit class, the
    case of characters ([isupper], [lower], [title]) and the matching
    of letters under IGNORECASE follow the interpreter on every code
    point, through the tables of its Unicode database. *)

From Stdlib Require Import Strings.Ascii Strings.String Strings.Byte.
From Stdlib Require Import Bool Arith Lia NArith List.
Import ListNotations.

Set Implicit Arguments.

(** ** Python strings *)

Module Py.

Definition char := N.

Definition str := list char.

(** A string literal of the source. *)
Definition py (s : string) : str := map N_of_ascii (list_ascii_of_string s).

Definition nl : char := 10%N.

Definition between_incl (lo hi c : N) : bool := (lo <=? c)%N && (c <=? hi)%N.

(** [c.isspace()], which is also the class [\s] of [re]. *)
Definition isspace (c : char) : bool :=
  between_incl 9 13 c || between_incl 28 32 c ||
  (c =? 133)%N || (c =? 160)%N || (c =? 5760)%N ||
  between_incl 8192 8202 c || (c =? 8232)%N || (c =? 8233)%N ||
  (c =? 8239)%N || (c =? 8287)%N || (c =? 12288)%N.

(** *** Character data

    The tables of the Unicode database of the interpreter (Unicode
    14.0).  An entry [(lo, hi, step)] stands for the characters [lo],
    [lo + step], ... up to [hi]. *)

Definition in_range (lo hi step c : N) : bool :=
  between_incl lo hi c && ((c - lo) mod step =? 0)%N.

Definition in_table (t : list (N * N * N)) (c : char) : bool :=
  existsb (fun r => let '(lo, hi, step) := r in in_range lo hi step c) t.

(** An entry [(lo, hi, step, to)] maps [lo] to [to], [lo + step] to
    [to + step], and so on up to [hi]. *)
Fixpoint map_table (t : list (N * N * N * N)) (c : char) : option char :=
  match t with
  | [] => None
  | (lo, hi, step, to) :: t' =>
      if in_range lo hi step c
      then Some (to + (c - lo))%N
      else map_table t' c
  end.

Fixpoint assoc_table {A} (t : list (N * A)) (c : char) : option A :=
  match t with
  | [] => None
  | (k, v) :: t' => if (c =? k)%N then Some v else assoc_table t' c
  end.

(** The decimal digits, category Nd: [c.isdecimal()]. *)
Definition decimal_table : list (N * N * N) :=
  [
    (48, 57, 1); (1632, 1641, 1); (1776, 1785, 1); (1984, 1993, 1);
    (2406, 2415, 1); (2534, 2543, 1); (2662, 2671, 1); (2790, 2799, 1);
    (2918, 2927, 1); (3046, 3055, 1); (3174, 3183, 1); (3302, 3311, 1);
    (3430, 3439, 1); (3558, 3567, 1); (3664, 3673, 1); (3792, 3801, 1);
    (3872, 3881, 1); (4160, 4169, 1); (4240, 4249, 1); (6112, 6121, 1);
    (6160, 6169, 1); (6470, 6479, 1); (6608, 6617, 1); (6784, 6793, 1);
    (6800, 6809, 1); (6992, 7001, 1); (7088, 7097, 1); (7232, 7241, 1);
    (7248, 7257, 1); (42528, 42537, 1); (43216, 43225, 1);
    (43264, 43273, 1); (43472, 43481, 1); (43504, 43513, 1);
    (43600, 43609, 1); (44016, 44025, 1); (65296, 65305, 1);
    (66720, 66729, 1); (68912, 68921, 1); (69734, 69743, 1);
    (69872, 69881, 1); (69942, 69951, 1); (70096, 70105, 1);
    (70384, 70393, 1); (70736, 70745, 1); (70864, 70873, 1);
    (71248, 71257, 1); (71360, 71369, 1); (71472, 71481, 1);
    (71904, 71913, 1); (72016, 72025, 1); (72784, 72793, 1);
    (73040, 73049, 1); (73120, 73129, 1); (92768, 92777, 1);
    (92864, 92873, 1); (93008, 93017, 1); (120782, 120831, 1);
    (123200, 123209, 1); (123632, 123641, 1); (125264, 125273, 1);
    (130032, 130041, 1)
  ]%N.

(** The characters with the property Uppercase. *)
Definition uppercase_table : list (N * N * N) :=
  [
    (65, 90, 1); (192, 214, 1); (216, 222, 1); (256, 310, 2); (313, 327, 2);
    (330, 376, 2); (377, 381, 2); (385, 386, 1); (388, 390, 2);
    (391, 393, 2); (394, 395, 1); (398, 401, 1); (403, 404, 1);
    (406, 408, 1); (412, 413, 1); (415, 416, 1); (418, 422, 2);
    (423, 425, 2); (428, 430, 2); (431, 433, 2); (434, 435, 1);
    (437, 439, 2); (440, 440, 1); (444, 444, 1); (452, 452, 1);
    (455, 455, 1); (458, 458, 1); (461, 475, 2); (478, 494, 2);
    (497, 497, 1); (500, 502, 2); (503, 504, 1); (506, 562, 2);
    (570, 571, 1); (573, 574, 1); (577, 579, 2); (580, 582, 1);
    (584, 590, 2); (880, 882, 2); (886, 886, 1); (895, 895, 1);
    (902, 904, 2); (905, 906, 1); (908, 910, 2); (911, 913, 2);
    (914, 929, 1); (931, 939, 1); (975, 975, 1); (978, 980, 1);
    (984, 1006, 2); (1012, 1012, 1); (1015, 1017, 2); (1018, 1018, 1);
    (1021, 1071, 1); (1120, 1152, 2); (1162, 1216, 2); (1217, 1229, 2);
    (1232, 1326, 2); (1329, 1366, 1); (4256, 4293, 1); (4295, 4295, 1);
    (4301, 4301, 1); (5024, 5109, 1); (7312, 7354, 1); (7357, 7359, 1);
    (7680, 7828, 2); (7838, 7934, 2); (7944, 7951, 1); (7960, 7965, 1);
    (7976, 7983, 1); (7992, 7999, 1); (8008, 8013, 1); (8025, 8031, 2);
    (8040, 8047, 1); (8120, 8123, 1); (8136, 8139, 1); (8152, 8155, 1);
    (8168, 8172, 1); (8184, 8187, 1); (8450, 8450, 1); (8455, 8455, 1);
    (8459, 8461, 1); (8464, 8466, 1); (8469, 8469, 1); (8473, 8477, 1);
    (8484, 8490, 2); (8491, 8493, 1); (8496, 8499, 1); (8510, 8511, 1);
    (8517, 8517, 1); (8544, 8559, 1); (8579, 8579, 1); (9398, 9423, 1);
    (11264, 11311, 1); (11360, 11362, 2); (11363, 11364, 1);
    (11367, 11373, 2); (11374, 11376, 1); (11378, 11378, 1);
    (11381, 11381, 1); (11390, 11392, 1); (11394, 11490, 2);
    (11499, 11501, 2); (11506, 11506, 1); (42560, 42604, 2);
    (42624, 42650, 2); (42786, 42798, 2); (42802, 42862, 2);
    (42873, 42877, 2); (42878, 42886, 2); (42891, 42893, 2);
    (42896, 42898, 2); (42902, 42922, 2); (42923, 42926, 1);
    (42928, 42932, 1); (42934, 42948, 2); (42949, 42951, 1);
    (42953, 42953, 1); (42960, 42960, 1); (42966, 42968, 2);
    (42997, 42997, 1); (65313, 65338, 1); (66560, 66599, 1);
    (66736, 66771, 1); (66928, 66938, 1); (66940, 66954, 1);
    (66956, 66962, 1); (66964, 66965, 1); (68736, 68786, 1);
    (71840, 71871, 1); (93760, 93791, 1); (119808, 119833, 1);
    (119860, 119885, 1); (119912, 119937, 1); (119964, 119966, 2);
    (119967, 119967, 1); (119970, 119970, 1); (119973, 119974, 1);
    (119977, 119980, 1); (119982, 119989, 1); (120016, 120041, 1);
    (120068, 120069, 1); (120071, 120074, 1); (120077, 120084, 1);
    (120086, 120092, 1); (120120, 120121, 1); (120123, 120126, 1);
    (120128, 120132, 1); (120134, 120134, 1); (120138, 120144, 1);
    (120172, 120197, 1); (120224, 120249, 1); (120276, 120301, 1);
    (120328, 120353, 1); (120380, 120405, 1); (120432, 120457, 1);
    (120488, 120512, 1); (120546, 120570, 1); (120604, 120628, 1);
    (120662, 120686, 1); (120720, 120744, 1); (120778, 120778, 1);
    (125184, 125217, 1); (127280, 127305, 1); (127312, 127337, 1);
    (127344, 127369, 1)
  ]%N.

(** The characters with the property Lowercase. *)
Definition lowercase_table : list (N * N * N) :=
  [
    (97, 122, 1); (170, 170, 1); (181, 181, 1); (186, 186, 1);
    (223, 246, 1); (248, 255, 1); (257, 311, 2); (312, 328, 2);
    (329, 375, 2); (378, 382, 2); (383, 384, 1); (387, 389, 2);
    (392, 392, 1); (396, 397, 1); (402, 402, 1); (405, 405, 1);
    (409, 411, 1); (414, 414, 1); (417, 421, 2); (424, 426, 2);
    (427, 429, 2); (432, 432, 1); (436, 438, 2); (441, 442, 1);
    (445, 447, 1); (454, 454, 1); (457, 457, 1); (460, 476, 2);
    (477, 495, 2); (496, 496, 1); (499, 501, 2); (505, 563, 2);
    (564, 569, 1); (572, 572, 1); (575, 576, 1); (578, 578, 1);
    (583, 591, 2); (592, 659, 1); (661, 696, 1); (704, 705, 1);
    (736, 740, 1); (837, 837, 1); (881, 883, 2); (887, 887, 1);
    (890, 893, 1); (912, 912, 1); (940, 974, 1); (976, 977, 1);
    (981, 983, 1); (985, 1007, 2); (1008, 1011, 1); (1013, 1013, 1);
    (1016, 1016, 1); (1019, 1020, 1); (1072, 1119, 1); (1121, 1153, 2);
    (1163, 1215, 2); (1218, 1230, 2); (1231, 1327, 2); (1376, 1416, 1);
    (4304, 4346, 1); (4349, 4351, 1); (5112, 5117, 1); (7296, 7304, 1);
    (7424, 7615, 1); (7681, 7829, 2); (7830, 7837, 1); (7839, 7935, 2);
    (7936, 7943, 1); (7952, 7957, 1); (7968, 7975, 1); (7984, 7991, 1);
    (8000, 8005, 1); (8016, 8023, 1); (8032, 8039, 1); (8048, 8061, 1);
    (8064, 8071, 1); (8080, 8087, 1); (8096, 8103, 1); (8112, 8116, 1);
    (8118, 8119, 1); (8126, 8126, 1); (8130, 8132, 1); (8134, 8135, 1);
    (8144, 8147, 1); (8150, 8151, 1); (8160, 8167, 1); (8178, 8180, 1);
    (8182, 8183, 1); (8305, 8305, 1); (8319, 8319, 1); (8336, 8348, 1);
    (8458, 8458, 1); (8462, 8463, 1); (8467, 8467, 1); (8495, 8495, 1);
    (8500, 8500, 1); (8505, 8505, 1); (8508, 8509, 1); (8518, 8521, 1);
    (8526, 8526, 1); (8560, 8575, 1); (8580, 8580, 1); (9424, 9449, 1);
    (11312, 11359, 1); (11361, 11361, 1); (11365, 11366, 1);
    (11368, 11372, 2); (11377, 11379, 2); (11380, 11382, 2);
    (11383, 11389, 1); (11393, 11491, 2); (11492, 11492, 1);
    (11500, 11502, 2); (11507, 11507, 1); (11520, 11557, 1);
    (11559, 11559, 1); (11565, 11565, 1); (42561, 42605, 2);
    (42625, 42651, 2); (42652, 42653, 1); (42787, 42799, 2);
    (42800, 42801, 1); (42803, 42863, 2); (42864, 42872, 1);
    (42874, 42876, 2); (42879, 42887, 2); (42892, 42894, 2);
    (42897, 42899, 2); (42900, 42901, 1); (42903, 42921, 2);
    (42927, 42927, 1); (42933, 42947, 2); (42952, 42954, 2);
    (42961, 42969, 2); (42998, 43000, 2); (43001, 43002, 1);
    (43824, 43866, 1); (43868, 43880, 1); (43888, 43967, 1);
    (64256, 64262, 1); (64275, 64279, 1); (65345, 65370, 1);
    (66600, 66639, 1); (66776, 66811, 1); (66967, 66977, 1);
    (66979, 66993, 1); (66995, 67001, 1); (67003, 67004, 1);
    (67456, 67456, 1); (67459, 67461, 1); (67463, 67504, 1);
    (67506, 67514, 1); (68800, 68850, 1); (71872, 71903, 1);
    (93792, 93823, 1); (119834, 119859, 1); (119886, 119892, 1);
    (119894, 119911, 1); (119938, 119963, 1); (119990, 119993, 1);
    (119995, 119997, 2); (119998, 120003, 1); (120005, 120015, 1);
    (120042, 120067, 1); (120094, 120119, 1); (120146, 120171, 1);
    (120198, 120223, 1); (120250, 120275, 1); (120302, 120327, 1);
    (120354, 120379, 1); (120406, 120431, 1); (120458, 120485, 1);
    (120514, 120538, 1); (120540, 120545, 1); (120572, 120596, 1);
    (120598, 120603, 1); (120630, 120654, 1); (120656, 120661, 1);
    (120688, 120712, 1); (120714, 120719, 1); (120746, 120770, 1);
    (120772, 120777, 1); (120779, 120779, 1); (122624, 122633, 1);
    (122635, 122654, 1); (125218, 125251, 1)
  ]%N.

(** The titlecase letters, category Lt. *)
Definition titlecase_table : list (N * N * N) :=
  [
    (453, 453, 1); (456, 456, 1); (459, 459, 1); (498, 498, 1);
    (8072, 8079, 1); (8088, 8095, 1); (8104, 8111, 1); (8124, 8124, 1);
    (8140, 8140, 1); (8188, 8188, 1)
  ]%N.

(** The characters with the property Case_Ignorable. *)
Definition case_ignorable_table : list (N * N * N) :=
  [
    (39, 39, 1); (46, 46, 1); (58, 58, 1); (94, 96, 2); (168, 168, 1);
    (173, 175, 2); (180, 180, 1); (183, 184, 1); (688, 879, 1);
    (884, 885, 1); (890, 890, 1); (900, 901, 1); (903, 903, 1);
    (1155, 1161, 1); (1369, 1369, 1); (1375, 1375, 1); (1425, 1469, 1);
    (1471, 1473, 2); (1474, 1476, 2); (1477, 1479, 2); (1524, 1524, 1);
    (1536, 1541, 1); (1552, 1562, 1); (1564, 1564, 1); (1600, 1600, 1);
    (1611, 1631, 1); (1648, 1648, 1); (1750, 1757, 1); (1759, 1768, 1);
    (1770, 1773, 1); (1807, 1809, 2); (1840, 1866, 1); (1958, 1968, 1);
    (2027, 2037, 1); (2042, 2042, 1); (2045, 2045, 1); (2070, 2093, 1);
    (2137, 2139, 1); (2184, 2184, 1); (2192, 2193, 1); (2200, 2207, 1);
    (2249, 2306, 1); (2362, 2364, 2); (2369, 2376, 1); (2381, 2381, 1);
    (2385, 2391, 1); (2402, 2403, 1); (2417, 2417, 1); (2433, 2433, 1);
    (2492, 2492, 1); (2497, 2500, 1); (2509, 2509, 1); (2530, 2531, 1);
    (2558, 2558, 1); (2561, 2562, 1); (2620, 2620, 1); (2625, 2626, 1);
    (2631, 2632, 1); (2635, 2637, 1); (2641, 2641, 1); (2672, 2673, 1);
    (2677, 2677, 1); (2689, 2690, 1); (2748, 2748, 1); (2753, 2757, 1);
    (2759, 2760, 1); (2765, 2765, 1); (2786, 2787, 1); (2810, 2815, 1);
    (2817, 2817, 1); (2876, 2876, 1); (2879, 2881, 2); (2882, 2884, 1);
    (2893, 2893, 1); (2901, 2902, 1); (2914, 2915, 1); (2946, 2946, 1);
    (3008, 3008, 1); (3021, 3021, 1); (3072, 3072, 1); (3076, 3076, 1);
    (3132, 3134, 2); (3135, 3136, 1); (3142, 3144, 1); (3146, 3149, 1);
    (3157, 3158, 1); (3170, 3171, 1); (3201, 3201, 1); (3260, 3260, 1);
    (3263, 3263, 1); (3270, 3270, 1); (3276, 3277, 1); (3298, 3299, 1);
    (3328, 3329, 1); (3387, 3388, 1); (3393, 3396, 1); (3405, 3405, 1);
    (3426, 3427, 1); (3457, 3457, 1); (3530, 3530, 1); (3538, 3540, 1);
    (3542, 3542, 1); (3633, 3633, 1); (3636, 3642, 1); (3654, 3662, 1);
    (3761, 3761, 1); (3764, 3772, 1); (3782, 3784, 2); (3785, 3789, 1);
    (3864, 3865, 1); (3893, 3897, 2); (3953, 3966, 1); (3968, 3972, 1);
    (3974, 3975, 1); (3981, 3991, 1); (3993, 4028, 1); (4038, 4038, 1);
    (4141, 4144, 1); (4146, 4151, 1); (4153, 4154, 1); (4157, 4158, 1);
    (4184, 4185, 1); (4190, 4192, 1); (4209, 4212, 1); (4226, 4226, 1);
    (4229, 4230, 1); (4237, 4237, 1); (4253, 4253, 1); (4348, 4348, 1);
    (4957, 4959, 1); (5906, 5908, 1); (5938, 5939, 1); (5970, 5971, 1);
    (6002, 6003, 1); (6068, 6069, 1); (6071, 6077, 1); (6086, 6086, 1);
    (6089, 6099, 1); (6103, 6103, 1); (6109, 6109, 1); (6155, 6159, 1);
    (6211, 6211, 1); (6277, 6278, 1); (6313, 6313, 1); (6432, 6434, 1);
    (6439, 6440, 1); (6450, 6450, 1); (6457, 6459, 1); (6679, 6680, 1);
    (6683, 6683, 1); (6742, 6744, 2); (6745, 6750, 1); (6752, 6754, 2);
    (6757, 6764, 1); (6771, 6780, 1); (6783, 6783, 1); (6823, 6823, 1);
    (6832, 6862, 1); (6912, 6915, 1); (6964, 6966, 2); (6967, 6970, 1);
    (6972, 6972, 1); (6978, 6978, 1); (7019, 7027, 1); (7040, 7041, 1);
    (7074, 7077, 1); (7080, 7081, 1); (7083, 7085, 1); (7142, 7144, 2);
    (7145, 7145, 1); (7149, 7151, 2); (7152, 7153, 1); (7212, 7219, 1);
    (7222, 7223, 1); (7288, 7293, 1); (7376, 7378, 1); (7380, 7392, 1);
    (7394, 7400, 1); (7405, 7405, 1); (7412, 7412, 1); (7416, 7417, 1);
    (7468, 7530, 1); (7544, 7544, 1); (7579, 7679, 1); (8125, 8127, 2);
    (8128, 8129, 1); (8141, 8143, 1); (8157, 8159, 1); (8173, 8175, 1);
    (8189, 8190, 1); (8203, 8207, 1); (8216, 8217, 1); (8228, 8228, 1);
    (8231, 8231, 1); (8234, 8238, 1); (8288, 8292, 1); (8294, 8303, 1);
    (8305, 8305, 1); (8319, 8319, 1); (8336, 8348, 1); (8400, 8432, 1);
    (11388, 11389, 1); (11503, 11505, 1); (11631, 11631, 1);
    (11647, 11647, 1); (11744, 11775, 1); (11823, 11823, 1);
    (12293, 12293, 1); (12330, 12333, 1); (12337, 12341, 1);
    (12347, 12347, 1); (12441, 12446, 1); (12540, 12542, 1);
    (40981, 40981, 1); (42232, 42237, 1); (42508, 42508, 1);
    (42607, 42610, 1); (42612, 42621, 1); (42623, 42623, 1);
    (42652, 42655, 1); (42736, 42737, 1); (42752, 42785, 1);
    (42864, 42864, 1); (42888, 42890, 1); (42994, 42996, 1);
    (43000, 43001, 1); (43010, 43010, 1); (43014, 43014, 1);
    (43019, 43019, 1); (43045, 43046, 1); (43052, 43052, 1);
    (43204, 43205, 1); (43232, 43249, 1); (43263, 43263, 1);
    (43302, 43309, 1); (43335, 43345, 1); (43392, 43394, 1);
    (43443, 43443, 1); (43446, 43449, 1); (43452, 43453, 1);
    (43471, 43471, 1); (43493, 43494, 1); (43561, 43566, 1);
    (43569, 43570, 1); (43573, 43574, 1); (43587, 43587, 1);
    (43596, 43596, 1); (43632, 43632, 1); (43644, 43644, 1);
    (43696, 43698, 2); (43699, 43700, 1); (43703, 43704, 1);
    (43710, 43711, 1); (43713, 43713, 1); (43741, 43741, 1);
    (43756, 43757, 1); (43763, 43764, 1); (43766, 43766, 1);
    (43867, 43871, 1); (43881, 43883, 1); (44005, 44005, 1);
    (44008, 44008, 1); (44013, 44013, 1); (64286, 64286, 1);
    (64434, 64450, 1); (65024, 65039, 1); (65043, 65043, 1);
    (65056, 65071, 1); (65106, 65106, 1); (65109, 65109, 1);
    (65279, 65279, 1); (65287, 65287, 1); (65294, 65294, 1);
    (65306, 65306, 1); (65342, 65344, 2); (65392, 65392, 1);
    (65438, 65439, 1); (65507, 65507, 1); (65529, 65531, 1);
    (66045, 66045, 1); (66272, 66272, 1); (66422, 66426, 1);
    (67456, 67461, 1); (67463, 67504, 1); (67506, 67514, 1);
    (68097, 68099, 1); (68101, 68102, 1); (68108, 68111, 1);
    (68152, 68154, 1); (68159, 68159, 1); (68325, 68326, 1);
    (68900, 68903, 1); (69291, 69292, 1); (69446, 69456, 1);
    (69506, 69509, 1); (69633, 69633, 1); (69688, 69702, 1);
    (69744, 69744, 1); (69747, 69748, 1); (69759, 69761, 1);
    (69811, 69814, 1); (69817, 69818, 1); (69821, 69821, 1);
    (69826, 69826, 1); (69837, 69837, 1); (69888, 69890, 1);
    (69927, 69931, 1); (69933, 69940, 1); (70003, 70003, 1);
    (70016, 70017, 1); (70070, 70078, 1); (70089, 70092, 1);
    (70095, 70095, 1); (70191, 70193, 1); (70196, 70198, 2);
    (70199, 70199, 1); (70206, 70206, 1); (70367, 70367, 1);
    (70371, 70378, 1); (70400, 70401, 1); (70459, 70460, 1);
    (70464, 70464, 1); (70502, 70508, 1); (70512, 70516, 1);
    (70712, 70719, 1); (70722, 70724, 1); (70726, 70726, 1);
    (70750, 70750, 1); (70835, 70840, 1); (70842, 70842, 1);
    (70847, 70848, 1); (70850, 70851, 1); (71090, 71093, 1);
    (71100, 71101, 1); (71103, 71104, 1); (71132, 71133, 1);
    (71219, 71226, 1); (71229, 71231, 2); (71232, 71232, 1);
    (71339, 71341, 2); (71344, 71349, 1); (71351, 71351, 1);
    (71453, 71455, 1); (71458, 71461, 1); (71463, 71467, 1);
    (71727, 71735, 1); (71737, 71738, 1); (71995, 71996, 1);
    (71998, 71998, 1); (72003, 72003, 1); (72148, 72151, 1);
    (72154, 72155, 1); (72160, 72160, 1); (72193, 72202, 1);
    (72243, 72248, 1); (72251, 72254, 1); (72263, 72263, 1);
    (72273, 72278, 1); (72281, 72283, 1); (72330, 72342, 1);
    (72344, 72345, 1); (72752, 72758, 1); (72760, 72765, 1);
    (72767, 72767, 1); (72850, 72871, 1); (72874, 72880, 1);
    (72882, 72883, 1); (72885, 72886, 1); (73009, 73014, 1);
    (73018, 73020, 2); (73021, 73023, 2); (73024, 73029, 1);
    (73031, 73031, 1); (73104, 73105, 1); (73109, 73111, 2);
    (73459, 73460, 1); (78896, 78904, 1); (92912, 92916, 1);
    (92976, 92982, 1); (92992, 92995, 1); (94031, 94031, 1);
    (94095, 94111, 1); (94176, 94177, 1); (94179, 94180, 1);
    (110576, 110579, 1); (110581, 110587, 1); (110589, 110590, 1);
    (113821, 113822, 1); (113824, 113827, 1); (118528, 118573, 1);
    (118576, 118598, 1); (119143, 119145, 1); (119155, 119170, 1);
    (119173, 119179, 1); (119210, 119213, 1); (119362, 119364, 1);
    (121344, 121398, 1); (121403, 121452, 1); (121461, 121461, 1);
    (121476, 121476, 1); (121499, 121503, 1); (121505, 121519, 1);
    (122880, 122886, 1); (122888, 122904, 1); (122907, 122913, 1);
    (122915, 122916, 1); (122918, 122922, 1); (123184, 123197, 1);
    (123566, 123566, 1); (123628, 123631, 1); (125136, 125142, 1);
    (125252, 125259, 1); (127995, 127999, 1); (917505, 917505, 1);
    (917536, 917631, 1); (917760, 917999, 1)
  ]%N.

(** The simple lower-case mapping, where it moves a character. *)
Definition tolower_table : list (N * N * N * N) :=
  [
    (65, 90, 1, 97); (192, 214, 1, 224); (216, 222, 1, 248);
    (256, 302, 2, 257); (304, 304, 1, 105); (306, 310, 2, 307);
    (313, 327, 2, 314); (330, 374, 2, 331); (376, 376, 1, 255);
    (377, 381, 2, 378); (385, 385, 1, 595); (386, 388, 2, 387);
    (390, 390, 1, 596); (391, 391, 1, 392); (393, 394, 1, 598);
    (395, 395, 1, 396); (398, 398, 1, 477); (399, 399, 1, 601);
    (400, 400, 1, 603); (401, 401, 1, 402); (403, 403, 1, 608);
    (404, 404, 1, 611); (406, 406, 1, 617); (407, 407, 1, 616);
    (408, 408, 1, 409); (412, 412, 1, 623); (413, 413, 1, 626);
    (415, 415, 1, 629); (416, 420, 2, 417); (422, 422, 1, 640);
    (423, 423, 1, 424); (425, 425, 1, 643); (428, 428, 1, 429);
    (430, 430, 1, 648); (431, 431, 1, 432); (433, 434, 1, 650);
    (435, 437, 2, 436); (439, 439, 1, 658); (440, 440, 1, 441);
    (444, 444, 1, 445); (452, 452, 1, 454); (453, 453, 1, 454);
    (455, 455, 1, 457); (456, 456, 1, 457); (458, 458, 1, 460);
    (459, 475, 2, 460); (478, 494, 2, 479); (497, 497, 1, 499);
    (498, 500, 2, 499); (502, 502, 1, 405); (503, 503, 1, 447);
    (504, 542, 2, 505); (544, 544, 1, 414); (546, 562, 2, 547);
    (570, 570, 1, 11365); (571, 571, 1, 572); (573, 573, 1, 410);
    (574, 574, 1, 11366); (577, 577, 1, 578); (579, 579, 1, 384);
    (580, 580, 1, 649); (581, 581, 1, 652); (582, 590, 2, 583);
    (880, 882, 2, 881); (886, 886, 1, 887); (895, 895, 1, 1011);
    (902, 902, 1, 940); (904, 906, 1, 941); (908, 908, 1, 972);
    (910, 911, 1, 973); (913, 929, 1, 945); (931, 939, 1, 963);
    (975, 975, 1, 983); (984, 1006, 2, 985); (1012, 1012, 1, 952);
    (1015, 1015, 1, 1016); (1017, 1017, 1, 1010); (1018, 1018, 1, 1019);
    (1021, 1023, 1, 891); (1024, 1039, 1, 1104); (1040, 1071, 1, 1072);
    (1120, 1152, 2, 1121); (1162, 1214, 2, 1163); (1216, 1216, 1, 1231);
    (1217, 1229, 2, 1218); (1232, 1326, 2, 1233); (1329, 1366, 1, 1377);
    (4256, 4293, 1, 11520); (4295, 4295, 1, 11559); (4301, 4301, 1, 11565);
    (5024, 5103, 1, 43888); (5104, 5109, 1, 5112); (7312, 7354, 1, 4304);
    (7357, 7359, 1, 4349); (7680, 7828, 2, 7681); (7838, 7838, 1, 223);
    (7840, 7934, 2, 7841); (7944, 7951, 1, 7936); (7960, 7965, 1, 7952);
    (7976, 7983, 1, 7968); (7992, 7999, 1, 7984); (8008, 8013, 1, 8000);
    (8025, 8031, 2, 8017); (8040, 8047, 1, 8032); (8072, 8079, 1, 8064);
    (8088, 8095, 1, 8080); (8104, 8111, 1, 8096); (8120, 8121, 1, 8112);
    (8122, 8123, 1, 8048); (8124, 8124, 1, 8115); (8136, 8139, 1, 8050);
    (8140, 8140, 1, 8131); (8152, 8153, 1, 8144); (8154, 8155, 1, 8054);
    (8168, 8169, 1, 8160); (8170, 8171, 1, 8058); (8172, 8172, 1, 8165);
    (8184, 8185, 1, 8056); (8186, 8187, 1, 8060); (8188, 8188, 1, 8179);
    (8486, 8486, 1, 969); (8490, 8490, 1, 107); (8491, 8491, 1, 229);
    (8498, 8498, 1, 8526); (8544, 8559, 1, 8560); (8579, 8579, 1, 8580);
    (9398, 9423, 1, 9424); (11264, 11311, 1, 11312);
    (11360, 11360, 1, 11361); (11362, 11362, 1, 619);
    (11363, 11363, 1, 7549); (11364, 11364, 1, 637);
    (11367, 11371, 2, 11368); (11373, 11373, 1, 593);
    (11374, 11374, 1, 625); (11375, 11375, 1, 592); (11376, 11376, 1, 594);
    (11378, 11378, 1, 11379); (11381, 11381, 1, 11382);
    (11390, 11391, 1, 575); (11392, 11490, 2, 11393);
    (11499, 11501, 2, 11500); (11506, 11506, 1, 11507);
    (42560, 42604, 2, 42561); (42624, 42650, 2, 42625);
    (42786, 42798, 2, 42787); (42802, 42862, 2, 42803);
    (42873, 42875, 2, 42874); (42877, 42877, 1, 7545);
    (42878, 42886, 2, 42879); (42891, 42891, 1, 42892);
    (42893, 42893, 1, 613); (42896, 42898, 2, 42897);
    (42902, 42920, 2, 42903); (42922, 42922, 1, 614);
    (42923, 42923, 1, 604); (42924, 42924, 1, 609); (42925, 42925, 1, 620);
    (42926, 42926, 1, 618); (42928, 42928, 1, 670); (42929, 42929, 1, 647);
    (42930, 42930, 1, 669); (42931, 42931, 1, 43859);
    (42932, 42946, 2, 42933); (42948, 42948, 1, 42900);
    (42949, 42949, 1, 642); (42950, 42950, 1, 7566);
    (42951, 42953, 2, 42952); (42960, 42960, 1, 42961);
    (42966, 42968, 2, 42967); (42997, 42997, 1, 42998);
    (65313, 65338, 1, 65345); (66560, 66599, 1, 66600);
    (66736, 66771, 1, 66776); (66928, 66938, 1, 66967);
    (66940, 66954, 1, 66979); (66956, 66962, 1, 66995);
    (66964, 66965, 1, 67003); (68736, 68786, 1, 68800);
    (71840, 71871, 1, 71872); (93760, 93791, 1, 93792);
    (125184, 125217, 1, 125218)
  ]%N.

(** The title-case mapping, where it gives one other character. *)
Definition totitle_table : list (N * N * N * N) :=
  [
    (97, 122, 1, 65); (181, 181, 1, 924); (224, 246, 1, 192);
    (248, 254, 1, 216); (255, 255, 1, 376); (257, 303, 2, 256);
    (305, 305, 1, 73); (307, 311, 2, 306); (314, 328, 2, 313);
    (331, 375, 2, 330); (378, 382, 2, 377); (383, 383, 1, 83);
    (384, 384, 1, 579); (387, 389, 2, 386); (392, 392, 1, 391);
    (396, 396, 1, 395); (402, 402, 1, 401); (405, 405, 1, 502);
    (409, 409, 1, 408); (410, 410, 1, 573); (414, 414, 1, 544);
    (417, 421, 2, 416); (424, 424, 1, 423); (429, 429, 1, 428);
    (432, 432, 1, 431); (436, 438, 2, 435); (441, 441, 1, 440);
    (445, 445, 1, 444); (447, 447, 1, 503); (452, 452, 1, 453);
    (454, 454, 1, 453); (455, 455, 1, 456); (457, 457, 1, 456);
    (458, 458, 1, 459); (460, 476, 2, 459); (477, 477, 1, 398);
    (479, 495, 2, 478); (497, 497, 1, 498); (499, 501, 2, 498);
    (505, 543, 2, 504); (547, 563, 2, 546); (572, 572, 1, 571);
    (575, 576, 1, 11390); (578, 578, 1, 577); (583, 591, 2, 582);
    (592, 592, 1, 11375); (593, 593, 1, 11373); (594, 594, 1, 11376);
    (595, 595, 1, 385); (596, 596, 1, 390); (598, 599, 1, 393);
    (601, 601, 1, 399); (603, 603, 1, 400); (604, 604, 1, 42923);
    (608, 608, 1, 403); (609, 609, 1, 42924); (611, 611, 1, 404);
    (613, 613, 1, 42893); (614, 614, 1, 42922); (616, 616, 1, 407);
    (617, 617, 1, 406); (618, 618, 1, 42926); (619, 619, 1, 11362);
    (620, 620, 1, 42925); (623, 623, 1, 412); (625, 625, 1, 11374);
    (626, 626, 1, 413); (629, 629, 1, 415); (637, 637, 1, 11364);
    (640, 640, 1, 422); (642, 642, 1, 42949); (643, 643, 1, 425);
    (647, 647, 1, 42929); (648, 648, 1, 430); (649, 649, 1, 580);
    (650, 651, 1, 433); (652, 652, 1, 581); (658, 658, 1, 439);
    (669, 669, 1, 42930); (670, 670, 1, 42928); (837, 837, 1, 921);
    (881, 883, 2, 880); (887, 887, 1, 886); (891, 893, 1, 1021);
    (940, 940, 1, 902); (941, 943, 1, 904); (945, 961, 1, 913);
    (962, 962, 1, 931); (963, 971, 1, 931); (972, 972, 1, 908);
    (973, 974, 1, 910); (976, 976, 1, 914); (977, 977, 1, 920);
    (981, 981, 1, 934); (982, 982, 1, 928); (983, 983, 1, 975);
    (985, 1007, 2, 984); (1008, 1008, 1, 922); (1009, 1009, 1, 929);
    (1010, 1010, 1, 1017); (1011, 1011, 1, 895); (1013, 1013, 1, 917);
    (1016, 1016, 1, 1015); (1019, 1019, 1, 1018); (1072, 1103, 1, 1040);
    (1104, 1119, 1, 1024); (1121, 1153, 2, 1120); (1163, 1215, 2, 1162);
    (1218, 1230, 2, 1217); (1231, 1231, 1, 1216); (1233, 1327, 2, 1232);
    (1377, 1414, 1, 1329); (5112, 5117, 1, 5104); (7296, 7296, 1, 1042);
    (7297, 7297, 1, 1044); (7298, 7298, 1, 1054); (7299, 7300, 1, 1057);
    (7301, 7301, 1, 1058); (7302, 7302, 1, 1066); (7303, 7303, 1, 1122);
    (7304, 7304, 1, 42570); (7545, 7545, 1, 42877); (7549, 7549, 1, 11363);
    (7566, 7566, 1, 42950); (7681, 7829, 2, 7680); (7835, 7835, 1, 7776);
    (7841, 7935, 2, 7840); (7936, 7943, 1, 7944); (7952, 7957, 1, 7960);
    (7968, 7975, 1, 7976); (7984, 7991, 1, 7992); (8000, 8005, 1, 8008);
    (8017, 8023, 2, 8025); (8032, 8039, 1, 8040); (8048, 8049, 1, 8122);
    (8050, 8053, 1, 8136); (8054, 8055, 1, 8154); (8056, 8057, 1, 8184);
    (8058, 8059, 1, 8170); (8060, 8061, 1, 8186); (8064, 8071, 1, 8072);
    (8080, 8087, 1, 8088); (8096, 8103, 1, 8104); (8112, 8113, 1, 8120);
    (8115, 8115, 1, 8124); (8126, 8126, 1, 921); (8131, 8131, 1, 8140);
    (8144, 8145, 1, 8152); (8160, 8161, 1, 8168); (8165, 8165, 1, 8172);
    (8179, 8179, 1, 8188); (8526, 8526, 1, 8498); (8560, 8575, 1, 8544);
    (8580, 8580, 1, 8579); (9424, 9449, 1, 9398); (11312, 11359, 1, 11264);
    (11361, 11361, 1, 11360); (11365, 11365, 1, 570);
    (11366, 11366, 1, 574); (11368, 11372, 2, 11367);
    (11379, 11379, 1, 11378); (11382, 11382, 1, 11381);
    (11393, 11491, 2, 11392); (11500, 11502, 2, 11499);
    (11507, 11507, 1, 11506); (11520, 11557, 1, 4256);
    (11559, 11559, 1, 4295); (11565, 11565, 1, 4301);
    (42561, 42605, 2, 42560); (42625, 42651, 2, 42624);
    (42787, 42799, 2, 42786); (42803, 42863, 2, 42802);
    (42874, 42876, 2, 42873); (42879, 42887, 2, 42878);
    (42892, 42892, 1, 42891); (42897, 42899, 2, 42896);
    (42900, 42900, 1, 42948); (42903, 42921, 2, 42902);
    (42933, 42947, 2, 42932); (42952, 42954, 2, 42951);
    (42961, 42961, 1, 42960); (42967, 42969, 2, 42966);
    (42998, 42998, 1, 42997); (43859, 43859, 1, 42931);
    (43888, 43967, 1, 5024); (65345, 65370, 1, 65313);
    (66600, 66639, 1, 66560); (66776, 66811, 1, 66736);
    (66967, 66977, 1, 66928); (66979, 66993, 1, 66940);
    (66995, 67001, 1, 66956); (67003, 67004, 1, 66964);
    (68800, 68850, 1, 68736); (71872, 71903, 1, 71840);
    (93792, 93823, 1, 93760); (125218, 125251, 1, 125184)
  ]%N.

(** The title-case mapping, where it gives several characters. *)
Definition totitle_special_table : list (N * list N) :=
  [
    (223, [83; 115]); (329, [700; 78]); (496, [74; 780]);
    (912, [921; 776; 769]); (944, [933; 776; 769]); (1415, [1333; 1410]);
    (7830, [72; 817]); (7831, [84; 776]); (7832, [87; 778]);
    (7833, [89; 778]); (7834, [65; 702]); (8016, [933; 787]);
    (8018, [933; 787; 768]); (8020, [933; 787; 769]);
    (8022, [933; 787; 834]); (8114, [8122; 837]); (8116, [902; 837]);
    (8118, [913; 834]); (8119, [913; 834; 837]); (8130, [8138; 837]);
    (8132, [905; 837]); (8134, [919; 834]); (8135, [919; 834; 837]);
    (8146, [921; 776; 768]); (8147, [921; 776; 769]); (8150, [921; 834]);
    (8151, [921; 776; 834]); (8162, [933; 776; 768]);
    (8163, [933; 776; 769]); (8164, [929; 787]); (8166, [933; 834]);
    (8167, [933; 776; 834]); (8178, [8186; 837]); (8180, [911; 837]);
    (8182, [937; 834]); (8183, [937; 834; 837]); (64256, [70; 102]);
    (64257, [70; 105]); (64258, [70; 108]); (64259, [70; 102; 105]);
    (64260, [70; 102; 108]); (64261, [83; 116]); (64262, [83; 116]);
    (64275, [1348; 1398]); (64276, [1348; 1381]); (64277, [1348; 1387]);
    (64278, [1358; 1398]); (64279, [1348; 1389])
  ]%N.

(** The characters that some simple case mapping moves: [iscased] of
    the module [_sre]. *)
Definition sre_cased_table : list (N * N * N) :=
  [
    (65, 90, 1); (97, 122, 1); (181, 181, 1); (192, 214, 1); (216, 246, 1);
    (248, 311, 1); (313, 396, 1); (398, 410, 1); (412, 425, 1);
    (428, 441, 1); (444, 445, 1); (447, 447, 1); (452, 544, 1);
    (546, 563, 1); (570, 596, 1); (598, 599, 1); (601, 603, 2);
    (604, 604, 1); (608, 609, 1); (611, 613, 2); (614, 616, 2);
    (617, 620, 1); (623, 625, 2); (626, 626, 1); (629, 629, 1);
    (637, 637, 1); (640, 642, 2); (643, 643, 1); (647, 652, 1);
    (658, 658, 1); (669, 670, 1); (837, 837, 1); (880, 883, 1);
    (886, 887, 1); (891, 893, 1); (895, 895, 1); (902, 904, 2);
    (905, 906, 1); (908, 910, 2); (911, 929, 1); (931, 977, 1);
    (981, 1013, 1); (1015, 1019, 1); (1021, 1153, 1); (1162, 1327, 1);
    (1329, 1366, 1); (1377, 1415, 1); (4256, 4293, 1); (4295, 4295, 1);
    (4301, 4301, 1); (4304, 4346, 1); (4349, 4351, 1); (5024, 5109, 1);
    (5112, 5117, 1); (7296, 7304, 1); (7312, 7354, 1); (7357, 7359, 1);
    (7545, 7545, 1); (7549, 7549, 1); (7566, 7566, 1); (7680, 7835, 1);
    (7838, 7840, 2); (7841, 7957, 1); (7960, 7965, 1); (7968, 8005, 1);
    (8008, 8013, 1); (8016, 8023, 1); (8025, 8031, 2); (8032, 8061, 1);
    (8064, 8116, 1); (8118, 8124, 1); (8126, 8126, 1); (8130, 8132, 1);
    (8134, 8140, 1); (8144, 8147, 1); (8150, 8155, 1); (8160, 8172, 1);
    (8178, 8180, 1); (8182, 8188, 1); (8486, 8486, 1); (8490, 8491, 1);
    (8498, 8498, 1); (8526, 8526, 1); (8544, 8575, 1); (8579, 8580, 1);
    (9398, 9449, 1); (11264, 11376, 1); (11378, 11379, 1);
    (11381, 11382, 1); (11390, 11491, 1); (11499, 11502, 1);
    (11506, 11507, 1); (11520, 11557, 1); (11559, 11559, 1);
    (11565, 11565, 1); (42560, 42605, 1); (42624, 42651, 1);
    (42786, 42799, 1); (42802, 42863, 1); (42873, 42887, 1);
    (42891, 42893, 1); (42896, 42900, 1); (42902, 42926, 1);
    (42928, 42954, 1); (42960, 42961, 1); (42966, 42969, 1);
    (42997, 42998, 1); (43859, 43859, 1); (43888, 43967, 1);
    (64256, 64262, 1); (64275, 64279, 1); (65313, 65338, 1);
    (65345, 65370, 1); (66560, 66639, 1); (66736, 66771, 1);
    (66776, 66811, 1); (66928, 66938, 1); (66940, 66954, 1);
    (66956, 66962, 1); (66964, 66965, 1); (66967, 66977, 1);
    (66979, 66993, 1); (66995, 67001, 1); (67003, 67004, 1);
    (68736, 68786, 1); (68800, 68850, 1); (71840, 71903, 1);
    (93760, 93823, 1); (125184, 125251, 1)
  ]%N.

(** The table [_EXTRA_CASES] of [re]: the other characters with the
    same case folding as a lower-case character. *)
Definition extra_cases_table : list (N * list N) :=
  [
    (105, [305]); (115, [383]); (181, [956]); (305, [105]); (383, [115]);
    (837, [953; 8126]); (912, [8147]); (944, [8163]); (946, [976]);
    (949, [1013]); (952, [977]); (953, [837; 8126]); (954, [1008]);
    (956, [181]); (960, [982]); (961, [1009]); (962, [963]); (963, [962]);
    (966, [981]); (976, [946]); (977, [952]); (981, [966]); (982, [960]);
    (1008, [954]); (1009, [961]); (1013, [949]); (1074, [7296]);
    (1076, [7297]); (1086, [7298]); (1089, [7299]); (1090, [7300; 7301]);
    (1098, [7302]); (1123, [7303]); (7296, [1074]); (7297, [1076]);
    (7298, [1086]); (7299, [1089]); (7300, [1090; 7301]);
    (7301, [1090; 7300]); (7302, [1098]); (7303, [1123]); (7304, [42571]);
    (7777, [7835]); (7835, [7777]); (8126, [837; 953]); (8147, [912]);
    (8163, [944]); (42571, [7304]); (64261, [64262]); (64262, [64261])
  ]%N.

(** The class [\d] of [re] on text: the decimal digits of Unicode. *)
Definition isdigit (c : char) : bool := in_table decimal_table c.

Definition is_upper_char (c : char) : bool := in_table uppercase_table c.

Definition is_lower_char (c : char) : bool := in_table lowercase_table c.

Definition is_title_char (c : char) : bool := in_table titlecase_table c.

Definition is_cased (c : char) : bool :=
  is_upper_char c || is_lower_char c || is_title_char c.

Definition is_case_ignorable (c : char) : bool :=
  in_table case_ignorable_table c.

(** The simple lower-case mapping of one character. *)
Definition tolower (c : char) : char :=
  match map_table tolower_table c with
  | Some l => l
  | None => c
  end.

Definition capital_sigma : char := 931%N.

(** The first character of [s] that is not case-ignorable. *)
Fixpoint skip_ignorable (s : str) : option char :=
  match s with
  | [] => None
  | c :: s' => if is_case_ignorable c then skip_ignorable s' else Some c
  end.

(** Whether a capital sigma between the text [b] (nearest character
    first) and the text [a] ends a word: a cased character before it
    and none after it, case-ignorable characters skipped. *)
Definition final_sigma (b a : str) : bool :=
  match skip_ignorable b with
  | Some c =>
      is_cased c &&
      match skip_ignorable a with
      | Some c' => negb (is_cased c')
      | None => true
      end
  | None => false
  end.

(** The lower-case form of the character [c] between [b] and [a]: the
    full mapping, which gives two characters for U+0130 and depends on
    the place for the capital sigma. *)
Definition lower_at (b : str) (c : char) (a : str) : str :=
  if (c =? capital_sigma)%N then [if final_sigma b a then 962%N else 963%N]
  else if (c =? 304)%N then [105%N; 775%N]
  else [tolower c].

Fixpoint lower_from (b a : str) : str :=
  match a with
  | [] => []
  | c :: a' => lower_at b c a' ++ lower_from (c :: b) a'
  end.

(** [s.lower()] *)
Definition lower (s : str) : str := lower_from [] s.

(** [s.isupper()]: no lower-case and no titlecase character, and some
    upper-case one. *)
Definition isupper (s : str) : bool :=
  negb (existsb (fun c => is_lower_char c || is_title_char c) s) &&
  existsb is_upper_char s.

(** The title-case form of one character. *)
Definition totitle (c : char) : str :=
  match assoc_table totitle_special_table c with
  | Some t => t
  | None =>
      match map_table totitle_table c with
      | Some t => [t]
      | None => [c]
      end
  end.

(** [s.title()]: a character after a cased one in lower case, any
    other in title case. *)
Fixpoint title_from (previous_is_cased : bool) (b a : str) : str :=
  match a with
  | [] => []
  | c :: a' =>
      (if previous_is_cased then lower_at b c a' else totitle c)
      ++ title_from (is_cased c) (c :: b) a'
  end.

Definition title (s : str) : str := title_from false [] s.

Fixpoint lstrip (s : str) : str :=
  match s with
  | c :: s' => if isspace c then lstrip s' else s
  | [] => []
  end.

Definition rstrip (s : str) : str := rev (lstrip (rev s)).

(** [s.strip()] *)
Definition strip (s : str) : str := rstrip (lstrip s).

Definition char_eqb (a b : char) : bool := N.eqb a b.

Fixpoint str_eqb (a b : str) : bool :=
  match a, b with
  | [], [] => true
  | x :: a', y :: b' => char_eqb x y && str_eqb a' b'
  | _, _ => false
  end.

(** [s.split('\n')]: never the empty list. *)
Fixpoint split_nl (s : str) : list str :=
  match s with
  | [] => [[]]
  | c :: s' =>
      if char_eqb c nl then [] :: split_nl s'
      else match split_nl s' with
           | l :: ls => (c :: l) :: ls
           | [] => [[c]]
           end
  end.

(** ["\n".join(ls)] *)
Fixpoint join_nl (ls : list str) : str :=
  match ls with
  | [] => []
  | [l] => l
  | l :: ls' => l ++ nl :: join_nl ls'
  end.

Fixpoint starts_with (p s : str) : bool :=
  match p, s with
  | [], _ => true
  | x :: p', y :: s' => char_eqb x y && starts_with p' s'
  | _ :: _, [] => false
  end.

(** [p in s] on strings: substring test. *)
Fixpoint contains (p s : str) : bool :=
  starts_with p s ||
  match s with
  | [] => false
  | _ :: s' => contains p s'
  end.

(** truthiness of a string or of a list: non-empty *)
Definition truthy {A} (l : list A) : bool :=
  match l with [] => false | _ => true end.

(** truthiness of an optional object: [None] is false *)
Definition truthy_opt {A} (o : option A) : bool :=
  match o with Some _ => true | None => false end.

(** [s.strip(chars)] *)
Fixpoint lstrip_chars (chars s : str) : str :=
  match s with
  | c :: s' => if existsb (char_eqb c) chars then lstrip_chars chars s' else s
  | [] => []
  end.

Definition strip_chars (chars s : str) : str :=
  rev (lstrip_chars chars (rev (lstrip_chars chars s))).

(** *** Byte strings *)

Definition bytes := list Byte.byte.

Definition byte_val (b : Byte.byte) : N := Byte.to_N b.

(** A continuation byte in the range [lo, hi] gives its six low bits. *)
Definition cont (lo hi : N) (b : Byte.byte) : option N :=
  if between_incl lo hi (byte_val b) then Some (byte_val b mod 64)%N else None.

(** [b.decode('utf-8')]: [None] stands for [UnicodeDecodeError].  The
    codec is strict: no overlong form, no surrogate, nothing above
    U+10FFFF. *)
Fixpoint utf8_decode (b : bytes) : option str :=
  match b with
  | [] => Some []
  | b0 :: r0 =>
      let x := byte_val b0 in
      if (x <? 128)%N then option_map (cons x) (utf8_decode r0)
      else if between_incl 194 223 x then
        match r0 with
        | b1 :: r1 =>
            match cont 128 191 b1 with
            | Some y1 =>
                option_map (cons ((x mod 32) * 64 + y1)%N) (utf8_decode r1)
            | None => None
            end
        | _ => None
        end
      else if between_incl 224 239 x then
        match r0 with
        | b1 :: b2 :: r2 =>
            let lo := if (x =? 224)%N then 160%N else 128%N in
            let hi := if (x =? 237)%N then 159%N else 191%N in
            match cont lo hi b1, cont 128 191 b2 with
            | Some y1, Some y2 =>
                option_map (cons (((x mod 16) * 64 + y1) * 64 + y2)%N)
                           (utf8_decode r2)
            | _, _ => None
            end
        | _ => None
        end
      else if between_incl 240 244 x then
        match r0 with
        | b1 :: b2 :: b3 :: r3 =>
            let lo := if (x =? 240)%N then 144%N else 128%N in
            let hi := if (x =? 244)%N then 143%N else 191%N in
            match cont lo hi b1, cont 128 191 b2, cont 128 191 b3 with
            | Some y1, Some y2, Some y3 =>
                option_map
                  (cons ((((x mod 8) * 64 + y1) * 64 + y2) * 64 + y3)%N)
                  (utf8_decode r3)
            | _, _, _ => None
            end
        | _ => None
        end
      else None
  end.

Definition squote : char := 39%N.
Definition dquote : char := 34%N.
Definition backslash : char := 92%N.

Definition hex_digit (n : N) : char :=
  if (n <? 10)%N then (48 + n)%N else (87 + n)%N.

(** One byte inside [repr] of a byte string quoted with [quote]. *)
Definition repr_byte (quote : char) (b : Byte.byte) : str :=
  let c := byte_val b in
  if char_eqb c quote || char_eqb c backslash then [backslash; c]
  else if (c =? 9)%N then backslash :: py "t"
  else if (c =? 10)%N then backslash :: py "n"
  else if (c =? 13)%N then backslash :: py "r"
  else if (c <? 32)%N || (127 <=? c)%N
       then backslash :: py "x" ++ [hex_digit (c / 16)%N; hex_digit (c mod 16)%N]
  else [c].

(** [str(b)] of a byte string, which is its [repr]: single quotes,
    unless the bytes have a single quote and no double quote. *)
Definition bytes_repr (b : bytes) : str :=
  let vals := map byte_val b in
  let quote :=
    if existsb (char_eqb squote) vals && negb (existsb (char_eqb dquote) vals)
    then dquote else squote in
  py "b" ++ quote :: flat_map (repr_byte quote) b ++ [quote].

End Py.

Import Py.

(** ** Regular expressions

    The fragment of Python's [re] that the program uses, with the
    backtracking order of the engine: the matcher lists every way a
    pattern can match from a position, the engine's first choice
    first.  Repetition only occurs on one-character classes in the
    program's patterns, so it is a constructor on classes. *)

Module Re.

Inductive regex : Type :=
| Chr (c : char)              (* a literal character *)
| Class (p : char -> bool)    (* a character class *)
| LitI (s : str)              (* a literal under IGNORECASE *)
| Seq (r1 r2 : regex)
| Alt (r1 r2 : regex)
| Opt (r : regex)             (* r?  greedy *)
| Star (p : char -> bool)     (* c*  greedy *)
| Plus (p : char -> bool)     (* c+  greedy *)
| Bos                         (* ^ without MULTILINE *)
| Bol                         (* ^ under MULTILINE *)
| Eol                         (* $ under MULTILINE *)
| Group (r : regex).          (* the capturing group 1 *)

(** A position in the subject: the text before it, nearest character
    first, and the text after it. *)
Record pos : Type := Pos { before : str; after : str }.

Definition start (s : str) : pos := Pos [] s.

Definition at_bol (p : pos) : bool :=
  match before p with
  | [] => true
  | c :: _ => char_eqb c nl
  end.

Definition at_eol (p : pos) : bool :=
  match after p with
  | [] => true
  | c :: _ => char_eqb c nl
  end.

Definition step_if (ok : char -> bool) (p : pos) : list pos :=
  match after p with
  | c :: a => if ok c then [Pos (c :: before p) a] else []
  | [] => []
  end.

(** All positions reached by consuming a run of [ok] characters, the
    longest run first. *)
Fixpoint star_from (ok : char -> bool) (b a : str) : list pos :=
  match a with
  | c :: a' => if ok c then star_from ok (c :: b) a' ++ [Pos b a]
               else [Pos b a]
  | [] => [Pos b a]
  end.

(** [iscased] of the compiler of [re]. *)
Definition sre_cased (x : char) : bool := in_table sre_cased_table x.

Definition extra_cases (lo : char) : list char :=
  match assoc_table extra_cases_table lo with
  | Some l => l
  | None => []
  end.

(** A class of literal characters under IGNORECASE: the compiler puts
    the lower-case form of each character into the set, and with it
    its extra cases; the engine looks for the lower-case form of the
    character of the subject in the set. *)
Definition in_class_i (chars : str) (c : char) : bool :=
  existsb (fun x => existsb (char_eqb (tolower c))
                            (tolower x :: extra_cases (tolower x)))
          chars.

(** One literal character [x] of a pattern under IGNORECASE, against
    the character [c] of the subject: a character without case is
    compared as it stands. *)
Definition ieq (x c : char) : bool :=
  if sre_cased x then in_class_i [x] c else char_eqb c x.

Fixpoint lit_from (s : str) (b a : str) : list pos :=
  match s with
  | [] => [Pos b a]
  | x :: s' =>
      match a with
      | c :: a' => if ieq x c then lit_from s' (c :: b) a' else []
      | [] => []
      end
  end.

(** The text between two positions of one subject. *)
Definition between (p q : pos) : str :=
  firstn (length (after p) - length (after q)) (after p).

Definition or_else (c2 c1 : option str) : option str :=
  match c2 with Some _ => c2 | None => c1 end.

(** [mt r p]: the matches of [r] at [p] in the engine's order, each
    with the text of group 1 if the group took part. *)
Fixpoint mt (r : regex) (p : pos) : list (option str * pos) :=
  match r with
  | Chr c => map (pair None) (step_if (char_eqb c) p)
  | Class ok => map (pair None) (step_if ok p)
  | LitI s => map (pair None) (lit_from s (before p) (after p))
  | Seq r1 r2 =>
      flat_map (fun m1 =>
                  map (fun m2 => (or_else (fst m2) (fst m1), snd m2))
                      (mt r2 (snd m1)))
               (mt r1 p)
  | Alt r1 r2 => mt r1 p ++ mt r2 p
  | Opt r1 => mt r1 p ++ [(None, p)]
  | Star ok => map (pair None) (star_from ok (before p) (after p))
  | Plus ok =>
      flat_map (fun q => map (pair None) (star_from ok (before q) (after q)))
               (step_if ok p)
  | Bos => if truthy (before p) then [] else [(None, p)]
  | Bol => if at_bol p then [(None, p)] else []
  | Eol => if at_eol p then [(None, p)] else []
  | Group r1 => map (fun m => (Some (between p (snd m)), snd m)) (mt r1 p)
  end.

(** A match object: group 1 and the end of the match. *)
Definition first_match (r : regex) (p : pos) : option (option str * pos) :=
  hd_error (mt r p).

(** [re.match(r, s)] *)
Definition re_match (r : regex) (s : str) : option (option str * pos) :=
  first_match r (start s).

(** [re.search(r, s)]: the leftmost position with a match. *)
Fixpoint search_from (r : regex) (b a : str) : option (option str * pos) :=
  match first_match r (Pos b a) with
  | Some m => Some m
  | None =>
      match a with
      | c :: a' => search_from r (c :: b) a'
      | [] => None
      end
  end.

Definition re_search (r : regex) (s : str) : option (option str * pos) :=
  search_from r [] s.

(** [m.group(1)] of a match object of a pattern whose group always
    takes part. *)
Definition group1 (m : option str * pos) : str :=
  match fst m with Some g => g | None => [] end.

(** [re.sub(r, '', s)] for a pattern that matches no empty text: every
    match is deleted, the search resuming where the match ended. *)
Fixpoint sub_from (fuel : nat) (r : regex) (b a : str) : str :=
  match fuel with
  | 0 => a
  | S fuel' =>
      let copy :=
        match a with
        | c :: a1 => c :: sub_from fuel' r (c :: b) a1
        | [] => []
        end in
      match first_match r (Pos b a) with
      | Some (_, q) =>
          if length (after q) <? length a
          then sub_from fuel' r (before q) (after q)
          else copy
      | None => copy
      end
  end.

Definition re_sub_empty (r : regex) (s : str) : str :=
  sub_from (S (length s)) r [] s.

Fixpoint alts (rs : list regex) : regex :=
  match rs with
  | [] => Class (fun _ => false)
  | [r] => r
  | r :: rs' => Alt r (alts rs')
  end.

(** The declarative reading of a pattern: [matches r b w a c] says
    that [r] matches the text [w], found between the text [b] (nearest
    character first) and the text [a], and that group 1 then holds
    [c]. *)
Inductive matches : regex -> str -> str -> str -> option str -> Prop :=
| m_chr c b a : matches (Chr c) b [c] a None
| m_class ok c b a : ok c = true -> matches (Class ok) b [c] a None
| m_lit s w b a : Forall2 (fun x c => ieq x c = true) s w ->
                  matches (LitI s) b w a None
| m_seq r1 r2 b w1 w2 a c1 c2 :
    matches r1 b w1 (w2 ++ a) c1 ->
    matches r2 (rev w1 ++ b) w2 a c2 ->
    matches (Seq r1 r2) b (w1 ++ w2) a (or_else c2 c1)
| m_alt_l r1 r2 b w a c : matches r1 b w a c -> matches (Alt r1 r2) b w a c
| m_alt_r r1 r2 b w a c : matches r2 b w a c -> matches (Alt r1 r2) b w a c
| m_opt_some r b w a c : matches r b w a c -> matches (Opt r) b w a c
| m_opt_none r b a : matches (Opt r) b [] a None
| m_star ok w b a : forallb ok w = true -> matches (Star ok) b w a None
| m_plus ok w b a :
    w <> [] -> forallb ok w = true -> matches (Plus ok) b w a None
| m_bos a : matches Bos [] [] a None
| m_bol b a : at_bol (Pos b a) = true -> matches Bol b [] a None
| m_eol b a : at_eol (Pos b a) = true -> matches Eol b [] a None
| m_group r b w a c : matches r b w a c -> matches (Group r) b w a (Some w).

End Re.

Import Re.

(** ** Dictionaries

    A [Dict[str, str]]: keys in insertion order; assigning to a key
    that is present keeps its place. *)

Module Dict.

Definition dict := list (str * str).

Fixpoint set (k v : str) (d : dict) : dict :=
  match d with
  | [] => [(k, v)]
  | (k', v') :: d' =>
      if str_eqb k k' then (k, v) :: d' else (k', v') :: set k v d'
  end.

Fixpoint get (k : str) (d : dict) : option str :=
  match d with
  | [] => None
  | (k', v) :: d' => if str_eqb k k' then Some v else get k d'
  end.

Definition mem (k : str) (d : dict) : bool :=
  match get k d with Some _ => true | None => false end.

Definition keys (d : dict) : list str := map fst d.

Definition values (d : dict) : list str := map snd d.

End Dict.

Import Dict.

(** ** pdf_processor.py *)

Module PdfProcessor.

(** The dictionaries live in a store and are held by reference:
    [identify_sections] returns the object that [self.sections] names,
    not a copy of it. *)
Definition ref := nat.

Definition store := list dict.

Definition deref (h : store) (r : ref) : dict := nth r h [].

Fixpoint assign (h : store) (r : ref) (d : dict) : store :=
  match h, r with
  | [], _ => []
  | _ :: h', 0 => d :: h'
  | x :: h', S r' => x :: assign h' r' d
  end.

Definition alloc (h : store) (d : dict) : store * ref := (h ++ [d], length h).

(** The external PDF reader, as the processor sees it: for each page
    what [extract_text()] gives ([None] when it raises), and the
    document information, whose values are text or byte strings.  A
    byte string comes with the text that [str] makes of it, which is
    for its class to say: the [repr] of the bytes, [bytes_repr], for a
    plain [bytes] object; a decoding of its own for the byte strings
    of the reader. *)
Inductive value : Type :=
| VStr (s : str)
| VBytes (b : bytes) (as_str : str).

Record PdfReader : Type := mkReader {
  pages : list (option str);
  metadata : option (list (str * value))
}.

Record PdfProcessor : Type := mkProcessor {
  reader : PdfReader;
  full_text : str;
  sections : ref
}.

(** [__init__] *)
Definition init (h : store) (rd : PdfReader) : store * PdfProcessor :=
  let (h', r) := alloc h [] in
  (h', mkProcessor rd [] r).

(** The loop of lines 16 to 19; [None] when a page raises. *)
Fixpoint page_texts (ps : list (option str)) : option (list str) :=
  match ps with
  | [] => Some []
  | None :: _ => None
  | Some text :: ps' =>
      option_map (fun text_parts =>
                    if truthy text then text :: text_parts else text_parts)
                 (page_texts ps')
  end.

(** [extract_text] *)
Definition extract_text (self : PdfProcessor) : option (PdfProcessor * str) :=
  match page_texts (pages (reader self)) with
  | Some text_parts =>
      let t := join_nl text_parts in
      Some (mkProcessor (reader self) t (sections self), t)
  | None => None
  end.

(** The list literal of the source: no comma separates the literals
    experiments and results, which Python concatenates. *)
Definition common_sections : list str :=
  [ py "abstract"; py "introduction"; py "background";
    py "methodology"; py "methods"; py "experimental setup"; py "experiment";
    py "experiments" ++ py "results";
    py "discussion"; py "conclusion"; py "conclusions";
    py "references"; py "acknowledgments"; py "related work" ].

Definition is_roman (c : char) : bool :=
  existsb (char_eqb c) (py "IVXivx").

(** The class [[IVXivx]] under the flag [i]. *)
Definition is_roman_i (c : char) : bool := in_class_i (py "IVXivx") c.

Definition dot : char := 46%N.
Definition colon : char := 58%N.

(** The alternation of the vocabulary, in one group. *)
Definition vocabulary : regex := Group (alts (map LitI common_sections)).

(** The prefix [\d+\.?\d*\s*] *)
Definition number_prefix : regex :=
  Seq (Plus isdigit) (Seq (Opt (Chr dot)) (Seq (Star isdigit) (Star isspace))).

(** The prefix [[IVXivx]+\.?\s*], under the flag [i] *)
Definition roman_prefix : regex :=
  Seq (Plus is_roman_i) (Seq (Opt (Chr dot)) (Star isspace)).

(** The end [\s*:] or [$] *)
Definition token_end_pattern : regex :=
  Alt (Seq (Star isspace) (Chr colon)) Eol.

(** The pattern of line 33, under the flags [i] and [m]: [^], then
    optionally one of the two prefixes, then the vocabulary in group 1,
    then the end. *)
Definition section_pattern : regex :=
  Seq Bol
  (Seq (Opt (Alt number_prefix roman_prefix))
  (Seq vocabulary token_end_pattern)).

(** Line 42: the pattern rule. *)
Definition pattern_rule (line : str) : option (option str * pos) :=
  re_search section_pattern (strip line).

(** Lines 48 to 50: the all-caps rule. *)
Definition caps_rule (line : str) : option (option str * pos) :=
  if isupper (strip line) &&
     existsb (fun section => contains section (lower line)) common_sections
  then re_search vocabulary line
  else None.

(** Lines 42 to 52: the match object of a header line. *)
Definition header_match (line : str) : option (option str * pos) :=
  match pattern_rule line with
  | Some m => Some m
  | None => caps_rule line
  end.

(** The section a header line opens: [match.group(1).lower()]. *)
Definition header_name (line : str) : option str :=
  option_map (fun m => lower (group1 m)) (header_match line).

Record loop_state : Type := mkLoop {
  secs : dict;
  current_section : str;
  current_content : list str
}.

(** One turn of the loop of lines 41 to 60. *)
Definition loop_body (st : loop_state) (line : str) : loop_state :=
  match header_match line with
  | Some m =>
      let st1 :=
        if truthy (current_content st)
        then mkLoop (set (current_section st)
                         (strip (join_nl (current_content st))) (secs st))
                    (current_section st) []
        else st in
      mkLoop (secs st1) (lower (group1 m)) (current_content st1)
  | None =>
      mkLoop (secs st) (current_section st) (current_content st ++ [line])
  end.

Definition flush (st : loop_state) : dict :=
  if truthy (current_content st)
  then set (current_section st) (strip (join_nl (current_content st))) (secs st)
  else secs st.

(** Lines 38 to 63 on the lines of the text, starting from the
    dictionary that [self.sections] names. *)
Definition primary_lines (d : dict) (lines : list str) : dict :=
  flush (fold_left loop_body lines (mkLoop d (py "unknown") [])).

Definition primary_pass (d : dict) (text : str) : dict :=
  primary_lines d (split_nl text).

Definition upper_letter (c : char) : bool := between_incl 65 90 c.

(** [^\d+\.?\s+[A-Z]] *)
Definition numbered_pattern : regex :=
  Seq Bos (Seq (Plus isdigit) (Seq (Opt (Chr dot))
          (Seq (Plus isspace) (Class upper_letter)))).

(** [^[IVXivx]+\.?\s+[A-Z]] *)
Definition roman_pattern : regex :=
  Seq Bos (Seq (Plus is_roman) (Seq (Opt (Chr dot))
          (Seq (Plus isspace) (Class upper_letter)))).

(** Line 100: [^\d+\.?\s*] or [^[IVXivx]+\.?\s*], no flags. *)
Definition prefix_pattern : regex :=
  Alt (Seq Bos (Seq (Plus isdigit) (Seq (Opt (Chr dot)) (Star isspace))))
      (Seq Bos (Seq (Plus is_roman) (Seq (Opt (Chr dot)) (Star isspace)))).

(** [lines[a:b]] for [a] and [b] within the list *)
Definition slice {A} (l : list A) (a b : nat) : list A :=
  firstn (b - a) (skipn a l).

(** The test of lines 83 to 87 on line [i], already stripped. *)
Definition likely_header (lines : list str) (i : nat) (line : str) : bool :=
  (length line <? 100) &&
  (isupper line || truthy_opt (re_match numbered_pattern line)
                || truthy_opt (re_match roman_pattern line)) &&
  ((length lines <=? i + 1) || negb (truthy (strip (nth (i + 1) lines [])))).

(** Lines 74 to 89. *)
Definition potential_sections (lines : list str) : list (nat * str) :=
  flat_map (fun il =>
              let line := strip (snd il) in
              if likely_header lines (fst il) line then [(fst il, line)] else [])
           (combine (seq 0 (length lines)) lines).

Definition clean_header (header : str) : str :=
  re_sub_empty prefix_pattern (lower header).

(** Lines 94 to 101. *)
Fixpoint build_sections (lines : list str) (ps : list (nat * str))
                        (new_sections : dict) : dict :=
  match ps with
  | [] => new_sections
  | (line_num, header) :: rest =>
      let next_line :=
        match rest with
        | (n, _) :: _ => n
        | [] => length lines
        end in
      let content := strip (join_nl (slice lines (line_num + 1) next_line)) in
      build_sections lines rest (set (clean_header header) content new_sections)
  end.

(** What the fallback pass builds, lines 73 to 101; the empty
    dictionary stands for the case where [new_sections] is not built. *)
Definition fallback_sections (text : str) : dict :=
  let lines := split_nl text in
  build_sections lines (potential_sections lines) [].

(** [_try_alternative_section_detection] *)
Definition try_alternative_section_detection (h : store) (self : PdfProcessor)
  : store * PdfProcessor :=
  let lines := split_nl (full_text self) in
  let ps := potential_sections lines in
  if truthy ps then
    let new_sections := build_sections lines ps [] in
    if length (deref h (sections self)) <? length new_sections
    then let (h', r) := alloc h new_sections in
         (h', mkProcessor (reader self) (full_text self) r)
    else (h, self)
  else (h, self).

(** [identify_sections]: the store and the processor afterwards, and
    the reference returned. *)
Definition identify_sections (h : store) (self : PdfProcessor)
  : store * PdfProcessor * ref :=
  let h1 := assign h (sections self)
                   (primary_pass (deref h (sections self)) (full_text self)) in
  let (h2, self2) :=
    if length (deref h1 (sections self)) <=? 2
    then try_alternative_section_detection h1 self
    else (h1, self) in
  (h2, self2, sections self2).

(** [pdf_info.get(key, default)] *)
Fixpoint info_get (key : str) (info : list (str * value)) (default : value)
  : value :=
  match info with
  | [] => default
  | (k, v) :: info' => if str_eqb key k then v else info_get key info' default
  end.

(** Lines 118 to 123: the text stored for a raw value. *)
Definition decode_value (v : value) : str :=
  match v with
  | VBytes b as_str =>
      match utf8_decode b with
      | Some s => s
      | None => as_str
      end
  | VStr s => s
  end.

Definition metadata_keys : list str :=
  [py "/Title"; py "/Author"; py "/CreationDate"].

(** Lines 126 to 130; [None] when the block raises, which the bare
    [except] discards. *)
Definition first_page_title (rd : PdfReader) : option (option str) :=
  match pages rd with
  | Some first_page_text :: _ =>
      let lines := map strip (filter (fun l => truthy (strip l))
                                     (split_nl first_page_text)) in
      Some (hd_error lines)
  | _ => None
  end.

(** [get_metadata] *)
Definition get_metadata (self : PdfProcessor) : dict :=
  let md0 :=
    match metadata (reader self) with
    | Some pdf_info =>
        if truthy pdf_info then
          fold_left (fun md key =>
                       set (strip_chars (py "/") (lower key))
                           (decode_value (info_get key pdf_info (VStr [])))
                           md)
                    metadata_keys []
        else []
    | None => []
    end in
  let has_title :=
    match get (py "title") md0 with
    | Some t => truthy t
    | None => false
    end in
  if has_title then md0
  else match first_page_title (reader self) with
       | Some (Some title) => set (py "title") title md0
       | _ => md0
       end.

(** The section map that a call of [identify_sections] returns, as it
    is at the return. *)
Definition returned (h : store) (self : PdfProcessor) : dict :=
  let '(h', _, r) := identify_sections h self in deref h' r.

(** A processor whose section map is a dictionary of the store. *)
Definition valid (h : store) (self : PdfProcessor) : Prop :=
  sections self < length h.

(** A processor on which [identify_sections] has not run: its section
    map is the empty dictionary that [__init__] made. *)
Definition fresh (h : store) (self : PdfProcessor) : Prop :=
  valid h self /\ deref h (sections self) = [].

(** The processor of a document of one page, after [extract_text]. *)
Definition loaded (text : str) : store * PdfProcessor :=
  let (h, self) := init [] (mkReader [Some text] None) in
  match extract_text self with
  | Some (self', _) => (h, self')
  | None => (h, self)
  end.

(** [get_section] *)
Definition get_section (h : store) (self : PdfProcessor) (section_name : str)
  : option str :=
  get (lower section_name) (deref h (sections self)).

(** The dictionary that [process] returns: the metadata, the section
    map (the object itself, by reference) and the text. *)
Record processed : Type := mkProcessed {
  p_metadata : dict;
  p_sections : ref;
  p_full_text : str
}.

(** [process]; [None] when [extract_text] raises. *)
Definition process (h : store) (self : PdfProcessor)
  : option (store * PdfProcessor * processed) :=
  match extract_text self with
  | Some (self1, _) =>
      let '(h2, self2, sections) := identify_sections h self1 in
      let metadata := get_metadata self2 in
      Some (h2, self2, mkProcessed metadata sections (full_text self2))
  | None => None
  end.

End PdfProcessor.

(** ** summarizer.py *)

Module Summarizer.

Import PdfProcessor.

Record PaperSummarizer : Type := mkSummarizer {
  model : str;
  host : str;
  api_endpoint : str
}.

(** [__init__]; the defaults are [mistral] and the local host. *)
Definition init (model host : str) : PaperSummarizer :=
  mkSummarizer model host (host ++ py "/api/generate").

(** What [process] hands over: a dictionary with the optional entries
    [metadata], [sections] and [full_text]. *)
Record paper_content : Type := mkContent {
  pc_metadata : option dict;
  pc_sections : option dict;
  pc_full_text : option str
}.

Definition excluded : list str :=
  [py "unknown"; py "references"; py "acknowledgments"].

Definition indent : str := py "        ".

(** The f-string of lines 37 to 43. *)
Definition section_prompt (section_text section_name : str) : str :=
  py "Summarize the following " ++ section_name ++
  py " section of a research paper." ++ nl ::
  indent ++ py "Focus on the key points and maintain academic language." ++ nl ::
  indent ++ py "Keep the summary concise but informative." ++ nl :: nl ::
  indent ++ section_text ++ nl :: nl ::
  indent ++ py "Summary:".

(** The f-string of lines 63 to 68. *)
Definition overall_prompt (main_text : str) : str :=
  py "Create a brief overview of this research paper." ++ nl ::
  indent ++ py "Focus on the main contributions and findings." ++ nl :: nl ::
  indent ++ main_text ++ nl :: nl ::
  indent ++ py "Overview:".

Section Backend.

(** The generative backend is external.  A request is made of the
    endpoint, the model, the prompt and the token limit; the answer is
    the [response] field, or [None] for anything that raises
    (connection, status, JSON).  The backend has a state of its own, so
    that equal requests may be answered differently. *)
Variable world : Type.
Variable post : world -> str -> str -> str -> nat -> world * option str.

(** [_generate_summary] *)
Definition generate_summary (self : PaperSummarizer) (w : world)
                            (prompt : str) (max_tokens : nat) : world * str :=
  match post w (api_endpoint self) (model self) prompt max_tokens with
  | (w', Some response) => (w', response)
  | (w', None) => (w', [])
  end.

(** [summarize_section] *)
Definition summarize_section (self : PaperSummarizer) (w : world)
                             (section_text section_name : str) : world * str :=
  if truthy section_text
  then generate_summary self w (section_prompt section_text section_name) 500
  else (w, []).

(** One turn of the loop of lines 52 to 56. *)
Definition summary_step (self : PaperSummarizer) (acc : world * dict)
                        (item : str * str) : world * dict :=
  let (w, summaries) := acc in
  let (section_name, content) := item in
  if negb (existsb (str_eqb (lower section_name)) excluded) then
    let (w', summary) := summarize_section self w content section_name in
    if truthy summary then (w', set section_name summary summaries)
    else (w', summaries)
  else (w, summaries).

(** The per-section summaries: the loop of lines 52 to 56. *)
Definition section_summaries (self : PaperSummarizer) (w : world)
                             (sections : dict) : world * dict :=
  fold_left (summary_step self) sections (w, []).

(** [generate_full_summary] *)
Definition generate_full_summary (self : PaperSummarizer) (w : world)
                                 (pc : paper_content) : world * dict :=
  let sections := match pc_sections pc with Some d => d | None => [] end in
  let (w1, summaries) := section_summaries self w sections in
  let main_text :=
    match get (py "abstract") sections with
    | Some a => a
    | None =>
        firstn 1000 (match pc_full_text pc with Some t => t | None => [] end)
    end in
  let (w2, overview) := generate_summary self w1 (overall_prompt main_text) 500 in
  (w2, set (py "overview") overview summaries).

End Backend.

(** [d.get(k, default)] *)
Definition get_default (k default : str) (d : dict) : str :=
  match get k d with Some v => v | None => default end.

(** The block of one section, line 89. *)
Definition section_block (item : str * str) : str :=
  py "## " ++ title (fst item) ++ nl :: snd item ++ [nl].

(** The list [md_parts] of lines 79 to 89. *)
Definition md_parts (pc : paper_content) (summaries : dict) : list str :=
  let metadata := match pc_metadata pc with Some m => m | None => [] end in
  [ py "# Paper Summary" ++ [nl];
    py "## Metadata" ++ [nl];
    py "- Title: " ++ get_default (py "title") (py "N/A") metadata ++ [nl];
    py "- Author(s): " ++ get_default (py "author") (py "N/A") metadata
      ++ [nl; nl];
    py "## Overview" ++ nl :: get_default (py "overview") [] summaries ++ [nl] ]
  ++ map section_block
         (filter (fun item => negb (str_eqb (fst item) (py "overview")))
                 summaries).

(** [format_summary_markdown] *)
Definition format_summary_markdown (pc : paper_content) (summaries : dict)
  : str :=
  join_nl (md_parts pc summaries).

End Summarizer.

(** ** Checks on the character tables

    What the proofs compute on the tables: the characters that the
    lower-case mapping leaves alone, the characters that a literal or a
    class matches under IGNORECASE, and a test that no lower-case form
    is moved again. *)

Module Chars.

(** A character that the lower-case mapping leaves alone. *)
Definition stable (c : char) : bool :=
  match map_table tolower_table c with
  | Some _ => false
  | None => true
  end.

(** The characters whose simple lower-case form is [l]. *)
Definition preimages (t : list (N * N * N * N)) (l : char) : list char :=
  flat_map (fun e => let '(lo, hi, step, to) := e in
              if (to <=? l)%N && (l <=? to + (hi - lo))%N
              then [(lo + (l - to))%N] else [])
           t.

Definition tolower_sources (l : char) : list char :=
  l :: preimages tolower_table l.

(** The characters of a class of literals under IGNORECASE. *)
Definition class_chars (chars : str) : list char :=
  filter (in_class_i chars)
         (flat_map (fun x => flat_map tolower_sources
                               (tolower x :: extra_cases (tolower x)))
                   chars).

(** The characters that the literal character [x] matches under
    IGNORECASE. *)
Definition matching_chars (x : char) : list char :=
  if sre_cased x then class_chars [x] else [x].

Definition same_chars (l1 l2 : list char) : bool :=
  forallb (fun c => existsb (char_eqb c) l2) l1 &&
  forallb (fun c => existsb (char_eqb c) l1) l2.

(** No character that the entry [e] of a mapping gives is moved by the
    entry [e']. *)
Definition no_hit (e e' : N * N * N * N) : bool :=
  let '(lo, hi, step, to) := e in
  let '(lo', hi', step', _) := e' in
  (to + (hi - lo) <? lo')%N || (hi' <? to)%N ||
  ((step =? 2)%N && (step' =? 2)%N && N.odd (to + lo')) ||
  ((lo' =? hi')%N &&
   negb ((to <=? lo')%N && (lo' <=? to + (hi - lo))%N &&
         ((lo' - to) mod step =? 0)%N)) ||
  ((lo =? hi)%N && negb (in_range lo' hi' step' to)).

End Chars.

Import Chars.

(** ** The specification's words *)

Module Spec.

Import PdfProcessor.

(** A line that the primary pass takes for a header. *)
Definition is_header (line : str) : bool := truthy_opt (header_match line).

(** The pattern rule as the specification words it: the prefix is an
    integer, optionally with a dot and a sub-number, or a Roman-numeral
    token, optionally with a dot; white space follows the prefix; after
    the vocabulary token comes a colon or the end of the line. *)
Definition worded_pattern : regex :=
  Seq Bol
  (Seq (Opt (Seq (Alt (Seq (Plus isdigit) (Seq (Opt (Chr dot)) (Star isdigit)))
                      (Seq (Plus is_roman_i) (Opt (Chr dot))))
                 (Plus isspace)))
  (Seq vocabulary (Alt (Chr colon) Eol))).

Definition worded_rule (line : str) : bool :=
  truthy_opt (re_search worded_pattern line).

(** The section bodies of [d], in order, cut back into lines, are the
    lines of [text] that are not headers. *)
Definition reconstructs (text : str) (d : dict) : Prop :=
  flat_map split_nl (values d) = filter (fun l => negb (is_header l)) (split_nl text).

(** The runs of the primary pass: the lines are cut at the header
    lines; each run goes with the name of the section it belongs to,
    the one its header gave, and [cur] for the lines before any
    header. *)
Fixpoint runs (cur : str) (acc : list str) (lines : list str)
  : list (str * list str) :=
  match lines with
  | [] => [(cur, acc)]
  | l :: ls =>
      match PdfProcessor.header_name l with
      | Some t => (cur, acc) :: runs t [] ls
      | None => runs cur (acc ++ [l]) ls
      end
  end.

Definition nonempty_run (seg : str * list str) : bool := truthy (snd seg).

(** The entry a run gives: its lines joined and trimmed. *)
Definition entry (seg : str * list str) : str * str :=
  (fst seg, strip (join_nl (snd seg))).

Definition store_run (d : dict) (seg : str * list str) : dict :=
  if nonempty_run seg then set (fst (entry seg)) (snd (entry seg)) d else d.

Definition all (ok : char -> bool) (w : str) : Prop := forallb ok w = true.

Definition opt_dot (w : str) : Prop := w = [] \/ w = [dot].

(** The characters that stand for the character [x] of a token when
    case is ignored: a letter and its capital, and with them the
    dotted capital I (U+0130) and the dotless i (U+0131) for the
    letter i, the long s (U+017F) for the letter s, the Kelvin sign
    (U+212A) for the letter k; any other character only itself. *)
Definition variants (x : char) : list char :=
  if (x =? 105)%N then [105; 73; 304; 305]%N
  else if (x =? 115)%N then [115; 83; 383]%N
  else if (x =? 107)%N then [107; 75; 8490]%N
  else if between_incl 97 122 x then [x; (x - 32)%N]
  else [x].

(** The text [w] spells the token [tok], case ignored. *)
Definition spells (tok w : str) : Prop :=
  Forall2 (fun x c => In c (variants x)) tok w.

(** A token of the vocabulary as it may stand in a header line. *)
Definition is_token (w : str) : Prop :=
  exists tok, In tok common_sections /\ spells tok w.

(** The letters of a Roman-numeral prefix, case ignored: those of
    IVXivx, the dotted capital I and the dotless i. *)
Definition roman_letter (c : char) : bool :=
  existsb (char_eqb c) [73; 86; 88; 105; 118; 120; 304; 305]%N.

(** The prefixes that the pattern of the source allows; the digits are
    the decimal digits of any script. *)
Inductive ordinal_prefix : str -> Prop :=
| prefix_number d1 dt d2 w :
    d1 <> [] -> all isdigit d1 -> opt_dot dt -> all isdigit d2 ->
    all isspace w -> ordinal_prefix (d1 ++ dt ++ d2 ++ w)
| prefix_roman r dt w :
    r <> [] -> all roman_letter r -> opt_dot dt ->
    all isspace w -> ordinal_prefix (r ++ dt ++ w).

(** What may follow the token: nothing, or white space and a colon. *)
Definition token_end (rest : str) : Prop :=
  rest = [] \/ exists w tail, all isspace w /\ rest = w ++ colon :: tail.

(** A line made of an optional prefix, a vocabulary token in any case,
    and a token end. *)
Definition header_shape (line : str) : Prop :=
  exists p t rest,
    line = p ++ t ++ rest /\
    (p = [] \/ ordinal_prefix p) /\
    is_token t /\
    token_end rest.

(** The three characters that stand for a letter of a token and whose
    lower-case form is not that letter: U+0130, U+0131 and U+017F. *)
Definition odd_letters : list char := [304; 305; 383]%N.

(** A text without these characters. *)
Definition plain_letters (s : str) : Prop :=
  forall c, In c s -> ~ In c odd_letters.

(** A dictionary of per-section summaries as the specification wants
    it: no key among the excluded names in any case, no empty value. *)
Definition kept (summaries : dict) : Prop :=
  forall k v, get k summaries = Some v ->
              ~ In (lower k) Summarizer.excluded /\ v <> [].

(** A backend that also counts the requests made to it. *)
Definition counting {world : Type}
  (post : world -> str -> str -> str -> nat -> world * option str)
  (wn : world * nat) (endpoint model prompt : str) (max_tokens : nat)
  : (world * nat) * option str :=
  let (w', r) := post (fst wn) endpoint model prompt max_tokens in
  ((w', S (snd wn)), r).

(** The sections for which [generate_full_summary] asks the backend:
    the name is not excluded and the text is not empty. *)
Definition summarised (item : str * str) : bool :=
  negb (existsb (str_eqb (lower (fst item))) Summarizer.excluded) &&
  truthy (snd item).

(** A backend that never answers. *)
Definition failing {world : Type}
  (w : world) (endpoint model prompt : str) (max_tokens : nat)
  : world * option str := (w, None).

End Spec.

(** ** Sample documents *)

Module Samples.

(** Two all-caps headers, each before a blank line. *)
Definition two_caps : str :=
  join_nl [py "INTRODUCTION"; []; py "a"; py "VEHICLES"; []; py "b"].

(** The header of the abstract twice, the second with no line of its
    own before the next header. *)
Definition twice_then_header : str :=
  join_nl [py "abstract"; py "a"; py "abstract"; py "introduction"; py "b"].

(** The header of the abstract twice, each with a line. *)
Definition twice : str :=
  join_nl [py "abstract"; py "b"; py "abstract"; py "c"].

Definition abstract_b : str := join_nl [py "abstract"; py "b"].

Definition indented : str := py " a".

Definition only_header : str := py "abstract".

(** One line, a header for the primary pass and a candidate header for
    the fallback pass. *)
Definition caps_only : str := py "ABSTRACT".

(** The header of the abstract spelt with the long s, U+017F, and a
    line of text. *)
Definition long_s : str :=
  join_nl [[97; 98; 383; 116; 114; 97; 99; 116]%N; py "body"].

Definition plain : str := join_nl [py "Some text,"; py "and more of it."].

Definition numbered : str :=
  join_nl [py "preface"; py "2. Introduction"; py "body one"; py "";
           py "3. Methodology:"; py "body two"].

Definition header_pair : str :=
  join_nl [py "abstract"; py "introduction"; py "x"].







(** A document of two pages with text, and an empty one between. *)
Definition three_pages : PdfProcessor.PdfProcessor :=
  PdfProcessor.mkProcessor
    (PdfProcessor.mkReader
       [Some (join_nl [py "Abstract"; py "first"]); Some []; Some (py "second")]
       None)
    [] 0.

(** A document with a title as text and an author as ASCII bytes. *)
Definition titled : PdfProcessor.PdfProcessor :=
  PdfProcessor.mkProcessor
    (PdfProcessor.mkReader
       [Some (py "front page")]
       (Some [(py "/Title", PdfProcessor.VStr (py "A Study"));
              (py "/Author",
               PdfProcessor.VBytes [x41; x2e; x42]
                                   (bytes_repr [x41; x2e; x42]))]))
    [] 0.

(** A document with a title as ASCII bytes. *)
Definition bytes_titled : PdfProcessor.PdfProcessor :=
  PdfProcessor.mkProcessor
    (PdfProcessor.mkReader
       [] (Some [(py "/Title",
                  PdfProcessor.VBytes [x4f; x6b] (bytes_repr [x4f; x6b]))]))
    [] 0.

(** A document without information, its first page starting with a
    blank line. *)
Definition untitled : PdfProcessor.PdfProcessor :=
  PdfProcessor.mkProcessor
    (PdfProcessor.mkReader [Some (join_nl [py "  "; py " On Things "; py "x"])]
                           None)
    [] 0.

(** The store and the processor after a first call of
    [identify_sections] on the sample with two all-caps headers. *)
Definition called_once : PdfProcessor.store * PdfProcessor.PdfProcessor :=
  let '(h1, self1, _) :=
    PdfProcessor.identify_sections (fst (PdfProcessor.loaded two_caps))
                                   (snd (PdfProcessor.loaded two_caps)) in
  (h1, self1).

Definition summarizer : Summarizer.PaperSummarizer :=
  Summarizer.init (py "mistral") (py "http://localhost:11434").

Definition content : Summarizer.paper_content :=
  Summarizer.mkContent None
    (Some [(py "abstract", py "a"); (py "references", py "r");
           (py "methods", [])])
    (Some (py "a")).

(** A backend that answers every request with the text ok. *)
Definition echo (w : unit) (endpoint model prompt : str) (max_tokens : nat)
  : unit * option str := (w, Some (py "ok")).

End Samples.

(** * Properties *)

Import PdfProcessor Spec.

(** ** The store *)

Lemma length_assign (h : store) (r : ref) (d : dict) :
  length (assign h r d) = length h.
Proof.
  revert r; induction h as [|x h IH]; intros [|r]; simpl; auto.
Qed.

Lemma deref_assign (h : store) (r : ref) (d : dict) :
  r < length h -> deref (assign h r d) r = d.
Proof.
  unfold deref. revert r; induction h as [|x h IH]; intros [|r] Hr; simpl in *;
    try lia; auto.
  apply IH; lia.
Qed.

Lemma deref_alloc (h : store) (d : dict) : deref (h ++ [d]) (length h) = d.
Proof.
  unfold deref. rewrite app_nth2 by lia. now rewrite Nat.sub_diag.
Qed.

(** The value [identify_sections] returns, in terms of the two passes. *)
Lemma returned_eq (h : store) (self : PdfProcessor) :
  valid h self ->
  returned h self =
    let p := primary_pass (deref h (sections self)) (full_text self) in
    let fb := fallback_sections (full_text self) in
    if (length p <=? 2) && (length p <? length fb) then fb else p.
Proof.
  intros Hv. unfold returned, identify_sections.
  set (p := primary_pass _ _).
  rewrite (deref_assign _ _ Hv). cbv zeta.
  destruct (length p <=? 2) eqn:E2; simpl.
  - unfold try_alternative_section_detection, fallback_sections.
    destruct (potential_sections (split_nl (full_text self))) as [|c ps] eqn:Eps.
    + simpl. rewrite (deref_assign _ _ Hv). reflexivity.
    + cbn [truthy]. rewrite (deref_assign _ _ Hv).
      destruct (length p <? _) eqn:E3.
      * unfold alloc. cbn [sections]. apply deref_alloc.
      * apply (deref_assign _ _ Hv).
  - apply (deref_assign _ _ Hv).
Qed.

(** C3: on a fresh processor the result is the fallback's dictionary
    when the primary pass gives at most 2 entries and the fallback
    strictly more, and the primary pass's dictionary otherwise. *)
Theorem C3_fallback_replaces (h : store) (self : PdfProcessor) :
  fresh h self ->
  let primary := primary_pass [] (full_text self) in
  let fallback := fallback_sections (full_text self) in
  (length primary <= 2 /\ length primary < length fallback ->
   returned h self = fallback) /\
  (2 < length primary \/ ~ length primary < length fallback ->
   returned h self = primary).
Proof.
  intros [Hv He] primary fallback.
  rewrite (returned_eq Hv), He. cbv zeta. fold primary fallback.
  split.
  - intros [H1 H2].
    apply Nat.leb_le in H1. apply Nat.ltb_lt in H2. now rewrite H1, H2.
  - intros [H | H].
    + apply Nat.leb_gt in H. now rewrite H.
    + apply Nat.ltb_nlt in H. rewrite H. now rewrite andb_false_r.
Qed.

(** ** Strings and dictionaries *)

Lemma str_eqb_eq (a b : str) : str_eqb a b = true <-> a = b.
Proof.
  revert b; induction a as [|x a IH]; intros [|y b]; simpl; split;
    try congruence; try discriminate.
  - intros H. apply andb_true_iff in H as [H1 H2].
    apply N.eqb_eq in H1. apply IH in H2. congruence.
  - intros H. injection H as -> ->. apply andb_true_iff. split.
    + apply N.eqb_refl.
    + now apply IH.
Qed.

Lemma str_eqb_refl (a : str) : str_eqb a a = true.
Proof. now apply str_eqb_eq. Qed.

Lemma str_eqb_neq (a b : str) : str_eqb a b = false <-> a <> b.
Proof.
  split.
  - intros H E. apply str_eqb_eq in E. congruence.
  - intros H. destruct (str_eqb a b) eqn:E; auto.
    apply str_eqb_eq in E. contradiction.
Qed.

Lemma get_set_same (k v : str) (d : dict) : get k (set k v d) = Some v.
Proof.
  induction d as [|[k' v'] d IH]; simpl.
  - now rewrite str_eqb_refl.
  - destruct (str_eqb k k') eqn:E; simpl.
    + now rewrite str_eqb_refl.
    + now rewrite E.
Qed.

Lemma get_set_other (k k' v : str) (d : dict) :
  k <> k' -> get k (set k' v d) = get k d.
Proof.
  intros Hn. induction d as [|[k2 v2] d IH]; simpl.
  - apply str_eqb_neq in Hn. now rewrite Hn.
  - destruct (str_eqb k' k2) eqn:E; simpl.
    + apply str_eqb_eq in E. subst k2.
      apply str_eqb_neq in Hn. now rewrite Hn.
    + now rewrite IH.
Qed.

Lemma set_not_nil (k v : str) (d : dict) : set k v d <> [].
Proof.
  destruct d as [|[k' v'] d]; simpl; try discriminate.
  destruct (str_eqb k k'); discriminate.
Qed.

Lemma length_set_ge (k v : str) (d : dict) : length d <= length (set k v d).
Proof.
  induction d as [|[k' v'] d IH]; simpl; auto.
  destruct (str_eqb k k'); simpl; lia.
Qed.

Lemma mem_set (k k' v : str) (d : dict) :
  mem k d = true -> mem k (set k' v d) = true.
Proof.
  unfold mem. destruct (str_eqb k k') eqn:E.
  - apply str_eqb_eq in E. subst. now rewrite get_set_same.
  - apply str_eqb_neq in E. now rewrite get_set_other.
Qed.

(** ** The primary pass *)

Lemma mem_loop_body (k : str) (st : loop_state) (line : str) :
  mem k (secs st) = true -> mem k (secs (loop_body st line)) = true.
Proof.
  intros H. unfold loop_body.
  destruct (header_match line); simpl; auto.
  destruct (truthy (current_content st)); simpl; auto using mem_set.
Qed.

Lemma mem_fold_loop (k : str) (lines : list str) (st : loop_state) :
  mem k (secs st) = true ->
  mem k (secs (fold_left loop_body lines st)) = true.
Proof.
  revert st; induction lines as [|l lines IH]; intros st H; simpl; auto.
  apply IH. now apply mem_loop_body.
Qed.

Lemma mem_primary_pass (k : str) (d : dict) (text : str) :
  mem k d = true -> mem k (primary_pass d text) = true.
Proof.
  intros H. unfold primary_pass, primary_lines, flush.
  pose proof (mem_fold_loop k (split_nl text) (mkLoop d (py "unknown") []) H) as H'.
  destruct (truthy _); auto using mem_set.
Qed.

(** ** The vocabulary and the pattern rule on sample lines *)

Ltac in_list :=
  vm_compute; repeat (first [left; reflexivity | right]).

Ltac not_in_list :=
  let H := fresh "H" in
  intros H; vm_compute in H;
  repeat (destruct H as [H | H]; [discriminate H|]); exact H.

(** C4: the vocabulary holds the merged token and neither of its two
    halves; the pattern rule rejects the lines Results and
    Experiments: and accepts the line experimentsresults. *)
Theorem C4_merged_token :
  In (py "experimentsresults") common_sections /\
  ~ In (py "experiments") common_sections /\
  ~ In (py "results") common_sections /\
  pattern_rule (py "Results") = None /\
  pattern_rule (py "Experiments:") = None /\
  option_map (fun m => lower (group1 m)) (pattern_rule (py "experimentsresults"))
    = Some (py "experimentsresults").
Proof.
  repeat split; try (vm_compute; reflexivity).
  - in_list.
  - not_in_list.
  - not_in_list.
Qed.

(** C6, counterexample: the line 2.Introduction holds no white space
    at all, the line abstract : has white space before its colon, and
    the pattern rule takes both for headers; the rule as the
    specification words it takes neither. *)
Lemma C6_counterexample :
  truthy_opt (pattern_rule (py "2.Introduction")) = true /\
  existsb isspace (py "2.Introduction") = false /\
  worded_rule (py "2.Introduction") = false /\
  truthy_opt (pattern_rule (py "abstract :")) = true /\
  worded_rule (py "abstract :") = false.
Proof. repeat split; vm_compute; reflexivity. Qed.

(** ** The two passes on sample documents *)

(** C5: the fallback pass names the section of the all-caps header
    INTRODUCTION ntroduction, and that of VEHICLES ehicles: the
    clean-up of line 100 removes the leading letters i, v and x of an
    ordinary word. *)
Theorem C5_clean_header_eats_letters :
  potential_sections (split_nl Samples.two_caps)
    = [(0, py "INTRODUCTION"); (3, py "VEHICLES")] /\
  clean_header (py "INTRODUCTION") = py "ntroduction" /\
  clean_header (py "INTRODUCTION") <> lower (py "INTRODUCTION") /\
  returned (fst (loaded Samples.two_caps)) (snd (loaded Samples.two_caps))
    = [(py "ntroduction", py "a"); (py "ehicles", py "b")].
Proof.
  repeat split; try (vm_compute; reflexivity).
  intros H; vm_compute in H; discriminate H.
Qed.

(** C1, counterexample: with the header of the abstract twice, the
    line b is in no body of the result; and the body of an indented
    line is not that line. *)
Lemma C1_counterexample :
  ~ reconstructs Samples.twice
      (returned (fst (loaded Samples.twice)) (snd (loaded Samples.twice))) /\
  ~ reconstructs Samples.indented
      (returned (fst (loaded Samples.indented)) (snd (loaded Samples.indented))).
Proof.
  split; intros H; vm_compute in H; discriminate H.
Qed.

(** C2, counterexample: the text abstract is not empty, and the
    section map returned for it has no key. *)
Lemma C2_counterexample :
  Samples.only_header <> [] /\
  fresh (fst (loaded Samples.only_header)) (snd (loaded Samples.only_header)) /\
  returned (fst (loaded Samples.only_header)) (snd (loaded Samples.only_header))
    = [].
Proof.
  split; [discriminate|]. split; [|vm_compute; reflexivity].
  split; [vm_compute; lia | vm_compute; reflexivity].
Qed.

(** C10, counterexample: lines 0 and 2 are headers of the abstract;
    nothing is accumulated after the later one, and the map holds the
    body of the earlier one under the token. *)
Lemma C10_counterexample :
  map header_name (split_nl Samples.twice_then_header)
    = [Some (py "abstract"); None; Some (py "abstract");
       Some (py "introduction"); None] /\
  primary_pass [] Samples.twice_then_header
    = [(py "abstract", py "a"); (py "introduction", py "b")].
Proof. split; vm_compute; reflexivity. Qed.

(** C9: the keys of the stored section map persist through the primary
    pass; on the sample the first call returns the fallback's
    dictionary, the second call returns the same object, now with the
    primary pass's entry added and more than 2 entries, so that the
    fallback is not run: the two results differ. *)
Theorem C9_not_idempotent :
  (forall d text k, mem k d = true -> mem k (primary_pass d text) = true) /\
  exists text,
    let (h0, self0) := loaded text in
    let '(h1, self1, r1) := identify_sections h0 self0 in
    let '(h2, self2, r2) := identify_sections h1 self1 in
    fresh h0 self0 /\
    full_text self0 = text /\ full_text self1 = text /\
    deref h1 r1 = fallback_sections text /\
    deref h2 r2 = primary_pass (fallback_sections text) text /\
    2 < length (deref h2 r2) /\
    deref h1 r1 <> deref h2 r2 /\
    mem (py "introduction") (deref h1 r1) = false /\
    mem (py "introduction") (deref h2 r2) = true /\
    r1 = r2.
Proof.
  split.
  - intros d text k. apply mem_primary_pass.
  - exists Samples.two_caps.
    vm_compute.
    repeat split; try reflexivity; try lia.
    intros H; discriminate H.
Qed.

(** ** The primary pass as a sequence of runs *)

Lemma header_name_none (l : str) : header_name l = None <-> is_header l = false.
Proof.
  unfold header_name, is_header. destruct (header_match l); simpl; split;
    congruence.
Qed.

Lemma header_name_some (l t : str) : header_name l = Some t -> is_header l = true.
Proof.
  unfold header_name, is_header. destruct (header_match l); simpl; congruence.
Qed.

(** The loop stores the runs one after the other. *)
Lemma loop_runs (lines : list str) (d : dict) (cur : str) (acc : list str) :
  flush (fold_left loop_body lines (mkLoop d cur acc))
  = fold_left store_run (runs cur acc lines) d.
Proof.
  revert d cur acc; induction lines as [|l lines IH]; intros d cur acc.
  - reflexivity.
  - cbn [fold_left runs]. unfold loop_body at 2, header_name.
    destruct (header_match l) as [m|]; cbn [option_map].
    + cbn [current_content current_section secs fold_left].
      unfold store_run at 2, nonempty_run, entry. cbn [fst snd].
      destruct acc as [|a acc]; cbn [truthy current_content secs]; apply IH.
    + cbn [current_content current_section secs]. apply IH.
Qed.

Lemma primary_lines_runs (d : dict) (lines : list str) :
  primary_lines d lines = fold_left store_run (runs (py "unknown") [] lines) d.
Proof. apply loop_runs. Qed.

(** The runs hold the lines that are not headers, in order. *)
Lemma concat_runs (lines : list str) (cur : str) (acc : list str) :
  concat (map snd (runs cur acc lines))
  = acc ++ filter (fun l => negb (is_header l)) lines.
Proof.
  revert cur acc; induction lines as [|l lines IH]; intros cur acc; simpl.
  - now rewrite app_nil_r.
  - destruct (header_name l) as [t|] eqn:E.
    + rewrite (header_name_some _ E). simpl. now rewrite IH.
    + apply header_name_none in E. rewrite E. simpl.
      rewrite IH, <- app_assoc. reflexivity.
Qed.

(** A run is named by the section open at the start or by a header. *)
Lemma runs_names (lines : list str) (cur : str) (acc : list str)
                 (seg : str * list str) :
  In seg (runs cur acc lines) ->
  fst seg = cur \/ exists l, In l lines /\ header_name l = Some (fst seg).
Proof.
  revert cur acc; induction lines as [|l lines IH]; intros cur acc; simpl.
  - intros [<- | []]. now left.
  - destruct (header_name l) as [t|] eqn:E.
    + intros [<- | H]; [now left|].
      apply IH in H as [H | [l' [H1 H2]]].
      * right. exists l. split; [now left | congruence].
      * right. exists l'. split; [now right | assumption].
    + intros H. apply IH in H as [H | [l' [H1 H2]]]; [now left|].
      right. exists l'. split; [now right | assumption].
Qed.

(** Lines that are not headers extend the open run. *)
Lemma runs_body (b lines : list str) (cur : str) (acc : list str) :
  (forall l, In l b -> header_name l = None) ->
  runs cur acc (b ++ lines) = runs cur (acc ++ b) lines.
Proof.
  revert acc; induction b as [|x b IH]; intros acc Hb; simpl.
  - now rewrite app_nil_r.
  - rewrite (Hb x) by now left.
    rewrite IH by (intros; apply Hb; now right).
    now rewrite <- app_assoc.
Qed.

(** The runs of a prefix of the text: all but the last are closed. *)
Lemma runs_app (l1 : list str) (cur : str) (acc : list str) :
  exists closed cur' acc',
    forall l2, runs cur acc (l1 ++ l2) = closed ++ runs cur' acc' l2.
Proof.
  revert cur acc; induction l1 as [|l l1 IH]; intros cur acc.
  - exists [], cur, acc. reflexivity.
  - simpl. destruct (header_name l) as [t|].
    + destruct (IH t []) as (closed & cur' & acc' & H).
      exists ((cur, acc) :: closed), cur', acc'. intros l2. now rewrite H.
    + destruct (IH cur (acc ++ [l])) as (closed & cur' & acc' & H).
      exists closed, cur', acc'. exact H.
Qed.

Lemma store_run_empty (d : dict) (t : str) : store_run d (t, []) = d.
Proof. reflexivity. Qed.

Lemma store_run_nonempty (d : dict) (t : str) (b : list str) :
  b <> [] -> store_run d (t, b) = set t (strip (join_nl b)) d.
Proof. destruct b; [congruence | reflexivity]. Qed.

(** Runs of other sections, and empty runs, leave a key as it is. *)
Lemma get_fold_store_other (t : str) (segs : list (str * list str)) (d : dict) :
  (forall seg, In seg segs -> fst seg <> t \/ snd seg = []) ->
  get t (fold_left store_run segs d) = get t d.
Proof.
  revert d; induction segs as [|[n b] segs IH]; intros d H; simpl; auto.
  rewrite IH by (intros; apply H; now right).
  destruct (H (n, b)) as [Hn | Hb]; [now left | |]; simpl in *.
  - unfold store_run, nonempty_run, entry. simpl.
    destruct (truthy b); auto. apply get_set_other. congruence.
  - subst b. reflexivity.
Qed.

Lemma length_fold_store (segs : list (str * list str)) (d : dict) :
  length d <= length (fold_left store_run segs d).
Proof.
  revert d; induction segs as [|seg segs IH]; intros d; simpl; auto.
  etransitivity; [|apply IH].
  unfold store_run. destruct (nonempty_run seg); auto using length_set_ge.
Qed.

Lemma fold_store_not_nil (segs : list (str * list str)) (d : dict) :
  (exists seg, In seg segs /\ snd seg <> []) ->
  fold_left store_run segs d <> [].
Proof.
  revert d; induction segs as [|seg segs IH]; intros d [s [Hin Hs]].
  - destruct Hin.
  - simpl. destruct Hin as [-> | Hin].
    + destruct s as [n b]. simpl in Hs. rewrite (store_run_nonempty _ _ Hs).
      pose proof (length_fold_store segs (set n (strip (join_nl b)) d)) as Hl.
      pose proof (@set_not_nil n (strip (join_nl b)) d) as Hn.
      intros E. rewrite E in Hl.
      destruct (set n (strip (join_nl b)) d); [congruence | simpl in Hl; lia].
    + apply IH. now exists s.
Qed.

Lemma set_fresh_key (k v : str) (d : dict) :
  ~ In k (keys d) -> set k v d = d ++ [(k, v)].
Proof.
  induction d as [|[k' v'] d IH]; simpl; intros H; auto.
  destruct (str_eqb k k') eqn:E.
  - apply str_eqb_eq in E. subst. tauto.
  - rewrite IH by tauto. reflexivity.
Qed.

(** With pairwise distinct names every non-empty run keeps its entry. *)
Lemma fold_store_distinct (segs : list (str * list str)) (d : dict) :
  NoDup (keys d ++ map fst (filter nonempty_run segs)) ->
  fold_left store_run segs d = d ++ map entry (filter nonempty_run segs).
Proof.
  revert d; induction segs as [|seg segs IH]; intros d H; simpl.
  - now rewrite app_nil_r.
  - simpl in H. unfold store_run at 2.
    destruct (nonempty_run seg) eqn:E.
    + simpl in H. rewrite set_fresh_key.
      * rewrite IH.
        -- rewrite <- app_assoc. reflexivity.
        -- unfold keys in *. rewrite map_app, <- app_assoc. exact H.
      * apply NoDup_remove_2 in H. intros Hin. apply H.
        apply in_or_app. now left.
    + now apply IH.
Qed.

Lemma split_nl_not_nil (s : str) : split_nl s <> [].
Proof.
  destruct s as [|c s]; simpl; [discriminate|].
  destruct (char_eqb c nl); [discriminate|].
  destruct (split_nl s); discriminate.
Qed.

(** Joining the lines of a text gives the text back. *)
Lemma join_split_nl (s : str) : join_nl (split_nl s) = s.
Proof.
  induction s as [|c s IH]; [reflexivity|].
  cbn [split_nl]. destruct (char_eqb c nl) eqn:E.
  - apply N.eqb_eq in E. subst c.
    pose proof (split_nl_not_nil s) as Hn.
    destruct (split_nl s) as [|l ls]; [congruence|].
    cbn [join_nl app]. cbn [join_nl] in IH. now rewrite IH.
  - pose proof (split_nl_not_nil s) as Hn.
    destruct (split_nl s) as [|l ls]; [congruence|].
    destruct ls as [|l' ls]; simpl in *; now rewrite IH.
Qed.

Lemma runs_no_header (lines : list str) (cur : str) (acc : list str) :
  (forall l, In l lines -> is_header l = false) ->
  runs cur acc lines = [(cur, acc ++ lines)].
Proof.
  intros H. rewrite <- (app_nil_r lines) at 1.
  rewrite runs_body; [reflexivity|].
  intros l Hl. apply header_name_none. now apply H.
Qed.

(** ** The result of [identify_sections] on a fresh processor *)

Lemma returned_fresh (h : store) (self : PdfProcessor) :
  fresh h self ->
  returned h self = primary_pass [] (full_text self) \/
  (returned h self = fallback_sections (full_text self) /\
   length (primary_pass [] (full_text self))
     < length (fallback_sections (full_text self))).
Proof.
  intros [Hv He]. rewrite (returned_eq Hv), He. cbv zeta.
  destruct (_ <=? 2); simpl; auto.
  destruct (_ <? _) eqn:E; auto.
  right. split; auto. now apply Nat.ltb_lt.
Qed.

Lemma returned_primary_kept (h : store) (self : PdfProcessor) :
  fresh h self ->
  2 < length (primary_pass [] (full_text self)) \/
  ~ length (primary_pass [] (full_text self))
      < length (fallback_sections (full_text self)) ->
  returned h self = primary_pass [] (full_text self).
Proof.
  intros [Hv He] H. rewrite (returned_eq Hv), He. cbv zeta.
  destruct H as [H | H].
  - apply Nat.leb_gt in H. now rewrite H.
  - apply Nat.ltb_nlt in H. rewrite H. now rewrite andb_false_r.
Qed.

Lemma primary_pass_not_nil (text : str) :
  (exists l, In l (split_nl text) /\ is_header l = false) ->
  primary_pass [] text <> [].
Proof.
  intros [l [Hin Hl]]. unfold primary_pass. rewrite primary_lines_runs.
  apply fold_store_not_nil.
  assert (Hc : In l (concat (map snd (runs (py "unknown") [] (split_nl text))))).
  { rewrite concat_runs. simpl. apply filter_In. split; auto. now rewrite Hl. }
  apply in_concat in Hc as [b [Hb Hlb]].
  apply in_map_iff in Hb as [seg [<- Hseg]].
  exists seg. split; auto. intros E. rewrite E in Hlb. destruct Hlb.
Qed.

(** When every line is a header the primary pass stores nothing. *)
Lemma primary_lines_all_headers (d : dict) (lines : list str) :
  (forall l, In l lines -> is_header l = true) -> primary_lines d lines = d.
Proof.
  intros H. rewrite primary_lines_runs. generalize (py "unknown") as cur.
  induction lines as [|l lines IH]; intros cur; [reflexivity|].
  cbn [runs]. destruct (header_name l) as [t|] eqn:E.
  - cbn [fold_left]. rewrite store_run_empty. apply IH.
    intros l' Hl'. apply H. now right.
  - apply header_name_none in E. rewrite H in E by now left. discriminate.
Qed.

Lemma length_build_sections_ge (lines : list str) (ps : list (nat * str))
                               (d : dict) :
  length d <= length (build_sections lines ps d).
Proof.
  revert d; induction ps as [|[i header] ps IH]; intros d; simpl; auto.
  etransitivity; [|apply IH]. apply length_set_ge.
Qed.

(** Candidate headers give the fallback pass at least one section. *)
Lemma build_sections_not_nil (lines : list str) (ps : list (nat * str)) :
  ps <> [] -> build_sections lines ps [] <> [].
Proof.
  destruct ps as [|[i header] ps]; [congruence|]. intros _. simpl.
  match goal with |- build_sections _ _ ?d <> [] =>
    pose proof (length_build_sections_ge lines ps d) as Hl;
    assert (Hd : d <> []) by discriminate;
    destruct d; [congruence|] end.
  intros E. rewrite E in Hl. simpl in Hl. lia.
Qed.

(** C2, amended: on a fresh processor the section map returned has a
    key exactly when some line of the text is not a header line for the
    primary pass or some line is a candidate header for the fallback
    pass; when no line is a header for the primary pass and none a
    candidate header for the fallback pass, the map is the one key
    unknown with the trimmed text. *)
Theorem C2_at_least_unknown (h : store) (self : PdfProcessor) :
  fresh h self ->
  let lines := split_nl (full_text self) in
  (returned h self <> [] <->
   (exists l, In l lines /\ is_header l = false) \/
   potential_sections lines <> []) /\
  ((forall l, In l lines -> is_header l = false) ->
   potential_sections lines = [] ->
   returned h self = [(py "unknown", strip (full_text self))]).
Proof.
  intros Hf lines. split; [split|].
  - intros Hr.
    destruct (existsb (fun l => negb (is_header l)) lines) eqn:Ex.
    + left. apply existsb_exists in Ex as (l & Hin & Hl).
      exists l. split; auto. now apply negb_true_iff.
    + right. intros Hps. apply Hr.
      assert (Hp : primary_pass [] (full_text self) = []).
      { apply primary_lines_all_headers. intros l Hl.
        destruct (is_header l) eqn:E; auto.
        assert (X : existsb (fun l => negb (is_header l)) lines = true).
        { apply existsb_exists. exists l. split; auto. now rewrite E. }
        fold lines in Hl. congruence. }
      destruct (returned_fresh Hf) as [-> | [-> _]]; auto.
      unfold fallback_sections. fold lines. now rewrite Hps.
  - intros Hc.
    assert (Hfb : potential_sections lines <> [] ->
                  fallback_sections (full_text self) <> []).
    { intros Hps. unfold fallback_sections. fold lines.
      now apply build_sections_not_nil. }
    destruct Hf as [Hv He]. rewrite (returned_eq Hv), He. cbv zeta.
    destruct (primary_pass [] (full_text self)) as [|e p] eqn:Ep.
    + destruct Hc as [Hc | Hc].
      * exfalso. now apply (primary_pass_not_nil (full_text self)).
      * specialize (Hfb Hc).
        destruct (fallback_sections (full_text self)); [congruence|].
        simpl. discriminate.
    + destruct (_ && _) eqn:Et; [|discriminate].
      apply andb_true_iff in Et as [_ Et]. apply Nat.ltb_lt in Et.
      intros E. rewrite E in Et. simpl in Et. lia.
  - intros Hno Hps.
    assert (Hp : primary_pass [] (full_text self)
                 = [(py "unknown", strip (full_text self))]).
    { unfold primary_pass. rewrite primary_lines_runs. fold lines.
      rewrite (@runs_no_header lines (py "unknown") [] Hno). simpl.
      rewrite store_run_nonempty by apply split_nl_not_nil.
      unfold lines. now rewrite join_split_nl. }
    destruct (returned_fresh Hf) as [E | [E Hlt]]; [congruence|].
    unfold fallback_sections in Hlt. fold lines in Hlt.
    rewrite Hps in Hlt. simpl in Hlt. lia.
Qed.

(** C1, amended: the primary pass cuts the lines at the header lines
    into runs; the runs, in order, hold exactly the lines that are not
    headers; the pass stores each non-empty run, joined and trimmed,
    under the name of its section, in order; when these names are
    pairwise distinct and the primary result is the one returned, the
    returned map has one entry for each non-empty run, in order. *)
Theorem C1_runs_partition (h : store) (self : PdfProcessor) :
  fresh h self ->
  let text := full_text self in
  let segs := runs (py "unknown") [] (split_nl text) in
  concat (map snd segs) = filter (fun l => negb (is_header l)) (split_nl text) /\
  primary_pass [] text = fold_left store_run segs [] /\
  (NoDup (map fst (filter nonempty_run segs)) ->
   2 < length (primary_pass [] text) \/
   ~ length (primary_pass [] text) < length (fallback_sections text) ->
   returned h self = map entry (filter nonempty_run segs)).
Proof.
  intros Hf text segs. split; [|split].
  - unfold segs. now rewrite concat_runs.
  - apply primary_lines_runs.
  - intros Hnd Hkept.
    rewrite (returned_primary_kept Hf Hkept). fold text.
    unfold primary_pass. rewrite primary_lines_runs. fold segs.
    now rewrite fold_store_distinct.
Qed.

(** ** Repeated and empty sections *)

Lemma get_primary_last_run (d : dict) (l1 b2 post : list str) (h2 t : str) :
  header_name h2 = Some t ->
  (forall l, In l b2 -> header_name l = None) -> b2 <> [] ->
  (post = [] \/ exists h3 post', post = h3 :: post' /\ header_name h3 <> None) ->
  (forall l, In l post -> header_name l <> Some t) ->
  get t (primary_lines d (l1 ++ h2 :: b2 ++ post)) = Some (strip (join_nl b2)).
Proof.
  intros H2 Hb2 Hne Hpost Hother.
  rewrite primary_lines_runs.
  destruct (runs_app l1 (py "unknown") []) as (closed & cur' & acc' & ->).
  cbn [runs]. rewrite H2. rewrite runs_body by assumption. cbn [app].
  rewrite fold_left_app. cbn [fold_left].
  set (d' := store_run _ (cur', acc')).
  destruct Hpost as [-> | (h3 & post' & -> & H3)].
  - cbn [runs fold_left]. rewrite store_run_nonempty by assumption.
    apply get_set_same.
  - cbn [runs]. destruct (header_name h3) as [t3|] eqn:E3; [|congruence].
    cbn [fold_left]. rewrite store_run_nonempty by assumption.
    rewrite get_fold_store_other; [apply get_set_same|].
    intros seg Hseg. left. intros Ht.
    apply runs_names in Hseg as [Hs | [l [Hl Hh]]].
    + apply (Hother h3); [now left | congruence].
    + apply (Hother l); [now right | congruence].
Qed.

(** A header that directly follows a header: the first of the two
    stores nothing. *)
Lemma primary_header_pair (d : dict) (pre post : list str) (h1 h2 t : str) :
  header_name h1 = Some t -> header_name h2 <> None ->
  primary_lines d (pre ++ h1 :: h2 :: post) = primary_lines d (pre ++ h2 :: post).
Proof.
  intros H1 H2. rewrite !primary_lines_runs.
  destruct (runs_app pre (py "unknown") []) as (closed & cur' & acc' & E).
  rewrite !E. cbn [runs]. rewrite H1.
  destruct (header_name h2) as [t2|]; [|congruence].
  rewrite !fold_left_app. cbn [fold_left]. now rewrite store_run_empty.
Qed.

(** ** Characters: the tables *)

Lemma in_range_spec (lo hi step c : N) :
  in_range lo hi step c = true <->
  (lo <= c <= hi)%N /\ ((c - lo) mod step = 0)%N.
Proof.
  unfold in_range, between_incl.
  rewrite !andb_true_iff, !N.leb_le, N.eqb_eq. tauto.
Qed.

Lemma map_table_some (t : list (N * N * N * N)) (c l : char) :
  map_table t c = Some l ->
  exists lo hi step to,
    In (lo, hi, step, to) t /\ in_range lo hi step c = true /\
    l = (to + (c - lo))%N.
Proof.
  induction t as [|[[[lo hi] step] to] t IH]; simpl; [discriminate|].
  destruct (in_range lo hi step c) eqn:E.
  - intros H. injection H as <-. exists lo, hi, step, to. auto.
  - intros H. apply IH in H as (lo' & hi' & step' & to' & Hin & H).
    exists lo', hi', step', to'. auto.
Qed.

Lemma map_table_preimages (t : list (N * N * N * N)) (c l : char) :
  map_table t c = Some l -> In c (preimages t l).
Proof.
  intros H. apply map_table_some in H as (lo & hi & step & to & Hin & Hr & ->).
  apply in_range_spec in Hr as [Hr _].
  unfold preimages. apply in_flat_map. exists (lo, hi, step, to).
  split; [exact Hin|].
  assert (E : ((to <=? to + (c - lo)) && (to + (c - lo) <=? to + (hi - lo)))%N
              = true).
  { apply andb_true_iff. rewrite !N.leb_le. lia. }
  rewrite E. left. lia.
Qed.

Lemma tolower_sources_spec (c : char) : In c (tolower_sources (tolower c)).
Proof.
  unfold tolower_sources, tolower.
  destruct (map_table tolower_table c) as [l|] eqn:E.
  - right. now apply map_table_preimages.
  - now left.
Qed.

Lemma no_hit_sound (lo hi step to lo' hi' step' to' : N) (c : char) :
  no_hit (lo, hi, step, to) (lo', hi', step', to') = true ->
  in_range lo hi step c = true ->
  in_range lo' hi' step' (to + (c - lo)) = false.
Proof.
  intros Hn Hc. apply in_range_spec in Hc as [Hc Hm].
  destruct (in_range lo' hi' step' (to + (c - lo))) eqn:E; [|reflexivity].
  exfalso. apply in_range_spec in E as [El Em].
  unfold no_hit in Hn. rewrite !orb_true_iff in Hn.
  destruct Hn as [[[[Hn | Hn] | Hn] | Hn] | Hn].
  - apply N.ltb_lt in Hn. lia.
  - apply N.ltb_lt in Hn. lia.
  - rewrite !andb_true_iff, !N.eqb_eq in Hn. destruct Hn as [[-> ->] Ho].
    apply N.odd_spec in Ho as [m Ho].
    pose proof (N.div_mod' (c - lo) 2) as H1.
    pose proof (N.div_mod' (to + (c - lo) - lo') 2) as H2.
    rewrite Hm in H1. rewrite Em in H2. lia.
  - rewrite andb_true_iff, N.eqb_eq, negb_true_iff in Hn.
    destruct Hn as [Heq Hn].
    assert (El' : (to + (c - lo))%N = lo') by lia.
    assert (Ht : ((to <=? lo') && (lo' <=? to + (hi - lo))
                  && ((lo' - to) mod step =? 0))%N = true).
    { rewrite !andb_true_iff, !N.leb_le, N.eqb_eq. repeat split; try lia.
      replace (lo' - to)%N with (c - lo)%N by lia. exact Hm. }
    congruence.
  - rewrite andb_true_iff, N.eqb_eq, negb_true_iff in Hn.
    destruct Hn as [Heq Hn].
    replace (to + (c - lo))%N with to in * by lia.
    assert (Ht : in_range lo' hi' step' to = true)
      by (apply in_range_spec; auto).
    congruence.
Qed.

Lemma tolower_table_no_hit :
  forallb (fun e => forallb (no_hit e) tolower_table) tolower_table = true.
Proof. vm_compute. reflexivity. Qed.

(** A lower-case form is not moved by the lower-case mapping. *)
Lemma tolower_stable (c l : char) :
  map_table tolower_table c = Some l -> stable l = true.
Proof.
  intros H. unfold stable.
  destruct (map_table tolower_table l) as [l'|] eqn:E; [|reflexivity].
  exfalso.
  apply map_table_some in H as (lo & hi & step & to & Hin & Hr & ->).
  apply map_table_some in E as (lo' & hi' & step' & to' & Hin' & Hr' & _).
  pose proof tolower_table_no_hit as Hc.
  rewrite forallb_forall in Hc. specialize (Hc _ Hin).
  rewrite forallb_forall in Hc. specialize (Hc _ Hin').
  rewrite (@no_hit_sound _ _ _ _ _ _ _ _ _ Hc Hr) in Hr'. discriminate.
Qed.

Lemma stable_tolower (c : char) : stable (tolower c) = true.
Proof.
  unfold tolower. destruct (map_table tolower_table c) as [l|] eqn:E.
  - now apply tolower_stable with c.
  - unfold stable. now rewrite E.
Qed.

Lemma stable_fixed (c : char) :
  stable c = true ->
  tolower c = c /\ c <> capital_sigma /\ c <> 304%N.
Proof.
  unfold stable, tolower. intros H.
  destruct (map_table tolower_table c) eqn:E; [discriminate|].
  repeat split; intros ->; vm_compute in E; discriminate.
Qed.

(** ** Lower case *)

Lemma lower_at_stable (b : str) (c : char) (a : str) :
  Forall (fun x => stable x = true) (lower_at b c a).
Proof.
  unfold lower_at.
  destruct (c =? capital_sigma)%N.
  - destruct (final_sigma b a); repeat constructor.
  - destruct (c =? 304)%N; repeat constructor. apply stable_tolower.
Qed.

Lemma lower_from_stable (b a : str) :
  Forall (fun x => stable x = true) (lower_from b a).
Proof.
  revert b; induction a as [|c a IH]; intros b; simpl; [constructor|].
  apply Forall_app. split; [apply lower_at_stable | apply IH].
Qed.

Lemma lower_at_fixed (b : str) (c : char) (a : str) :
  stable c = true -> lower_at b c a = [c].
Proof.
  intros H. apply stable_fixed in H as (Ht & Hs & Hi).
  unfold lower_at. apply N.eqb_neq in Hs. apply N.eqb_neq in Hi.
  now rewrite Hs, Hi, Ht.
Qed.

Lemma lower_from_fixed (b a : str) :
  Forall (fun x => stable x = true) a -> lower_from b a = a.
Proof.
  revert b; induction a as [|c a IH]; intros b H; [reflexivity|].
  inversion H; subst. simpl. rewrite lower_at_fixed by assumption.
  simpl. now rewrite IH.
Qed.

(** A text in which the lower-case mapping moves no character is its
    own lower-case form. *)
Lemma lower_fixed (s : str) :
  Forall (fun x => stable x = true) s -> lower s = s.
Proof. apply lower_from_fixed. Qed.

Lemma lower_stable (s : str) : Forall (fun x => stable x = true) (lower s).
Proof. apply lower_from_stable. Qed.

Lemma lower_idem (s : str) : lower (lower s) = lower s.
Proof. apply lower_fixed, lower_stable. Qed.

Lemma length_lower_at (b : str) (c : char) (a : str) :
  1 <= length (lower_at b c a) <= 2 /\
  (c <> 304%N -> length (lower_at b c a) = 1).
Proof.
  unfold lower_at. destruct (c =? capital_sigma)%N; [simpl; split; auto; lia|].
  destruct (c =? 304)%N eqn:E; simpl; split; auto; try lia.
  apply N.eqb_eq in E. congruence.
Qed.

(** The lower-case form has at most twice the length of the text, and
    the same length when the text has no dotted capital I. *)
Lemma length_lower_from (b a : str) :
  length (lower_from b a) <= 2 * length a /\
  (~ In 304%N a -> length (lower_from b a) = length a).
Proof.
  revert b; induction a as [|c a IH]; intros b; simpl; [split; auto|].
  rewrite length_app. destruct (IH (c :: b)) as [H1 H2].
  destruct (length_lower_at b c a) as [H3 H4]. split; [lia|].
  intros Hn. rewrite H2, H4; auto.
Qed.

(** Apart from the capital sigma, the lower-case form of a character
    does not depend on the text around it. *)
Lemma lower_at_alone (b : str) (c : char) (a : str) :
  c <> capital_sigma -> lower_at b c a = lower_at [] c [].
Proof.
  intros H. unfold lower_at. apply N.eqb_neq in H. now rewrite H.
Qed.

(** ** IGNORECASE *)

Lemma existsb_char_eqb (c : char) (l : list char) :
  existsb (char_eqb c) l = true <-> In c l.
Proof.
  rewrite existsb_exists. unfold char_eqb. split.
  - intros (x & Hin & E). apply N.eqb_eq in E. now subst.
  - intros H. exists c. split; auto. apply N.eqb_refl.
Qed.

Lemma in_class_i_chars (chars : str) (c : char) :
  in_class_i chars c = true <-> In c (class_chars chars).
Proof.
  unfold class_chars. rewrite filter_In. split; [|tauto].
  intros H. split; [|exact H].
  unfold in_class_i in H. apply existsb_exists in H as (x & Hx & H).
  apply existsb_char_eqb in H.
  apply in_flat_map. exists x. split; [exact Hx|].
  apply in_flat_map. exists (tolower c). split; [exact H|].
  apply tolower_sources_spec.
Qed.

Lemma ieq_matching_chars (x c : char) :
  ieq x c = true <-> In c (matching_chars x).
Proof.
  unfold ieq, matching_chars. destruct (sre_cased x).
  - apply in_class_i_chars.
  - unfold char_eqb. rewrite N.eqb_eq. simpl. intuition.
Qed.

Lemma same_chars_spec (l1 l2 : list char) (c : char) :
  same_chars l1 l2 = true -> (In c l1 <-> In c l2).
Proof.
  unfold same_chars. rewrite andb_true_iff, !forallb_forall.
  intros [H1 H2]. split; intros H.
  - now apply existsb_char_eqb, H1.
  - now apply existsb_char_eqb, H2.
Qed.

(** Under the flag [i] the class of the Roman letters has two more
    characters. *)
Lemma is_roman_i_letter (c : char) : is_roman_i c = roman_letter c.
Proof.
  assert (E : same_chars (class_chars (py "IVXivx"))
                         [73; 86; 88; 105; 118; 120; 304; 305]%N = true)
    by (vm_compute; reflexivity).
  pose proof (in_class_i_chars (py "IVXivx") c) as [C1 C2].
  unfold is_roman_i, roman_letter.
  revert E C1 C2.
  generalize (class_chars (py "IVXivx")).
  generalize (in_class_i (py "IVXivx") c).
  generalize [73; 86; 88; 105; 118; 120; 304; 305]%N.
  intros R v L E C1 C2.
  pose proof (same_chars_spec L R c E) as [H1 H2].
  pose proof (existsb_char_eqb c R) as [X1 X2].
  destruct v.
  - symmetry. apply X2, H1, C1. reflexivity.
  - destruct (existsb (char_eqb c) R); [|reflexivity].
    apply C2, H2, X1. reflexivity.
Qed.

(** A character of a token of the vocabulary matches its variants. *)
Lemma ieq_variants (tok : str) (x c : char) :
  In tok common_sections -> In x tok ->
  (ieq x c = true <-> In c (variants x)).
Proof.
  intros Ht Hx.
  assert (E : forallb (forallb (fun x => same_chars (matching_chars x)
                                                    (variants x)))
                      common_sections = true) by (vm_compute; reflexivity).
  rewrite forallb_forall in E. specialize (E _ Ht).
  rewrite forallb_forall in E. specialize (E _ Hx).
  rewrite ieq_matching_chars. now apply same_chars_spec.
Qed.

Lemma Forall2_iff_in (A B : Type) (P Q : A -> B -> Prop) (l : list A)
                     (l' : list B) :
  (forall x y, In x l -> (P x y <-> Q x y)) ->
  (Forall2 P l l' <-> Forall2 Q l l').
Proof.
  revert l'; induction l as [|x l IH]; intros l' H.
  - split; intros H'; inversion H'; constructor.
  - split; intros H'; inversion H'; subst; constructor;
      try (apply H; [now left | assumption]);
      apply IH; auto; intros; apply H; now right.
Qed.

Lemma lit_spells (tok w : str) :
  In tok common_sections ->
  (Forall2 (fun x c => ieq x c = true) tok w <-> spells tok w).
Proof.
  intros Ht. apply Forall2_iff_in. intros x c Hx. now apply ieq_variants with tok.
Qed.

(** ** The matcher and the declarative reading of patterns *)

Lemma in_step_if (ok : char -> bool) (p q : pos) :
  In q (step_if ok p) <->
  exists c a', after p = c :: a' /\ ok c = true /\ q = Pos (c :: before p) a'.
Proof.
  unfold step_if. destruct (after p) as [|c a].
  - split; [intros [] | intros (c & a' & H & _); discriminate].
  - destruct (ok c) eqn:E; simpl; split.
    + intros [<- | []]. now exists c, a.
    + intros (c' & a' & H & _ & ->). injection H as <- <-. now left.
    + intros [].
    + intros (c' & a' & H & H' & _). injection H as <- <-. congruence.
Qed.

Lemma in_star_from (ok : char -> bool) (b a : str) (q : pos) :
  In q (star_from ok b a) <->
  exists w a', a = w ++ a' /\ forallb ok w = true /\ q = Pos (rev w ++ b) a'.
Proof.
  revert b; induction a as [|c a IH]; intros b; simpl.
  - split.
    + intros [<- | []]. now exists [], [].
    + intros (w & a' & H & _ & ->).
      symmetry in H. apply app_eq_nil in H as [-> ->]. now left.
  - destruct (ok c) eqn:E.
    + rewrite in_app_iff, IH. split.
      * intros [(w & a' & -> & Hw & ->) | [<- | []]].
        -- exists (c :: w), a'. simpl. rewrite E, Hw, <- app_assoc. auto.
        -- now exists [], (c :: a).
      * intros (w & a' & H & Hw & ->). destruct w as [|x w].
        -- simpl in H. subst a'. right. now left.
        -- simpl in H. injection H as <- ->. simpl in Hw.
           apply andb_true_iff in Hw as [_ Hw].
           left. exists w, a'. simpl. rewrite <- app_assoc. auto.
    + split.
      * intros [<- | []]. now exists [], (c :: a).
      * intros (w & a' & H & Hw & ->). destruct w as [|x w].
        -- simpl in H. subst a'. now left.
        -- simpl in H. injection H as <- ->. simpl in Hw.
           rewrite E in Hw. discriminate.
Qed.

Lemma in_lit_from (s : str) (b a : str) (q : pos) :
  In q (lit_from s b a) <->
  exists w a', a = w ++ a' /\ Forall2 (fun x c => ieq x c = true) s w /\
               q = Pos (rev w ++ b) a'.
Proof.
  revert b a; induction s as [|x s IH]; intros b a; simpl.
  - split.
    + intros [<- | []]. exists [], a. repeat split. constructor.
    + intros (w & a' & -> & Hw & ->). inversion Hw. now left.
  - destruct a as [|c a].
    + split; [intros [] |].
      intros (w & a' & H & Hw & _). inversion Hw; subst. discriminate.
    + destruct (ieq x c) eqn:E.
      * rewrite IH. split.
        -- intros (w & a' & -> & Hw & ->).
           exists (c :: w), a'. simpl. rewrite <- app_assoc.
           repeat split. now constructor.
        -- intros (w & a' & H & Hw & ->). inversion Hw as [|? y ? w' Hy Hw']; subst.
           simpl in H. injection H as <- ->.
           exists w', a'. simpl. rewrite <- app_assoc. auto.
      * split; [intros [] |].
        intros (w & a' & H & Hw & _). inversion Hw as [|? y ? w' Hy Hw']; subst.
        simpl in H. injection H as <- ->. congruence.
Qed.

Lemma between_app (b b' w a' : str) : between (Pos b (w ++ a')) (Pos b' a') = w.
Proof.
  unfold between. simpl. rewrite length_app, Nat.add_sub.
  rewrite firstn_app, firstn_all, Nat.sub_diag. simpl. apply app_nil_r.
Qed.

(** The matcher lists exactly the matches of the declarative reading. *)
Theorem mt_matches (r : regex) (b a : str) (c : option str) (q : pos) :
  In (c, q) (mt r (Pos b a)) <->
  exists w a', a = w ++ a' /\ q = Pos (rev w ++ b) a' /\ matches r b w a' c.
Proof.
  revert b a c q; induction r as
    [x | ok | s | r1 IH1 r2 IH2 | r1 IH1 r2 IH2 | r1 IH1 | ok | ok | | |
     | r1 IH1]; intros b a c q; cbn [mt before after].
  - (* Chr *)
    rewrite in_map_iff. split.
    + intros (q' & E & H). injection E as <- <-.
      apply in_step_if in H as (x' & a' & Ha & Hx & ->). simpl in *. subst a.
      apply N.eqb_eq in Hx. subst x'.
      exists [x], a'. repeat split. constructor.
    + intros (w & a' & -> & -> & H). inversion H; subst.
      exists (Pos (x :: b) a'). split; auto.
      apply in_step_if. exists x, a'. simpl. repeat split. apply N.eqb_refl.
  - (* Class *)
    rewrite in_map_iff. split.
    + intros (q' & E & H). injection E as <- <-.
      apply in_step_if in H as (x' & a' & Ha & Hx & ->). simpl in *. subst a.
      exists [x'], a'. repeat split. now constructor.
    + intros (w & a' & -> & -> & H). inversion H; subst.
      exists (Pos (c0 :: b) a'). split; auto.
      apply in_step_if. exists c0, a'. simpl. auto.
  - (* LitI *)
    rewrite in_map_iff. split.
    + intros (q' & E & H). injection E as <- <-.
      apply in_lit_from in H as (w & a' & -> & Hw & ->).
      exists w, a'. repeat split. now constructor.
    + intros (w & a' & -> & -> & H). inversion H; subst.
      exists (Pos (rev w ++ b) a'). split; auto.
      apply in_lit_from. exists w, a'. auto.
  - (* Seq *)
    rewrite in_flat_map. split.
    + intros ([c1 q1] & H1 & H2). apply IH1 in H1 as (w1 & a1 & -> & -> & M1).
      apply in_map_iff in H2 as ([c2 q2] & E & H2). simpl in E, H2.
      injection E as <- <-.
      apply IH2 in H2 as (w2 & a2 & -> & -> & M2).
      exists (w1 ++ w2), a2. rewrite <- app_assoc, rev_app_distr, <- app_assoc.
      repeat split. now constructor.
    + intros (w & a' & -> & -> & H). inversion H; subst.
      exists (c1, Pos (rev w1 ++ b) (w2 ++ a')). split.
      * apply IH1. exists w1, (w2 ++ a'). rewrite <- app_assoc. auto.
      * apply in_map_iff. exists (c2, Pos (rev w2 ++ rev w1 ++ b) a').
        simpl. split.
        -- now rewrite rev_app_distr, <- app_assoc.
        -- apply IH2. exists w2, a'. auto.
  - (* Alt *)
    rewrite in_app_iff, IH1, IH2. split.
    + intros [(w & a' & -> & -> & M) | (w & a' & -> & -> & M)];
        exists w, a'; repeat split; [now apply m_alt_l | now apply m_alt_r].
    + intros (w & a' & -> & -> & H). inversion H; subst;
        [left | right]; exists w, a'; auto.
  - (* Opt *)
    rewrite in_app_iff, IH1. split.
    + intros [(w & a' & -> & -> & M) | [E | []]].
      * exists w, a'. repeat split. now constructor.
      * injection E as <- <-. exists [], a. repeat split. apply m_opt_none.
    + intros (w & a' & -> & -> & H). inversion H; subst.
      * left. exists w, a'. auto.
      * right. now left.
  - (* Star *)
    rewrite in_map_iff. split.
    + intros (q' & E & H). injection E as <- <-.
      apply in_star_from in H as (w & a' & -> & Hw & ->).
      exists w, a'. repeat split. now constructor.
    + intros (w & a' & -> & -> & H). inversion H; subst.
      exists (Pos (rev w ++ b) a'). split; auto.
      apply in_star_from. exists w, a'. auto.
  - (* Plus *)
    rewrite in_flat_map. split.
    + intros (q1 & H1 & H2).
      apply in_step_if in H1 as (x & a1 & Ha & Hx & ->). simpl in *. subst a.
      apply in_map_iff in H2 as (q' & E & H2). injection E as <- <-.
      apply in_star_from in H2 as (w & a' & -> & Hw & ->).
      exists (x :: w), a'. simpl. rewrite <- app_assoc. repeat split.
      constructor; [discriminate|]. simpl. now rewrite Hx, Hw.
    + intros (w & a' & -> & -> & H). inversion H; subst.
      destruct w as [|x w]; [congruence|].
      match goal with Hf : forallb _ _ = true |- _ =>
        simpl in Hf; apply andb_true_iff in Hf as [Hx Hw] end.
      exists (Pos (x :: b) (w ++ a')). split.
      * apply in_step_if. exists x, (w ++ a'). simpl. auto.
      * apply in_map_iff. exists (Pos (rev (x :: w) ++ b) a'). split; auto.
        apply in_star_from. exists w, a'. simpl. rewrite <- app_assoc. auto.
  - (* Bos *)
    destruct b as [|y b]; simpl; split.
    + intros [E | []]. injection E as <- <-. exists [], a. repeat split.
      constructor.
    + intros (w & a' & -> & -> & H). inversion H; subst. now left.
    + intros [].
    + intros (w & a' & -> & -> & H). inversion H.
  - (* Bol *)
    destruct (at_bol (Pos b a)) eqn:E; simpl; split.
    + intros [E' | []]. injection E' as <- <-. exists [], a. repeat split.
      now constructor.
    + intros (w & a' & -> & -> & H). inversion H; subst. now left.
    + intros [].
    + intros (w & a' & -> & -> & H). inversion H; subst.
      unfold at_bol in *. simpl in *. congruence.
  - (* Eol *)
    destruct (at_eol (Pos b a)) eqn:E; simpl; split.
    + intros [E' | []]. injection E' as <- <-. exists [], a. repeat split.
      now constructor.
    + intros (w & a' & -> & -> & H). inversion H; subst. now left.
    + intros [].
    + intros (w & a' & -> & -> & H). inversion H; subst.
      unfold at_eol in *. simpl in *. congruence.
  - (* Group *)
    rewrite in_map_iff. split.
    + intros ([c1 q1] & E & H). simpl in E. injection E as <- <-.
      apply IH1 in H as (w & a' & -> & -> & M).
      exists w, a'. rewrite between_app. repeat split.
      now apply m_group with c1.
    + intros (w & a' & -> & -> & H). inversion H; subst.
      exists (c0, Pos (rev w ++ b) a'). simpl. rewrite between_app.
      split; auto. apply IH1. exists w, a'. auto.
Qed.

Ltac inv H := inversion H; subst; clear H.

Lemma first_match_in (r : regex) (p : pos) (m : option str * pos) :
  first_match r p = Some m -> In m (mt r p).
Proof.
  unfold first_match. destruct (mt r p); simpl; [discriminate|].
  intros E. injection E as <-. now left.
Qed.

Lemma first_match_some (r : regex) (p : pos) :
  truthy_opt (first_match r p) = true <-> exists m, In m (mt r p).
Proof.
  unfold first_match. destruct (mt r p) as [|m ms]; simpl; split;
    try discriminate; auto.
  - intros [m []].
  - intros _. exists m. now left.
Qed.

Lemma search_from_in (r : regex) (a b : str) (m : option str * pos) :
  search_from r b a = Some m ->
  exists pre a', a = pre ++ a' /\ In m (mt r (Pos (rev pre ++ b) a')).
Proof.
  revert b; induction a as [|x a IH]; intros b; simpl;
    destruct (first_match r _) eqn:E; try discriminate.
  - intros H. injection H as <-. exists [], []. eauto using first_match_in.
  - intros H. injection H as <-. exists [], (x :: a).
    eauto using first_match_in.
  - intros H. apply IH in H as (pre & a' & -> & H).
    exists (x :: pre), a'. split; [reflexivity|].
    simpl. now rewrite <- app_assoc.
Qed.

(** The substitution does not depend on its fuel once the fuel exceeds
    the length of the text left: [re_sub_empty] gives it enough. *)
Lemma sub_from_fuel (r : regex) (fuel k : nat) (b a : str) :
  length a < fuel -> sub_from (fuel + k) r b a = sub_from fuel r b a.
Proof.
  revert b a; induction fuel as [|fuel IH]; intros b a Hl; [lia|].
  cbn [Nat.add sub_from].
  assert (Hc : match a with
               | c :: a1 => c :: sub_from (fuel + k) r (c :: b) a1
               | [] => []
               end
               = match a with
                 | c :: a1 => c :: sub_from fuel r (c :: b) a1
                 | [] => []
                 end).
  { destruct a as [|c a1]; auto. simpl in Hl. rewrite IH by lia. reflexivity. }
  destruct (first_match r (Pos b a)) as [[c q]|]; auto.
  destruct (length (after q) <? length a) eqn:E; auto.
  apply Nat.ltb_lt in E. apply IH. lia.
Qed.

(** ** Header names come from the vocabulary *)

Lemma lower_vocabulary (tok : str) :
  In tok common_sections -> lower tok = tok.
Proof.
  intros H.
  assert (A : forallb (fun t => str_eqb (lower t) t) common_sections = true)
    by (vm_compute; reflexivity).
  rewrite forallb_forall in A. apply str_eqb_eq. now apply A.
Qed.

Lemma matches_alts_lit (toks : list str) (b w a : str) (c : option str) :
  matches (alts (map LitI toks)) b w a c <->
  c = None /\
  exists tok, In tok toks /\ Forall2 (fun x y => ieq x y = true) tok w.
Proof.
  induction toks as [|t toks IH].
  - simpl. split.
    + intros H. inv H. discriminate.
    + intros (_ & tok & [] & _).
  - destruct toks as [|t' toks].
    + simpl. split.
      * intros H. inv H. split; auto. exists t. auto.
      * intros (-> & tok & [<- | []] & H). now constructor.
    + change (alts (map LitI (t :: t' :: toks)))
        with (Alt (LitI t) (alts (map LitI (t' :: toks)))).
      remember (alts (map LitI (t' :: toks))) as R eqn:ER. clear ER. split.
      * intros H. inv H.
        -- match goal with H : matches (LitI _) _ _ _ _ |- _ => inv H end.
           split; auto. exists t. split; auto. now left.
        -- match goal with H : matches R _ _ _ _ |- _ =>
             apply IH in H as (-> & tok & Hin & Hl) end.
           split; auto. exists tok. split; auto. now right.
      * intros (-> & tok & [<- | Hin] & Hl).
        -- apply m_alt_l. now constructor.
        -- apply m_alt_r. apply IH. split; auto. now exists tok.
Qed.

(** Group 1 of a match of the vocabulary spells a token. *)
Lemma matches_vocabulary (b w a : str) (c : option str) :
  matches vocabulary b w a c <-> c = Some w /\ is_token w.
Proof.
  unfold vocabulary, is_token.
  remember (alts (map LitI common_sections)) as R eqn:ER. split.
  - intros H. inv H. split; auto.
    match goal with H : matches _ _ _ _ _ |- _ =>
      apply matches_alts_lit in H as (_ & tok & Hin & Hl) end.
    exists tok. split; auto. now apply lit_spells.
  - intros (-> & tok & Hin & Hs). apply m_group with None. rewrite ER.
    apply matches_alts_lit. split; auto.
    exists tok. split; auto. now apply lit_spells.
Qed.

(** ** The constructors of patterns, one by one *)

Lemma matches_seq (r1 r2 : regex) (b w a : str) (c : option str) :
  matches (Seq r1 r2) b w a c <->
  exists w1 w2 c1 c2,
    w = w1 ++ w2 /\ c = or_else c2 c1 /\
    matches r1 b w1 (w2 ++ a) c1 /\ matches r2 (rev w1 ++ b) w2 a c2.
Proof.
  split.
  - intros H. inv H. eauto 10.
  - intros (w1 & w2 & c1 & c2 & -> & -> & H1 & H2). now constructor.
Qed.

Lemma matches_alt (r1 r2 : regex) (b w a : str) (c : option str) :
  matches (Alt r1 r2) b w a c <-> matches r1 b w a c \/ matches r2 b w a c.
Proof.
  split.
  - intros H. inv H; auto.
  - intros [H | H]; [now apply m_alt_l | now apply m_alt_r].
Qed.

Lemma matches_opt (r : regex) (b w a : str) (c : option str) :
  matches (Opt r) b w a c <-> matches r b w a c \/ (w = [] /\ c = None).
Proof.
  split.
  - intros H. inv H; auto.
  - intros [H | [-> ->]]; [now apply m_opt_some | apply m_opt_none].
Qed.

Lemma matches_star (ok : char -> bool) (b w a : str) (c : option str) :
  matches (Star ok) b w a c <-> c = None /\ all ok w.
Proof.
  split.
  - intros H. inv H. now split.
  - intros [-> H]. now constructor.
Qed.

Lemma matches_plus (ok : char -> bool) (b w a : str) (c : option str) :
  matches (Plus ok) b w a c <-> c = None /\ w <> [] /\ all ok w.
Proof.
  split.
  - intros H. inv H. now repeat split.
  - intros (-> & H1 & H2). now constructor.
Qed.

Lemma matches_chr (x : char) (b w a : str) (c : option str) :
  matches (Chr x) b w a c <-> c = None /\ w = [x].
Proof.
  split.
  - intros H. inv H. now split.
  - intros [-> ->]. constructor.
Qed.

Lemma matches_opt_chr (x : char) (b w a : str) (c : option str) :
  matches (Opt (Chr x)) b w a c <-> c = None /\ (w = [] \/ w = [x]).
Proof.
  rewrite matches_opt, matches_chr. tauto.
Qed.

Lemma matches_bol (b w a : str) (c : option str) :
  matches Bol b w a c <-> c = None /\ w = [] /\ at_bol (Pos b a) = true.
Proof.
  split.
  - intros H. inv H. now repeat split.
  - intros (-> & -> & H). now constructor.
Qed.

Lemma matches_eol (b w a : str) (c : option str) :
  matches Eol b w a c <-> c = None /\ w = [] /\ at_eol (Pos b a) = true.
Proof.
  split.
  - intros H. inv H. now repeat split.
  - intros (-> & -> & H). now constructor.
Qed.

(** ** The shape of the lines that the section pattern matches *)

Lemma matches_number_prefix (b w a : str) (c : option str) :
  matches number_prefix b w a c <->
  c = None /\
  exists d1 dt d2 ws,
    w = d1 ++ dt ++ d2 ++ ws /\ d1 <> [] /\ all isdigit d1 /\ opt_dot dt /\
    all isdigit d2 /\ all isspace ws.
Proof.
  unfold number_prefix. rewrite matches_seq. split.
  - intros (d1 & w2 & c1 & c2 & -> & -> & H1 & H2).
    apply matches_plus in H1 as (-> & Hne & Hd1).
    apply matches_seq in H2 as (dt & w3 & c3 & c4 & -> & -> & H3 & H4).
    apply matches_opt_chr in H3 as (-> & Hdt).
    apply matches_seq in H4 as (d2 & ws & c5 & c6 & -> & -> & H5 & H6).
    apply matches_star in H5 as (-> & Hd2).
    apply matches_star in H6 as (-> & Hws).
    split; [reflexivity|]. exists d1, dt, d2, ws. repeat split; auto.
  - intros (-> & d1 & dt & d2 & ws & -> & Hne & Hd1 & Hdt & Hd2 & Hws).
    exists d1, (dt ++ d2 ++ ws), None, None. repeat split.
    + now apply matches_plus.
    + apply matches_seq. exists dt, (d2 ++ ws), None, None. repeat split.
      * now apply matches_opt_chr.
      * apply matches_seq. exists d2, ws, None, None.
        repeat split; now apply matches_star.
Qed.

Lemma all_roman (r : str) : all is_roman_i r <-> all roman_letter r.
Proof.
  unfold all. induction r as [|c r IH]; simpl; [tauto|].
  rewrite is_roman_i_letter, !andb_true_iff. tauto.
Qed.

Lemma matches_roman_prefix (b w a : str) (c : option str) :
  matches roman_prefix b w a c <->
  c = None /\
  exists r dt ws,
    w = r ++ dt ++ ws /\ r <> [] /\ all roman_letter r /\ opt_dot dt /\
    all isspace ws.
Proof.
  unfold roman_prefix. rewrite matches_seq. split.
  - intros (r & w2 & c1 & c2 & -> & -> & H1 & H2).
    apply matches_plus in H1 as (-> & Hne & Hr).
    apply matches_seq in H2 as (dt & ws & c3 & c4 & -> & -> & H3 & H4).
    apply matches_opt_chr in H3 as (-> & Hdt).
    apply matches_star in H4 as (-> & Hws).
    split; [reflexivity|]. exists r, dt, ws. repeat split; auto.
    now apply all_roman.
  - intros (-> & r & dt & ws & -> & Hne & Hr & Hdt & Hws).
    exists r, (dt ++ ws), None, None. repeat split.
    + apply matches_plus. repeat split; auto. now apply all_roman.
    + apply matches_seq. exists dt, ws, None, None. repeat split.
      * now apply matches_opt_chr.
      * now apply matches_star.
Qed.

Lemma matches_prefix (b w a : str) (c : option str) :
  matches (Opt (Alt number_prefix roman_prefix)) b w a c <->
  c = None /\ (w = [] \/ ordinal_prefix w).
Proof.
  rewrite matches_opt, matches_alt, matches_number_prefix,
    matches_roman_prefix. split.
  - intros [[(-> & d1 & dt & d2 & ws & -> & H) | (-> & r & dt & ws & -> & H)]
           | [-> ->]]; split; auto; right.
    + destruct H as (? & ? & ? & ? & ?). now constructor.
    + destruct H as (? & ? & ? & ?). now constructor.
  - intros (-> & [-> | H]); [now right | left].
    destruct H as [d1 dt d2 ws | r dt ws]; [left | right];
      (split; [reflexivity|]).
    + exists d1, dt, d2, ws. auto 10.
    + exists r, dt, ws. auto 10.
Qed.

Lemma matches_token_end (b w a : str) (c : option str) :
  matches token_end_pattern b w a c <->
  c = None /\
  ((exists ws, all isspace ws /\ w = ws ++ [colon]) \/
   (w = [] /\ at_eol (Pos b a) = true)).
Proof.
  unfold token_end_pattern. rewrite matches_alt, matches_seq, matches_eol.
  split.
  - intros [(ws & w2 & c1 & c2 & -> & -> & H1 & H2) | (-> & -> & H)].
    + apply matches_star in H1 as (-> & Hws).
      apply matches_chr in H2 as (-> & ->).
      split; auto. left. now exists ws.
    + split; auto.
  - intros (-> & [(ws & Hws & ->) | (-> & H)]); [left | right; auto].
    exists ws, [colon], None, None. repeat split.
    + now apply matches_star.
    + now apply matches_chr.
Qed.

(** The matches of the section pattern: group 1 is the token. *)
Lemma matches_section_pattern (b w a : str) (c : option str) :
  matches section_pattern b w a c <->
  at_bol (Pos b (w ++ a)) = true /\
  exists p t e,
    w = p ++ t ++ e /\ (p = [] \/ ordinal_prefix p) /\
    is_token t /\ c = Some t /\
    ((exists ws, all isspace ws /\ e = ws ++ [colon]) \/
     (e = [] /\ at_eol (Pos (rev (p ++ t) ++ b) a) = true)).
Proof.
  unfold section_pattern. rewrite matches_seq. split.
  - intros (w0 & w1 & c0 & c1 & -> & -> & H0 & H1).
    apply matches_bol in H0 as (-> & -> & Hbol).
    apply matches_seq in H1 as (p & w2 & c2 & c3 & -> & -> & H2 & H3).
    apply matches_prefix in H2 as (-> & Hp).
    apply matches_seq in H3 as (t & e & c4 & c5 & -> & -> & H4 & H5).
    apply matches_vocabulary in H4 as (-> & Ht).
    apply matches_token_end in H5 as (-> & He).
    split; [exact Hbol|]. exists p, t, e. simpl. repeat split; auto.
  - intros (Hbol & p & t & e & -> & Hp & Ht & -> & He).
    exists [], (p ++ t ++ e), None, (Some t). repeat split.
    + now apply matches_bol.
    + apply matches_seq. exists p, (t ++ e), None, (Some t). repeat split.
      * now apply matches_prefix.
      * apply matches_seq. exists t, e, (Some t), None. repeat split.
        -- now apply matches_vocabulary.
        -- apply matches_token_end. split; auto.
Qed.

(** A match that a search finds lies inside the subject. *)
Lemma re_search_in (r : regex) (s : str) (m : option str * pos) :
  re_search r s = Some m ->
  exists pre w a, s = pre ++ w ++ a /\ matches r (rev pre) w a (fst m).
Proof.
  intros H. apply search_from_in in H as (pre & a' & -> & H).
  rewrite app_nil_r in H.
  destruct m as [c q]. apply mt_matches in H as (w & a'' & -> & _ & M).
  now exists pre, w, a''.
Qed.

Lemma in_lstrip (c : char) (s : str) : In c (lstrip s) -> In c s.
Proof.
  induction s as [|x s IH]; simpl; auto.
  destruct (isspace x); simpl; auto.
Qed.

Lemma in_strip (c : char) (s : str) : In c (strip s) -> In c s.
Proof.
  unfold strip, rstrip. intros H.
  apply in_lstrip. apply in_rev. apply in_lstrip. now apply in_rev in H.
Qed.

(** The section that a header opens is named by the lower-case form of
    a text of the line that spells a token of the vocabulary. *)
Lemma header_name_token (line k : str) :
  header_name line = Some k ->
  exists t, is_token t /\ k = lower t /\ (forall c, In c t -> In c line).
Proof.
  unfold header_name, header_match, pattern_rule, caps_rule.
  destruct (re_search section_pattern (strip line)) as [m|] eqn:E.
  - simpl. intros H. injection H as <-.
    apply re_search_in in E as (pre & w & a & Es & M).
    apply matches_section_pattern in M as (_ & p & t & e & -> & _ & Ht & Hc & _).
    exists t. unfold group1. rewrite Hc. repeat split; auto.
    intros c Hin. apply in_strip. rewrite Es.
    apply in_or_app. right. apply in_or_app. left.
    apply in_or_app. right. apply in_or_app. now left.
  - destruct (_ && _); [|discriminate].
    destruct (re_search vocabulary line) as [m|] eqn:E'; [|discriminate].
    simpl. intros H. injection H as <-.
    apply re_search_in in E' as (pre & w & a & Es & M).
    apply matches_vocabulary in M as (Hc & Ht).
    exists w. unfold group1. rewrite Hc. repeat split; auto.
    intros c Hin. rewrite Es.
    apply in_or_app. right. apply in_or_app. now left.
Qed.

Lemma lower_cons (c : char) (s : str) :
  lower (c :: s) = lower_at [] c s ++ lower_from [c] s.
Proof. reflexivity. Qed.

(** No token of the vocabulary is spelt by a text whose lower-case
    form is the name unknown: the first characters differ. *)
Lemma token_not_unknown (t : str) : is_token t -> lower t <> py "unknown".
Proof.
  intros (tok & Hin & Hs).
  assert (A : forallb
                (fun tok =>
                   match tok with
                   | x :: _ =>
                       forallb (fun c => negb (c =? capital_sigma)%N &&
                                         negb (hd 0%N (lower_at [] c []) =? 117)%N)
                               (variants x)
                   | [] => false
                   end) common_sections = true) by (vm_compute; reflexivity).
  rewrite forallb_forall in A. specialize (A _ Hin).
  destruct Hs as [|x c tok' t' Hc Hs]; [discriminate A|].
  rewrite forallb_forall in A. specialize (A _ Hc).
  apply andb_true_iff in A as [A1 A2].
  apply negb_true_iff, N.eqb_neq in A1. apply negb_true_iff, N.eqb_neq in A2.
  rewrite lower_cons, (lower_at_alone [] t' A1).
  destruct (length_lower_at [] c []) as [[Hl _] _].
  revert A2 Hl. generalize (lower_at [] c []). intros l A2 Hl.
  destruct l as [|y l]; [simpl in Hl; lia|].
  simpl in A2. intros E. injection E as E _. congruence.
Qed.

Lemma header_name_not_unknown (line k : str) :
  header_name line = Some k -> k <> py "unknown".
Proof.
  intros H. apply header_name_token in H as (t & Ht & -> & _).
  now apply token_not_unknown.
Qed.

(** A text that spells a token without the dotted capital I, the
    dotless i and the long s has the token for its lower-case form. *)
Lemma spells_lower (tok t : str) :
  In tok common_sections -> spells tok t -> plain_letters t -> lower t = tok.
Proof.
  intros Hin Hs Hp.
  assert (A : forallb
                (forallb
                   (fun x =>
                      forallb (fun c => existsb (char_eqb c) odd_letters ||
                                        (negb (c =? capital_sigma)%N &&
                                         str_eqb (lower_at [] c []) [x]))
                              (variants x)))
                common_sections = true) by (vm_compute; reflexivity).
  rewrite forallb_forall in A. specialize (A _ Hin).
  rewrite forallb_forall in A. clear Hin.
  unfold lower. generalize (@nil char) as b.
  induction Hs as [|x c tok t Hc Hs IH]; intros b; [reflexivity|].
  pose proof (A x (or_introl eq_refl)) as Ax.
  rewrite forallb_forall in Ax. specialize (Ax _ Hc).
  apply orb_true_iff in Ax as [Ax | Ax].
  - apply existsb_char_eqb in Ax. exfalso. apply (Hp c); [now left | exact Ax].
  - apply andb_true_iff in Ax as [A1 A2].
    apply negb_true_iff, N.eqb_neq in A1. apply str_eqb_eq in A2.
    cbn [lower_from]. rewrite (lower_at_alone b t A1), A2.
    cbn [app]. f_equal. apply IH.
    + intros c' Hc'. apply Hp. now right.
    + intros x' Hx'. apply A. now right.
Qed.

(** On a line without these three characters, the section that a
    header opens is named by a token of the vocabulary. *)
Lemma header_name_in_vocabulary (line k : str) :
  plain_letters line -> header_name line = Some k -> In k common_sections.
Proof.
  intros Hp H. apply header_name_token in H as (t & (tok & Hin & Hs) & -> & Ht).
  rewrite (@spells_lower tok t); auto.
  intros c Hc. apply Hp. now apply Ht.
Qed.

(** C10, amended: on a fresh processor, of two header lines of one
    token, the later one with a non-empty run of lines up to the next
    header or the end, and no header of that token after it, the
    primary pass holds the later run under the token, joined and
    trimmed, whatever map it started from; so does the map returned
    when the primary result is the one returned.  A header directly
    followed by a header stores nothing: the primary result is that of
    the text without the first of the two, and when no other line is a
    header of its token, the primary result on an empty map, and with
    it the map returned when it is the primary one, has no entry for
    the token. *)
Theorem C10_later_run_overwrites (h : store) (self : PdfProcessor) :
  fresh h self ->
  let text := full_text self in
  let primary_kept :=
    2 < length (primary_pass [] text) \/
    ~ length (primary_pass [] text) < length (fallback_sections text) in
  (forall (pre : list str) (h1 : str) (b1 : list str) (h2 : str)
          (b2 post : list str) (t : str),
      split_nl text = pre ++ h1 :: b1 ++ h2 :: b2 ++ post ->
      header_name h1 = Some t -> header_name h2 = Some t ->
      (forall l, In l b2 -> header_name l = None) -> b2 <> [] ->
      (post = [] \/
       exists h3 post', post = h3 :: post' /\ header_name h3 <> None) ->
      (forall l, In l post -> header_name l <> Some t) ->
      (forall d, get t (primary_pass d text) = Some (strip (join_nl b2))) /\
      (primary_kept -> get t (returned h self) = Some (strip (join_nl b2)))) /\
  (forall (pre : list str) (h1 h2 : str) (post : list str) (t : str),
      split_nl text = pre ++ h1 :: h2 :: post ->
      header_name h1 = Some t -> header_name h2 <> None ->
      (forall d, primary_pass d text = primary_lines d (pre ++ h2 :: post)) /\
      ((forall l, In l (pre ++ h2 :: post) -> header_name l <> Some t) ->
       get t (primary_pass [] text) = None /\
       (primary_kept -> get t (returned h self) = None))).
Proof.
  intros Hf text primary_kept. split.
  - intros pre h1 b1 h2 b2 post t Hs H1 H2 Hb2 Hne Hpost Hother.
    assert (E : forall d, get t (primary_pass d text)
                          = Some (strip (join_nl b2))).
    { intros d. unfold primary_pass. rewrite Hs.
      change (pre ++ h1 :: b1 ++ h2 :: b2 ++ post)
        with (pre ++ (h1 :: b1) ++ h2 :: b2 ++ post).
      rewrite app_assoc. now apply get_primary_last_run. }
    split; [exact E|]. intros Hk.
    rewrite (returned_primary_kept Hf Hk). apply E.
  - intros pre h1 h2 post t Hs H1 H2.
    assert (E : forall d, primary_pass d text
                          = primary_lines d (pre ++ h2 :: post)).
    { intros d. unfold primary_pass. rewrite Hs.
      now apply primary_header_pair with t. }
    split; [exact E|]. intros Hother.
    assert (G : get t (primary_pass [] text) = None).
    { rewrite E, primary_lines_runs.
      rewrite get_fold_store_other; [reflexivity|].
      intros seg Hseg. left. intros Ht.
      apply runs_names in Hseg as [Hu | [l [Hl Hh]]].
      - apply (header_name_not_unknown h1 H1). congruence.
      - apply (Hother l Hl). congruence. }
    split; [exact G|]. intros Hk.
    rewrite (returned_primary_kept Hf Hk). exact G.
Qed.

(** ** The pattern rule *)

(** Inside a line the anchor [^] does not hold. *)
Lemma search_from_bol_inside (r : regex) (a b : str) (x : char) :
  x <> nl -> ~ In nl a -> search_from (Seq Bol r) (x :: b) a = None.
Proof.
  revert b x; induction a as [|y a IH]; intros b x Hx Ha;
    cbn [search_from]; unfold first_match; cbn [mt];
    unfold at_bol; cbn [before]; apply N.eqb_neq in Hx;
    unfold char_eqb; rewrite Hx; cbn [flat_map hd_error]; auto.
  apply IH.
  - intros E. apply Ha. now left.
  - intros E. apply Ha. now right.
Qed.

Lemma re_search_bol (r : regex) (s : str) :
  ~ In nl s -> re_search (Seq Bol r) s = first_match (Seq Bol r) (Pos [] s).
Proof.
  intros Hs. unfold re_search. destruct s as [|x s]; cbn [search_from].
  - now destruct (first_match _ _).
  - destruct (first_match _ _); auto.
    apply search_from_bol_inside.
    + intros E. apply Hs. now left.
    + intros E. apply Hs. now right.
Qed.

Lemma section_pattern_shape (s : str) :
  ~ In nl s ->
  (exists m, In m (mt section_pattern (Pos [] s))) <-> header_shape s.
Proof.
  intros Hs. split.
  - intros [[c q] H]. apply mt_matches in H as (w & a' & -> & _ & M).
    apply matches_section_pattern in M
      as (_ & p & t & e & -> & Hp & Ht & _ & He).
    exists p, t, (e ++ a'). rewrite <- !app_assoc. repeat split; auto.
    destruct He as [(ws & Hws & ->) | (-> & He)].
    + right. exists ws, a'. rewrite <- app_assoc. auto.
    + left. unfold at_eol in He. cbn [after] in He.
      destruct a' as [|y a']; auto.
      apply N.eqb_eq in He. subst y. exfalso. apply Hs.
      apply in_or_app. right. now left.
  - intros (p & t & rest & -> & Hp & Ht & He).
    destruct He as [-> | (ws & tail & Hws & ->)].
    + exists (Some t, Pos (rev (p ++ t ++ []) ++ []) []).
      apply mt_matches. exists (p ++ t ++ []), [].
      rewrite !app_nil_r. repeat split.
      apply matches_section_pattern. split; auto.
      exists p, t, []. rewrite !app_nil_r. repeat split; auto.
    + exists (Some t, Pos (rev (p ++ t ++ ws ++ [colon]) ++ []) tail).
      apply mt_matches. exists (p ++ t ++ ws ++ [colon]), tail.
      repeat split.
      * rewrite <- !app_assoc. reflexivity.
      * apply matches_section_pattern. split; auto.
        exists p, t, (ws ++ [colon]). repeat split; auto.
        left. now exists ws.
Qed.

(** C6, amended: the pattern rule takes a line for a header exactly
    when the trimmed line is an optional prefix, a text that spells a
    token of the vocabulary, and a token end.  The prefix is decimal
    digits, an optional dot, optional digits and optional white space,
    or Roman letters, an optional dot and optional white space; the
    token is spelt in any letter case, the dotted capital I and the
    dotless i standing for i, the long s for s and the Kelvin sign for
    k; the token end is the end of the line, or optional white space
    and a colon, whatever follows. *)
Theorem C6_pattern_rule_shape (line : str) :
  ~ In nl line ->
  (truthy_opt (pattern_rule line) = true <-> header_shape (strip line)).
Proof.
  intros Hl.
  assert (Hs : ~ In nl (strip line)) by (intros H; now apply in_strip in H).
  unfold pattern_rule, section_pattern. rewrite re_search_bol by exact Hs.
  rewrite first_match_some. now apply section_pattern_shape.
Qed.

(** ** Summaries *)

Lemma get_set_inv (k k' v v' : str) (d : dict) :
  get k (set k' v' d) = Some v -> (k = k' /\ v = v') \/ get k d = Some v.
Proof.
  destruct (str_eqb k k') eqn:E.
  - apply str_eqb_eq in E. subst. rewrite get_set_same. intros H.
    injection H as <-. now left.
  - apply str_eqb_neq in E. rewrite get_set_other by assumption. now right.
Qed.

Section Summaries.

Import Summarizer.

Variable world : Type.
Variable post : world -> str -> str -> str -> nat -> world * option str.
Variable self : PaperSummarizer.

Lemma kept_step (acc : world * dict) (item : str * str) :
  kept (snd acc) -> kept (snd (summary_step post self acc item)).
Proof.
  destruct acc as [w summaries], item as [section_name content].
  unfold summary_step. cbn [snd]. intros H.
  destruct (existsb _ excluded) eqn:E; cbn [negb snd]; auto.
  destruct (summarize_section post self w content section_name)
    as [w' summary].
  destruct (truthy summary) eqn:Es; cbn [snd]; auto.
  intros k v Hg. apply get_set_inv in Hg as [[-> ->] | Hg]; auto.
  split.
  - intros Hin.
    assert (Ex : existsb (str_eqb (lower section_name)) excluded = true).
    { apply existsb_exists. exists (lower section_name).
      split; auto. apply str_eqb_refl. }
    congruence.
  - intros ->. discriminate.
Qed.

Lemma kept_fold (sections : dict) (acc : world * dict) :
  kept (snd acc) ->
  kept (snd (fold_left (summary_step post self) sections acc)).
Proof.
  revert acc; induction sections as [|item sections IH]; intros acc H;
    simpl; auto using kept_step.
Qed.

Lemma kept_section_summaries (w : world) (sections : dict) :
  kept (snd (section_summaries post self w sections)).
Proof.
  apply kept_fold. intros k v H. discriminate.
Qed.

End Summaries.

(** C7: no per-section summary is stored under unknown, references or
    acknowledgments in any case, none is empty, and the result has the
    key overview; every other key of the result is a per-section
    summary. *)
Theorem C7_summary_keys
  (world : Type)
  (post : world -> str -> str -> str -> nat -> world * option str)
  (self : Summarizer.PaperSummarizer) (w : world)
  (pc : Summarizer.paper_content) :
  let sections :=
    match Summarizer.pc_sections pc with Some d => d | None => [] end in
  let result := snd (Summarizer.generate_full_summary post self w pc) in
  (forall k v,
      get k (snd (Summarizer.section_summaries post self w sections)) = Some v ->
      ~ In (lower k) Summarizer.excluded /\ v <> []) /\
  mem (py "overview") result = true /\
  (forall k v, get k result = Some v ->
               k = py "overview" \/
               (~ In (lower k) Summarizer.excluded /\ v <> [])).
Proof.
  intros sections result.
  pose proof (kept_section_summaries post self w sections) as Hk.
  split; [exact Hk|].
  unfold result, Summarizer.generate_full_summary. fold sections.
  destruct (Summarizer.section_summaries post self w sections)
    as [w1 summaries].
  destruct (Summarizer.generate_summary post self w1 _ 500) as [w2 overview].
  cbn [snd] in *. split.
  - unfold mem. now rewrite get_set_same.
  - intros k v Hg. apply get_set_inv in Hg as [[-> _] | Hg]; auto.
Qed.

(** ** Metadata *)


Lemma metadata_entries (info : list (str * value)) :
  fold_left (fun md key =>
               set (strip_chars (py "/") (lower key))
                   (decode_value (info_get key info (VStr []))) md)
            metadata_keys []
  = [ (py "title", decode_value (info_get (py "/Title") info (VStr [])));
      (py "author", decode_value (info_get (py "/Author") info (VStr [])));
      (py "creationdate",
       decode_value (info_get (py "/CreationDate") info (VStr []))) ].
Proof. reflexivity. Qed.




(** ** Instances *)

Ltac fresh_loaded := split; [vm_compute; lia | vm_compute; reflexivity].

Ltac no_dup :=
  vm_compute;
  repeat (apply NoDup_cons;
          [let H := fresh "H" in
           intros H; repeat (destruct H as [H | H]; [discriminate H|]); exact H
          |]);
  apply NoDup_nil.

(** C3 on the sample with two all-caps headers: the fallback's
    dictionary is returned. *)
Lemma C3_witness :
  fresh (fst (loaded Samples.two_caps)) (snd (loaded Samples.two_caps)) /\
  returned (fst (loaded Samples.two_caps)) (snd (loaded Samples.two_caps))
    = fallback_sections Samples.two_caps.
Proof.
  assert (F : fresh (fst (loaded Samples.two_caps))
                    (snd (loaded Samples.two_caps))) by fresh_loaded.
  split; [exact F|].
  apply (proj1 (C3_fallback_replaces F)). split; vm_compute; lia.
Defined.

(** C1 on the numbered sample: three runs, three entries. *)
Lemma C1_witness :
  fresh (fst (loaded Samples.numbered)) (snd (loaded Samples.numbered)) /\
  returned (fst (loaded Samples.numbered)) (snd (loaded Samples.numbered))
    = [(py "unknown", py "preface"); (py "introduction", py "body one");
       (py "methodology", py "body two")].
Proof.
  assert (F : fresh (fst (loaded Samples.numbered))
                    (snd (loaded Samples.numbered))) by fresh_loaded.
  split; [exact F|].
  destruct (C1_runs_partition F) as (_ & _ & H).
  rewrite H.
  - vm_compute. reflexivity.
  - no_dup.
  - left. vm_compute. lia.
Defined.

(** C2 on a text without headers: the one key unknown; and on the one
    line ABSTRACT, a header and a candidate header: the map has a key. *)
Lemma C2_witness :
  fresh (fst (loaded Samples.plain)) (snd (loaded Samples.plain)) /\
  returned (fst (loaded Samples.plain)) (snd (loaded Samples.plain)) <> [] /\
  returned (fst (loaded Samples.plain)) (snd (loaded Samples.plain))
    = [(py "unknown", strip Samples.plain)] /\
  (forall l, In l (split_nl Samples.caps_only) -> is_header l = true) /\
  returned (fst (loaded Samples.caps_only)) (snd (loaded Samples.caps_only))
    <> [].
Proof.
  assert (F : fresh (fst (loaded Samples.plain))
                    (snd (loaded Samples.plain))) by fresh_loaded.
  assert (G : fresh (fst (loaded Samples.caps_only))
                    (snd (loaded Samples.caps_only))) by fresh_loaded.
  split; [exact F|].
  destruct (C2_at_least_unknown F) as (H1 & H2).
  destruct (C2_at_least_unknown G) as (H3 & _).
  split; [|split; [|split]].
  - apply H1. left. exists (py "Some text,"). split; vm_compute; auto.
  - apply H2.
    + intros l Hl. vm_compute in Hl.
      destruct Hl as [<- | [<- | []]]; vm_compute; reflexivity.
    + vm_compute. reflexivity.
  - intros l Hl. vm_compute in Hl. destruct Hl as [<- | []].
    vm_compute. reflexivity.
  - apply H3. right. vm_compute. discriminate.
Defined.

(** C6 on the line 2.Introduction, which has the shape of a header. *)
Lemma C6_witness :
  ~ In nl (py "2.Introduction") /\
  truthy_opt (pattern_rule (py "2.Introduction")) = true /\
  header_shape (strip (py "2.Introduction")).
Proof.
  assert (N : ~ In nl (py "2.Introduction")) by not_in_list.
  split; [exact N|]. split; [vm_compute; reflexivity|].
  apply (proj1 (@C6_pattern_rule_shape (py "2.Introduction") N)). vm_compute. reflexivity.
Defined.


(** C10 on a repeated header, and on a header directly followed by a
    header. *)
Lemma C10_witness :
  get (py "abstract")
      (returned (fst (loaded Samples.twice)) (snd (loaded Samples.twice)))
    = Some (py "c") /\
  get (py "abstract")
      (returned (fst (loaded Samples.header_pair))
                (snd (loaded Samples.header_pair)))
    = None.
Proof.
  assert (F1 : fresh (fst (loaded Samples.twice)) (snd (loaded Samples.twice)))
    by fresh_loaded.
  assert (F2 : fresh (fst (loaded Samples.header_pair))
                     (snd (loaded Samples.header_pair))) by fresh_loaded.
  split.
  - destruct (C10_later_run_overwrites F1) as [H1 _].
    apply (H1 [] (py "abstract") [py "b"] (py "abstract") [py "c"] []
              (py "abstract")).
    + vm_compute. reflexivity.
    + vm_compute. reflexivity.
    + vm_compute. reflexivity.
    + intros l [<- | []]. vm_compute. reflexivity.
    + discriminate.
    + now left.
    + intros l [].
    + right. vm_compute. lia.
  - destruct (C10_later_run_overwrites F2) as [_ H2].
    apply (H2 [] (py "abstract") (py "introduction") [py "x"] (py "abstract")).
    + vm_compute. reflexivity.
    + vm_compute. reflexivity.
    + vm_compute. discriminate.
    + intros l [<- | [<- | []]]; vm_compute; discriminate.
    + right. vm_compute. lia.
Defined.

(** * Further properties of the code *)

(** ** Case and trimming *)

Lemma lstrip_idem (s : str) : lstrip (lstrip s) = lstrip s.
Proof.
  induction s as [|c s IH]; simpl; auto.
  destruct (isspace c) eqn:E; auto. simpl. now rewrite E.
Qed.

Lemma lstrip_snoc (s : str) (c : char) :
  isspace c = false -> lstrip (s ++ [c]) = lstrip s ++ [c].
Proof.
  intros Hc. induction s as [|x s IH]; simpl.
  - now rewrite Hc.
  - destruct (isspace x); auto.
Qed.

Lemma rstrip_idem (s : str) : rstrip (rstrip s) = rstrip s.
Proof.
  unfold rstrip. now rewrite rev_involutive, lstrip_idem.
Qed.

Lemma rstrip_cons (c : char) (s : str) :
  isspace c = false -> rstrip (c :: s) = c :: rstrip s.
Proof.
  intros Hc. unfold rstrip. simpl.
  rewrite lstrip_snoc by assumption. rewrite rev_app_distr. reflexivity.
Qed.

(** The head of a text trimmed on the left is no white space. *)
Lemma lstrip_head (s : str) :
  lstrip s = [] \/ exists c t, lstrip s = c :: t /\ isspace c = false.
Proof.
  induction s as [|x s IH]; simpl; auto.
  destruct (isspace x) eqn:E; auto. right. now exists x, s.
Qed.

(** Trimming a trimmed text changes nothing. *)
Lemma strip_idem (s : str) : strip (strip s) = strip s.
Proof.
  unfold strip. destruct (lstrip_head s) as [E | (c & t & E & Hc)]; rewrite E.
  - reflexivity.
  - rewrite rstrip_cons by assumption. simpl. rewrite Hc.
    rewrite rstrip_cons by assumption. now rewrite rstrip_idem.
Qed.

(** ** Keys of dictionaries *)

Lemma mem_keys (k : str) (d : dict) : mem k d = true <-> In k (keys d).
Proof.
  unfold mem. induction d as [|[k' v] d IH]; simpl.
  - split; [discriminate | tauto].
  - destruct (str_eqb k k') eqn:E.
    + apply str_eqb_eq in E. subst. split; auto.
    + apply str_eqb_neq in E. rewrite IH. split; auto.
      intros [H | H]; auto. congruence.
Qed.

Lemma keys_set (k v : str) (d : dict) :
  keys (set k v d) = if mem k d then keys d else keys d ++ [k].
Proof.
  unfold mem. induction d as [|[k' v'] d IH]; simpl; auto.
  destruct (str_eqb k k') eqn:E; simpl.
  - apply str_eqb_eq in E. now subst.
  - rewrite IH. now destruct (get k d).
Qed.

Lemma in_keys_set (k k' v : str) (d : dict) :
  In k' (keys (set k v d)) <-> k' = k \/ In k' (keys d).
Proof.
  rewrite keys_set. destruct (mem k d) eqn:E.
  - apply mem_keys in E. split; auto. intros [-> | H]; auto.
  - rewrite in_app_iff. simpl. intuition.
Qed.

Lemma nodup_keys_set (k v : str) (d : dict) :
  NoDup (keys d) -> NoDup (keys (set k v d)).
Proof.
  intros H. rewrite keys_set. destruct (mem k d) eqn:E; auto.
  assert (Hn : ~ In k (keys d)).
  { intros Hin. apply mem_keys in Hin. congruence. }
  clear E. induction (keys d) as [|x l IH]; simpl.
  - constructor; [tauto | constructor].
  - inversion H; subst. constructor.
    + rewrite in_app_iff. simpl in *. intuition.
    + apply IH; auto. simpl in Hn. tauto.
Qed.

Lemma get_not_in_keys (k : str) (d : dict) : ~ In k (keys d) -> get k d = None.
Proof.
  intros H. destruct (get k d) eqn:E; auto.
  exfalso. apply H. apply mem_keys. unfold mem. now rewrite E.
Qed.

Lemma get_in (k v : str) (d : dict) : get k d = Some v -> In (k, v) d.
Proof.
  induction d as [|[k' v'] d IH]; simpl; [discriminate|].
  destruct (str_eqb k k') eqn:E; auto.
  apply str_eqb_eq in E. subst. intros H. injection H as ->. now left.
Qed.

(** Two dictionaries with the same keys in the same order and the same
    value for each key are equal. *)
Lemma dict_ext (d1 d2 : dict) :
  keys d1 = keys d2 -> NoDup (keys d1) ->
  (forall k, get k d1 = get k d2) -> d1 = d2.
Proof.
  revert d2; induction d1 as [|[k v] d1 IH]; intros [|[k2 v2] d2] Hk Hn Hg;
    simpl in *; try discriminate; auto.
  injection Hk as <- Hk. inversion Hn; subst.
  pose proof (Hg k) as Hv. rewrite str_eqb_refl in Hv. injection Hv as <-.
  f_equal. apply IH; auto.
  intros k'. destruct (str_eqb k' k) eqn:E.
  - apply str_eqb_eq in E. subst k'.
    rewrite !get_not_in_keys; auto. now rewrite <- Hk.
  - specialize (Hg k'). now rewrite E in Hg.
Qed.

Lemma in_set (k v : str) (d : dict) (kv : str * str) :
  In kv (set k v d) -> kv = (k, v) \/ In kv d.
Proof.
  induction d as [|[k' v'] d IH]; simpl.
  - intros [<- | []]. now left.
  - destruct (str_eqb k k'); simpl; intros [<- | H]; auto.
    apply IH in H. tauto.
Qed.

(** ** What the substitution keeps *)

Lemma first_match_suffix (r : regex) (b a : str) (c : option str) (q : pos) :
  first_match r (Pos b a) = Some (c, q) -> exists w, a = w ++ after q.
Proof.
  intros H. apply first_match_in in H.
  apply mt_matches in H as (w & a' & -> & -> & _). now exists w.
Qed.

Lemma sub_from_forall (P : char -> Prop) (r : regex) (fuel : nat) (b a : str) :
  Forall P a -> Forall P (sub_from fuel r b a).
Proof.
  revert b a; induction fuel as [|fuel IH]; intros b a Ha; [exact Ha|].
  cbn [sub_from].
  assert (Hc : Forall P match a with
                        | c :: a1 => c :: sub_from fuel r (c :: b) a1
                        | [] => []
                        end).
  { destruct a as [|c a1]; auto. inversion Ha; subst. constructor; auto. }
  destruct (first_match r (Pos b a)) as [[c q]|] eqn:E; auto.
  destruct (length (after q) <? length a); auto.
  apply IH. apply first_match_suffix in E as [w E].
  rewrite E in Ha. apply Forall_app in Ha. tauto.
Qed.

Lemma sub_from_length (r : regex) (fuel : nat) (b a : str) :
  length (sub_from fuel r b a) <= length a.
Proof.
  revert b a; induction fuel as [|fuel IH]; intros b a; [reflexivity|].
  cbn [sub_from].
  assert (Hc : length match a with
                      | c :: a1 => c :: sub_from fuel r (c :: b) a1
                      | [] => []
                      end <= length a).
  { destruct a as [|c a1]; auto. simpl. specialize (IH (c :: b) a1). lia. }
  destruct (first_match r (Pos b a)) as [[c q]|] eqn:E; auto.
  destruct (length (after q) <? length a) eqn:El; auto.
  apply Nat.ltb_lt in El. specialize (IH (before q) (after q)). lia.
Qed.

(** A cleaned header is its own lower-case form; it is at most twice
    as long as the header, and no longer than the header when the
    header has no dotted capital I. *)
Lemma clean_header_lower (header : str) :
  lower (clean_header header) = clean_header header /\
  length (clean_header header) <= 2 * length header /\
  (~ In 304%N header -> length (clean_header header) <= length header).
Proof.
  unfold clean_header, re_sub_empty. split; [|split].
  - apply lower_fixed. apply sub_from_forall. apply lower_stable.
  - etransitivity; [apply sub_from_length|]. apply length_lower_from.
  - intros Hn. etransitivity; [apply sub_from_length|].
    unfold lower. now rewrite (proj2 (length_lower_from [] header)).
Qed.

(** ** The candidate headers of the fallback pass *)

Lemma in_combine_seq (A : Type) (l : list A) (s i : nat) (x : A) :
  In (i, x) (combine (seq s (length l)) l) ->
  s <= i < s + length l /\ nth_error l (i - s) = Some x.
Proof.
  revert s; induction l as [|y l IH]; intros s; simpl; [tauto|].
  intros [E | H].
  - injection E as <- <-. split; [lia|]. now rewrite Nat.sub_diag.
  - apply IH in H as [H1 H2]. split; [lia|].
    replace (i - s) with (S (i - S s)) by lia. exact H2.
Qed.

(** A candidate is a line of the text, trimmed, shorter than 100
    characters, and followed by a blank line or by nothing. *)
Lemma in_potential_sections (lines : list str) (i : nat) (header : str) :
  In (i, header) (potential_sections lines) ->
  i < length lines /\
  (exists line, nth_error lines i = Some line /\ header = strip line) /\
  length header < 100 /\
  (length lines <= i + 1 \/ strip (nth (i + 1) lines []) = []).
Proof.
  unfold potential_sections. intros H.
  apply in_flat_map in H as ([j line] & Hin & H). cbn [fst snd] in H.
  destruct (likely_header lines j (strip line)) eqn:E; [|destruct H].
  destruct H as [H | []]. injection H as -> <-.
  apply in_combine_seq in Hin as [Hi Hn]. rewrite Nat.sub_0_r in Hn.
  unfold likely_header in E.
  apply andb_true_iff in E as [E E3]. apply andb_true_iff in E as [E1 _].
  split; [lia|]. split; [now exists line|]. split.
  - now apply Nat.ltb_lt.
  - apply orb_true_iff in E3 as [E3 | E3].
    + left. now apply Nat.leb_le.
    + right. destruct (strip (nth (i + 1) lines [])); [reflexivity|discriminate].
Qed.

Lemma keys_build_sections (lines : list str) (ps : list (nat * str))
                          (d : dict) (k : str) :
  In k (keys (build_sections lines ps d)) ->
  In k (keys d) \/ exists i header, In (i, header) ps /\ k = clean_header header.
Proof.
  revert d; induction ps as [|[i header] ps IH]; intros d; simpl; auto.
  intros H. apply IH in H as [H | (j & h & Hin & ->)].
  - apply in_keys_set in H as [-> | H]; auto.
    right. exists i, header. auto.
  - right. exists j, h. auto.
Qed.

Lemma length_build_sections (lines : list str) (ps : list (nat * str))
                            (d : dict) :
  length (build_sections lines ps d) <= length d + length ps.
Proof.
  revert d; induction ps as [|[i header] ps IH]; intros d; simpl; [lia|].
  etransitivity; [apply IH|].
  assert (H : length (set (clean_header header)
                (strip (join_nl (slice lines (i + 1)
                   match ps with (n, _) :: _ => n | [] => length lines end)))
                d) <= S (length d)).
  { generalize (clean_header header). intros k.
    match goal with |- length (set k ?v d) <= _ => generalize v end. intros v.
    clear. induction d as [|[k' v'] d IHd]; simpl; auto.
    destruct (str_eqb k k'); simpl; lia. }
  lia.
Qed.

Lemma nodup_keys_build_sections (lines : list str) (ps : list (nat * str))
                                (d : dict) :
  NoDup (keys d) -> NoDup (keys (build_sections lines ps d)).
Proof.
  revert d; induction ps as [|[i header] ps IH]; intros d H; simpl; auto.
  apply IH. now apply nodup_keys_set.
Qed.

Lemma values_build_sections (lines : list str) (ps : list (nat * str))
                            (d : dict) :
  Forall (fun kv => strip (snd kv) = snd kv) d ->
  Forall (fun kv => strip (snd kv) = snd kv) (build_sections lines ps d).
Proof.
  revert d; induction ps as [|[i header] ps IH]; intros d H; simpl; auto.
  apply IH. apply Forall_forall. intros kv Hin.
  apply in_set in Hin as [-> | Hin].
  - simpl. apply strip_idem.
  - rewrite Forall_forall in H. now apply H.
Qed.

(** ** Keys and values of the primary pass *)

Lemma keys_fold_store (segs : list (str * list str)) (d : dict) (k : str) :
  In k (keys (fold_left store_run segs d)) ->
  In k (keys d) \/ exists seg, In seg segs /\ fst seg = k.
Proof.
  revert d; induction segs as [|seg segs IH]; intros d; simpl; auto.
  intros H. apply IH in H as [H | (s & Hin & <-)].
  - unfold store_run in H. destruct (nonempty_run seg); auto.
    apply in_keys_set in H as [-> | H]; auto.
    right. exists seg. auto.
  - right. exists s. auto.
Qed.

Lemma nodup_keys_fold_store (segs : list (str * list str)) (d : dict) :
  NoDup (keys d) -> NoDup (keys (fold_left store_run segs d)).
Proof.
  revert d; induction segs as [|seg segs IH]; intros d H; simpl; auto.
  apply IH. unfold store_run. destruct (nonempty_run seg); auto.
  now apply nodup_keys_set.
Qed.

Lemma values_fold_store (segs : list (str * list str)) (d : dict) :
  Forall (fun kv => strip (snd kv) = snd kv) d ->
  Forall (fun kv => strip (snd kv) = snd kv) (fold_left store_run segs d).
Proof.
  revert d; induction segs as [|seg segs IH]; intros d H; simpl; auto.
  apply IH. unfold store_run. destruct (nonempty_run seg); auto.
  apply Forall_forall. intros kv Hin.
  apply in_set in Hin as [-> | Hin].
  - simpl. apply strip_idem.
  - rewrite Forall_forall in H. now apply H.
Qed.

(** A key of the primary pass was there before, or is unknown, or is
    the name that a header line of the text gives. *)
Lemma keys_primary_pass (d : dict) (text k : str) :
  In k (keys (primary_pass d text)) ->
  In k (keys d) \/ k = py "unknown" \/
  exists l, In l (split_nl text) /\ header_name l = Some k.
Proof.
  unfold primary_pass. rewrite primary_lines_runs. intros H.
  apply keys_fold_store in H as [H | (seg & Hin & <-)]; auto.
  right. apply runs_names in Hin as [-> | (l & Hl & Hn)]; auto.
  right. now exists l.
Qed.

Lemma length_keys (d : dict) : length (keys d) = length d.
Proof. apply length_map. Qed.

(** The characters of a line are characters of the text. *)
Lemma in_split_nl (s l : str) (c : char) :
  In l (split_nl s) -> In c l -> In c s.
Proof.
  revert l; induction s as [|x s IH]; intros l; simpl.
  - intros [<- | []] [].
  - destruct (char_eqb x nl).
    + intros [<- | H] Hc; [destruct Hc|]. right. now apply IH with l.
    + pose proof (split_nl_not_nil s) as Hn.
      destruct (split_nl s) as [|l0 ls]; [congruence|].
      intros [<- | H] Hc.
      * destruct Hc as [<- | Hc]; auto. right. apply IH with l0; auto.
        now left.
      * right. apply IH with l; auto. now right.
Qed.

(** Run on an empty map, the primary pass names its sections unknown
    or by the lower-case form of a text that spells a token of the
    vocabulary.  On a text without the dotted capital I, the dotless i
    and the long s, these names are the tokens themselves, so that the
    pass stores at most 15 entries. *)
Theorem primary_pass_names (text : str) :
  (forall k, mem k (primary_pass [] text) = true ->
             k = py "unknown" \/ exists t, is_token t /\ k = lower t) /\
  (plain_letters text ->
   (forall k, mem k (primary_pass [] text) = true ->
              k = py "unknown" \/ In k common_sections) /\
   length (primary_pass [] text) <= 15).
Proof.
  split.
  - intros k Hk. apply mem_keys, keys_primary_pass in Hk
      as [[] | [-> | (l & _ & Hl)]]; auto.
    right. apply header_name_token in Hl as (t & Ht & -> & _). now exists t.
  - intros Hp.
    assert (H : forall k, In k (keys (primary_pass [] text)) ->
                          In k (py "unknown" :: common_sections)).
    { intros k Hk. apply keys_primary_pass in Hk as [[] | [-> | (l & Hl & Hk)]];
        [now left | right].
      apply header_name_in_vocabulary with l; auto.
      intros c Hc. apply Hp. now apply in_split_nl with l. }
    split.
    + intros k Hk. apply mem_keys in Hk. apply H in Hk as [<- | Hk]; auto.
    + rewrite <- length_keys.
      change 15 with (length (py "unknown" :: common_sections)).
      apply NoDup_incl_length; [|exact H].
      unfold primary_pass. rewrite primary_lines_runs.
      apply nodup_keys_fold_store. constructor.
Qed.

Lemma fallback_key_shape (text k : str) :
  In k (keys (fallback_sections text)) ->
  lower k = k /\ length k < 200 /\ (~ In 304%N text -> length k < 100).
Proof.
  unfold fallback_sections. cbv zeta. intros Hk.
  apply keys_build_sections in Hk as [[] | (i & header & Hin & ->)].
  apply in_potential_sections in Hin as (_ & (line & Hn & ->) & Hl & _).
  destruct (clean_header_lower (strip line)) as (H1 & H2 & H3).
  split; [exact H1|]. split; [lia|].
  intros Ht. apply Nat.le_lt_trans with (length (strip line)); [|exact Hl].
  apply H3. intros Hc. apply Ht.
  apply in_split_nl with line; [|now apply in_strip].
  now apply nth_error_In with i.
Qed.

(** Every section name of the fallback pass is its own lower-case
    form and shorter than 200 characters, shorter than 100 when the
    text has no dotted capital I, whose lower-case form is two
    characters; the fallback builds at most one section for each line
    of the text. *)
Theorem fallback_names (text : str) :
  (forall k, mem k (fallback_sections text) = true ->
             lower k = k /\ length k < 200 /\
             (~ In 304%N text -> length k < 100)) /\
  length (fallback_sections text) <= length (split_nl text).
Proof.
  unfold fallback_sections. cbv zeta. set (lines := split_nl text). split.
  - intros k Hk. apply mem_keys in Hk. now apply fallback_key_shape.
  - etransitivity; [apply length_build_sections|]. simpl.
    unfold potential_sections.
    assert (H : forall ils : list (nat * str),
               length (flat_map
                 (fun il => if likely_header lines (fst il) (strip (snd il))
                            then [(fst il, strip (snd il))] else []) ils)
               <= length ils).
    { induction ils as [|il ils IH]; simpl; auto.
      rewrite length_app. destruct (likely_header _ _ _); simpl; lia. }
    etransitivity; [apply H|].
    rewrite length_combine, length_seq. lia.
Qed.

Lemma lower_unknown : lower (py "unknown") = py "unknown".
Proof. vm_compute. reflexivity. Qed.

(** Every key of the map returned is its own lower-case form. *)
Lemma returned_keys_lower (h : store) (self : PdfProcessor) (k : str) :
  fresh h self -> In k (keys (returned h self)) -> lower k = k.
Proof.
  intros Hf Hk. destruct (returned_fresh Hf) as [E | [E _]]; rewrite E in Hk.
  - apply keys_primary_pass in Hk as [[] | [-> | (l & _ & Hl)]].
    + apply lower_unknown.
    + apply header_name_token in Hl as (t & _ & -> & _). apply lower_idem.
  - now apply fallback_key_shape in Hk.
Qed.

Lemma identify_sections_ref (h h' : store) (self self' : PdfProcessor) (r : ref) :
  identify_sections h self = (h', self', r) ->
  r = sections self' /\ returned h self = deref h' r.
Proof.
  unfold returned. intros E. rewrite E. unfold identify_sections in E.
  destruct (if _ <=? 2 then _ else _) as [h2 self2].
  injection E as <- <- <-. auto.
Qed.

(** After [identify_sections] on a fresh processor, [get_section]
    finds every section of the map returned under every name whose
    lower-case form is that of the key: the keys are their own
    lower-case forms, and [get_section] looks for the lower-case form of
    the name. *)
Theorem get_section_any_case (h h' : store) (self self' : PdfProcessor)
                             (r : ref) (name k v : str) :
  fresh h self ->
  identify_sections h self = (h', self', r) ->
  get k (deref h' r) = Some v ->
  lower name = lower k ->
  get_section h' self' name = Some v.
Proof.
  intros Hf Hi Hg Hn. apply identify_sections_ref in Hi as [-> Hr].
  unfold get_section. rewrite Hn.
  assert (Hk : lower k = k).
  { apply (returned_keys_lower (h:=h) (self:=self)); auto.
    rewrite Hr. apply mem_keys. unfold mem. now rewrite Hg. }
  now rewrite Hk.
Qed.

(** A header spelt with the long s opens a section whose key keeps the
    long s, which is its own lower-case form: the key is no token of
    the vocabulary, [get_section] does not find the section under the
    name ABSTRACT, and finds it under the capitals that keep the
    long s. *)
Theorem long_s_section :
  let key := [97; 98; 383; 116; 114; 97; 99; 116]%N in
  let '(h1, self1, r1) :=
    identify_sections (fst (loaded Samples.long_s))
                      (snd (loaded Samples.long_s)) in
  deref h1 r1 = [(key, py "body")] /\
  ~ In key common_sections /\
  get_section h1 self1 (py "ABSTRACT") = None /\
  get_section h1 self1 [65; 66; 383; 84; 82; 65; 67; 84]%N = Some (py "body").
Proof.
  vm_compute. repeat split.
  intros H. repeat (destruct H as [H | H]; [discriminate H|]). exact H.
Qed.

(** No body in the map returned on a fresh processor begins or ends
    with white space: trimming it changes nothing. *)
Theorem returned_bodies_trimmed (h : store) (self : PdfProcessor) (k v : str) :
  fresh h self -> get k (returned h self) = Some v -> strip v = v.
Proof.
  intros Hf Hg. apply get_in in Hg.
  assert (H : Forall (fun kv => strip (snd kv) = snd kv) (returned h self)).
  { destruct (returned_fresh Hf) as [E | [E _]]; rewrite E.
    - unfold primary_pass. rewrite primary_lines_runs.
      apply values_fold_store. constructor.
    - apply values_build_sections. constructor. }
  rewrite Forall_forall in H. now apply (H (k, v)).
Qed.

(** [identify_sections] never returns fewer entries than the section
    map held before the call. *)
Theorem identify_sections_grows (h : store) (self : PdfProcessor) :
  valid h self ->
  length (deref h (sections self)) <= length (returned h self).
Proof.
  intros Hv. rewrite (returned_eq Hv). cbv zeta.
  set (d := deref h (sections self)).
  assert (Hp : length d <= length (primary_pass d (full_text self))).
  { unfold primary_pass. rewrite primary_lines_runs. apply length_fold_store. }
  destruct (_ <=? 2); simpl; auto.
  destruct (_ <? _) eqn:E; auto.
  apply Nat.ltb_lt in E. lia.
Qed.

(** ** A second call of [identify_sections] *)

Lemma get_fold_congr (t : str) (segs : list (str * list str)) (d d' : dict) :
  get t d = get t d' ->
  get t (fold_left store_run segs d) = get t (fold_left store_run segs d').
Proof.
  revert d d'; induction segs as [|seg segs IH]; intros d d' H; simpl; auto.
  apply IH. unfold store_run. destruct (nonempty_run seg); auto.
  destruct (str_eqb t (fst (entry seg))) eqn:E.
  - apply str_eqb_eq in E. subst t. now rewrite !get_set_same.
  - apply str_eqb_neq in E. now rewrite !get_set_other.
Qed.

(** The value under the name of a non-empty run does not depend on the
    map the pass started from. *)
Lemma get_fold_stable (t : str) (segs : list (str * list str)) (d d' : dict) :
  (exists seg, In seg segs /\ fst seg = t /\ nonempty_run seg = true) ->
  get t (fold_left store_run segs d) = get t (fold_left store_run segs d').
Proof.
  revert d d'; induction segs as [|seg segs IH]; intros d d' (s & Hin & Ht & Hn).
  - destruct Hin.
  - simpl. destruct Hin as [-> | Hin].
    + apply get_fold_congr. unfold store_run. rewrite Hn.
      unfold entry. simpl. rewrite Ht. now rewrite !get_set_same.
    + apply IH. now exists s.
Qed.

Lemma in_keys_fold_store (segs : list (str * list str)) (d : dict) (k : str) :
  In k (keys d) -> In k (keys (fold_left store_run segs d)).
Proof.
  intros H. apply mem_keys in H. apply mem_keys.
  revert d H; induction segs as [|seg segs IH]; intros d H; simpl; auto.
  apply IH. unfold store_run. destruct (nonempty_run seg); auto using mem_set.
Qed.

Lemma run_in_keys_fold_store (segs : list (str * list str)) (d : dict)
                             (seg : str * list str) :
  In seg segs -> nonempty_run seg = true ->
  In (fst seg) (keys (fold_left store_run segs d)).
Proof.
  revert d; induction segs as [|s segs IH]; intros d Hin Hn; [destruct Hin|].
  simpl. destruct Hin as [-> | Hin]; [|now apply IH].
  apply in_keys_fold_store. unfold store_run. rewrite Hn.
  apply in_keys_set. now left.
Qed.

Lemma keys_fold_present (segs : list (str * list str)) (d : dict) :
  (forall seg, In seg segs -> nonempty_run seg = true -> In (fst seg) (keys d)) ->
  keys (fold_left store_run segs d) = keys d.
Proof.
  revert d; induction segs as [|seg segs IH]; intros d H; simpl; auto.
  assert (E : keys (store_run d seg) = keys d).
  { unfold store_run. destruct (nonempty_run seg) eqn:En; auto.
    rewrite keys_set. unfold entry. cbn [fst].
    assert (Hm : mem (fst seg) d = true)
      by (apply mem_keys; apply H; [now left | assumption]).
    now rewrite Hm. }
  rewrite IH; auto.
  intros s Hin Hn. rewrite E. apply H; [now right | assumption].
Qed.

(** The primary pass run again on its own result changes nothing. *)
Lemma primary_lines_again (d : dict) (lines : list str) :
  NoDup (keys d) ->
  primary_lines (primary_lines d lines) lines = primary_lines d lines.
Proof.
  intros Hd. rewrite !primary_lines_runs.
  set (segs := runs (py "unknown") [] lines).
  set (d1 := fold_left store_run segs d).
  apply dict_ext.
  - apply keys_fold_present. intros seg Hin Hn.
    now apply run_in_keys_fold_store.
  - apply nodup_keys_fold_store. now apply nodup_keys_fold_store.
  - intros t.
    destruct (existsb (fun seg => str_eqb (fst seg) t && nonempty_run seg) segs)
      eqn:E.
    + apply existsb_exists in E as (seg & Hin & Hs).
      apply andb_true_iff in Hs as [Hs Hn]. apply str_eqb_eq in Hs.
      apply get_fold_stable. now exists seg.
    + apply get_fold_store_other. intros seg Hin.
      destruct (str_eqb (fst seg) t) eqn:Et.
      * right. pose proof (existsb_exists
          (fun seg => str_eqb (fst seg) t && nonempty_run seg) segs) as [_ Hx].
        destruct (snd seg) eqn:Es; auto. exfalso.
        assert (Hc : existsb (fun seg => str_eqb (fst seg) t && nonempty_run seg)
                       segs = true).
        { apply Hx. exists seg. split; auto. rewrite Et.
          unfold nonempty_run. now rewrite Es. }
        congruence.
      * left. now apply str_eqb_neq.
Qed.

Lemma identify_sections_kept (h : store) (self : PdfProcessor) :
  valid h self ->
  let p := primary_pass (deref h (sections self)) (full_text self) in
  2 < length p \/ ~ length p < length (fallback_sections (full_text self)) ->
  identify_sections h self = (assign h (sections self) p, self, sections self).
Proof.
  intros Hv p Hk. unfold identify_sections. fold p.
  rewrite (deref_assign _ _ Hv).
  destruct (length p <=? 2) eqn:E2; [|reflexivity].
  unfold try_alternative_section_detection.
  destruct (potential_sections (split_nl (full_text self))) as [|c ps] eqn:Eps;
    [reflexivity|].
  cbn [truthy]. rewrite (deref_assign _ _ Hv).
  destruct Hk as [Hk | Hk]; [apply Nat.leb_le in E2; lia|].
  unfold fallback_sections in Hk. cbv zeta in Hk. rewrite Eps in Hk.
  apply Nat.ltb_nlt in Hk. now rewrite Hk.
Qed.

(** When the first call on a fresh processor keeps the primary result
    (more than 2 entries, or a fallback that finds no more), a second
    call returns the same dictionary object with the same content. *)
Theorem identify_sections_twice_kept (h : store) (self : PdfProcessor) :
  fresh h self ->
  2 < length (primary_pass [] (full_text self)) \/
  ~ length (primary_pass [] (full_text self))
      < length (fallback_sections (full_text self)) ->
  let '(h1, self1, r1) := identify_sections h self in
  let '(h2, self2, r2) := identify_sections h1 self1 in
  r2 = r1 /\ deref h2 r2 = deref h1 r1 /\
  deref h1 r1 = primary_pass [] (full_text self).
Proof.
  intros [Hv He] Hk.
  pose proof (identify_sections_kept Hv) as H1. cbv zeta in H1.
  rewrite He in H1. rewrite (H1 Hk).
  set (p := primary_pass [] (full_text self)) in *.
  set (h1 := assign h (sections self) p).
  assert (Hv1 : valid h1 self) by (unfold valid, h1; now rewrite length_assign).
  assert (Hd : deref h1 (sections self) = p) by (apply deref_assign; exact Hv).
  assert (Hp : primary_pass p (full_text self) = p).
  { unfold p, primary_pass. apply primary_lines_again. constructor. }
  pose proof (identify_sections_kept Hv1) as H2. cbv zeta in H2.
  rewrite Hd, Hp in H2. rewrite (H2 Hk).
  repeat split; auto.
  rewrite deref_assign by (unfold h1; now rewrite length_assign).
  now rewrite Hd.
Qed.

(** ** When the fallback pass can replace the primary result *)

Lemma nodup_combine_seq (A : Type) (l : list A) (s : nat) :
  NoDup (map fst (combine (seq s (length l)) l)).
Proof.
  revert s; induction l as [|x l IH]; intros s; simpl; constructor; auto.
  intros H. apply in_map_iff in H as ([i y] & E & Hin). simpl in E. subst i.
  apply in_combine_seq in Hin as [Hi _]. lia.
Qed.

Lemma nodup_potential_sections (lines : list str) :
  NoDup (map fst (potential_sections lines)).
Proof.
  unfold potential_sections.
  pose proof (nodup_combine_seq lines 0) as H.
  induction (combine (seq 0 (length lines)) lines) as [|il ils IH]; simpl;
    [constructor|].
  inversion H; subst. rewrite map_app. specialize (IH H3).
  destruct (likely_header lines (fst il) (strip (snd il))); simpl; auto.
  constructor; auto. intros Hin. apply H2.
  apply in_map_iff in Hin as ([i y] & E & Hin). simpl in E. subst i.
  apply in_flat_map in Hin as (il' & Hil & Hin).
  destruct (likely_header lines (fst il') (strip (snd il'))); [|destruct Hin].
  destruct Hin as [E | []]. injection E as E _. rewrite <- E.
  now apply in_map.
Qed.

(** Without a blank line only the last line can be a candidate. *)
Lemma potential_sections_no_blank (lines : list str) :
  (forall l, In l lines -> strip l <> []) ->
  length (potential_sections lines) <= 1.
Proof.
  intros Hb.
  assert (H : forall i header, In (i, header) (potential_sections lines) ->
                               i + 1 = length lines).
  { intros i header Hin.
    apply in_potential_sections in Hin as (Hi & _ & _ & [Hl | Hl]); [lia|].
    destruct (Nat.lt_ge_cases (i + 1) (length lines)) as [Hlt | Hge]; [|lia].
    exfalso. apply (Hb (nth (i + 1) lines [])); auto. now apply nth_In. }
  pose proof (nodup_potential_sections lines) as Hn.
  destruct (potential_sections lines) as [|[i x] [|[j y] ps]]; simpl; auto.
  exfalso. pose proof (H i x (or_introl eq_refl)) as Hi.
  pose proof (H j y (or_intror (or_introl eq_refl))) as Hj.
  simpl in Hn. inversion Hn; subst. apply H2. left. lia.
Qed.

(** On a text without a blank line in which some line is not a header,
    the fallback pass cannot replace the primary result. *)
Theorem fallback_needs_blank_line (h : store) (self : PdfProcessor) :
  fresh h self ->
  (forall l, In l (split_nl (full_text self)) -> strip l <> []) ->
  (exists l, In l (split_nl (full_text self)) /\ is_header l = false) ->
  returned h self = primary_pass [] (full_text self).
Proof.
  intros Hf Hb Hl. apply (returned_primary_kept Hf). right.
  pose proof (primary_pass_not_nil _ Hl) as Hp.
  pose proof (potential_sections_no_blank _ Hb) as Hps.
  pose proof (length_build_sections (split_nl (full_text self))
                (potential_sections (split_nl (full_text self))) []) as Hfb.
  unfold fallback_sections. cbv zeta. simpl in Hfb.
  destruct (primary_pass [] (full_text self)); [congruence|]. simpl. lia.
Qed.

(** ** The store *)

Lemma deref_assign_other (h : store) (r r0 : ref) (d : dict) :
  r0 <> r -> deref (assign h r d) r0 = deref h r0.
Proof.
  unfold deref. revert r r0; induction h as [|x h IH]; intros [|r] [|r0] H;
    simpl; auto; try congruence.
Qed.

Lemma deref_app (h : store) (d : dict) (r0 : ref) :
  r0 < length h -> deref (h ++ [d]) r0 = deref h r0.
Proof. intros H. unfold deref. now apply app_nth1. Qed.

(** [identify_sections] writes the entries of the primary pass into
    the dictionary object that the processor held at the call, even when
    it returns another one; it returns that object or one newly made,
    leaves every other dictionary as it was, and keeps the text. *)
Theorem identify_sections_in_place (h h' : store) (self self' : PdfProcessor)
                                   (r : ref) :
  valid h self ->
  identify_sections h self = (h', self', r) ->
  deref h' (sections self)
    = primary_pass (deref h (sections self)) (full_text self) /\
  (r = sections self \/
   (r = length h /\ deref h' r = fallback_sections (full_text self))) /\
  (forall r0, r0 < length h -> r0 <> sections self ->
              deref h' r0 = deref h r0) /\
  full_text self' = full_text self.
Proof.
  intros Hv. unfold identify_sections.
  set (p := primary_pass _ _). set (h1 := assign h (sections self) p).
  assert (Hd : deref h1 (sections self) = p) by (apply deref_assign; exact Hv).
  assert (Hl : length h1 = length h) by apply length_assign.
  assert (Ho : forall r0, r0 <> sections self -> deref h1 r0 = deref h r0)
    by (intros; now apply deref_assign_other).
  destruct (length (deref h1 (sections self)) <=? 2).
  - unfold try_alternative_section_detection, fallback_sections.
    destruct (truthy (potential_sections (split_nl (full_text self)))).
    + destruct (_ <? _).
      * unfold alloc. intros E. injection E as <- <- <-. cbn [sections full_text].
        rewrite Hl. unfold valid in Hv. repeat split.
        -- rewrite deref_app by lia. exact Hd.
        -- right. split; auto. rewrite <- Hl. apply deref_alloc.
        -- intros r0 H0 H1. rewrite deref_app by lia. now apply Ho.
      * intros E. injection E as <- <- <-. repeat split; auto.
    + intros E. injection E as <- <- <-. repeat split; auto.
  - intros E. injection E as <- <- <-. repeat split; auto.
Qed.

(** ** Text extraction *)

Lemma split_nl_app (a s : str) :
  split_nl (a ++ nl :: s) = split_nl a ++ split_nl s.
Proof.
  induction a as [|c a IH]; [reflexivity|].
  cbn [app split_nl]. rewrite IH.
  destruct (char_eqb c nl); [reflexivity|].
  pose proof (split_nl_not_nil a) as Hn.
  destruct (split_nl a); [congruence | reflexivity].
Qed.

(** The lines of joined texts are the lines of the texts. *)
Lemma split_join_nl (ls : list str) :
  ls <> [] -> split_nl (join_nl ls) = flat_map split_nl ls.
Proof.
  induction ls as [|l ls IH]; [congruence|]. intros _.
  destruct ls as [|l' ls].
  - simpl. now rewrite app_nil_r.
  - change (join_nl (l :: l' :: ls)) with (l ++ nl :: join_nl (l' :: ls)).
    rewrite split_nl_app, IH by discriminate. reflexivity.
Qed.

Lemma page_texts_some (texts : list str) :
  page_texts (map Some texts) = Some (filter (fun t => truthy t) texts).
Proof.
  induction texts as [|t texts IH]; [reflexivity|].
  simpl. rewrite IH. simpl. now destruct (truthy t).
Qed.


(** When no page raises, [extract_text] stores and returns a text whose
    lines are the lines of the pages that have text, in page order;
    pages with empty text add nothing, not even an empty line, and a
    document without text gives the empty text.  The reader and the
    section map are left alone. *)
Theorem extract_text_lines (self : PdfProcessor) (texts : list str) :
  pages (reader self) = map Some texts ->
  exists self',
    extract_text self = Some (self', full_text self') /\
    reader self' = reader self /\ sections self' = sections self /\
    let parts := filter (fun t => truthy t) texts in
    (parts = [] -> full_text self' = []) /\
    (parts <> [] -> split_nl (full_text self') = flat_map split_nl parts).
Proof.
  intros Hp. unfold extract_text. rewrite Hp, page_texts_some.
  exists (mkProcessor (reader self)
            (join_nl (filter (fun t => truthy t) texts)) (sections self)).
  split; [reflexivity|]. cbn [reader sections full_text].
  repeat split.
  - intros ->. reflexivity.
  - apply split_join_nl.
Qed.


Lemma identify_sections_reader (h h' : store) (self self' : PdfProcessor)
                               (r : ref) :
  identify_sections h self = (h', self', r) ->
  reader self' = reader self /\ full_text self' = full_text self.
Proof.
  unfold identify_sections.
  destruct (_ <=? 2).
  - unfold try_alternative_section_detection.
    destruct (truthy _); [destruct (_ <? _)|]; unfold alloc;
      intros E; injection E as <- <- <-; auto.
  - intros E. injection E as <- <- <-. auto.
Qed.

(** What [process] returns: the metadata are those that [get_metadata]
    gives on the processor as it was before, the section map is the
    object that the processor now holds, with the content that
    [identify_sections] returns on the extracted text, and the text is
    the extracted text. *)
Theorem process_result (h h' : store) (self self' : PdfProcessor)
                       (out : processed) :
  process h self = Some (h', self', out) ->
  exists self1 t,
    extract_text self = Some (self1, t) /\
    p_metadata out = get_metadata self /\
    p_sections out = sections self' /\
    deref h' (p_sections out) = returned h self1 /\
    p_full_text out = t /\ full_text self' = t.
Proof.
  unfold process.
  destruct (extract_text self) as [[self1 t]|] eqn:E1; [|discriminate].
  destruct (identify_sections h self1) as [[h2 self2] r] eqn:E2.
  intros E. injection E as <- <- <-. cbn [p_metadata p_sections p_full_text].
  exists self1, t. split; [reflexivity|].
  pose proof (identify_sections_reader _ _ E2) as [Hr Ht].
  pose proof (identify_sections_ref _ _ E2) as [Hs Hd].
  unfold extract_text in E1.
  destruct (page_texts (pages (reader self))); [|discriminate].
  injection E1 as <- <-. cbn [reader full_text] in *.
  repeat split; auto.
  unfold get_metadata. now rewrite Hr.
Qed.

(** ** Metadata *)

Lemma split_nl_no_nl (s l : str) : In l (split_nl s) -> ~ In nl l.
Proof.
  revert l; induction s as [|c s IH]; intros l; simpl.
  - intros [<- | []]. auto.
  - destruct (char_eqb c nl) eqn:E.
    + intros [<- | H]; auto.
    + pose proof (split_nl_not_nil s) as Hn.
      destruct (split_nl s) as [|l0 ls]; [congruence|].
      intros [<- | H].
      * intros [Hc | Hc].
        -- apply N.eqb_neq in E. congruence.
        -- apply (IH l0); auto. now left.
      * apply IH. now right.
Qed.

Lemma info_get_absent (key : str) (info : list (str * value)) (default : value) :
  (forall v, ~ In (key, v) info) -> info_get key info default = default.
Proof.
  induction info as [|[k v] info IH]; intros H; simpl; auto.
  destruct (str_eqb key k) eqn:E.
  - apply str_eqb_eq in E. subst. exfalso. apply (H v). now left.
  - apply IH. intros v' Hin. apply (H v'). now right.
Qed.

Lemma utf8_decode_ascii (b : bytes) :
  Forall (fun x => (byte_val x < 128)%N) b ->
  utf8_decode b = Some (map byte_val b).
Proof.
  induction b as [|x b IH]; intros H; [reflexivity|].
  inversion H; subst. cbn [utf8_decode map].
  assert (E : (byte_val x <? 128)%N = true) by now apply N.ltb_lt.
  rewrite E, IH by assumption. reflexivity.
Qed.

(** The two forms of the metadata of a document with information:
    the title of the information, or a title from the first page when
    that one is empty. *)
Lemma get_metadata_with_info_aux (self : PdfProcessor)
                                 (info : list (str * value)) :
  metadata (reader self) = Some info -> info <> [] ->
  get_metadata self
    = [ (py "title", decode_value (info_get (py "/Title") info (VStr [])));
        (py "author", decode_value (info_get (py "/Author") info (VStr [])));
        (py "creationdate",
         decode_value (info_get (py "/CreationDate") info (VStr []))) ]
  \/ exists title,
    get_metadata self
      = [ (py "title", title);
          (py "author", decode_value (info_get (py "/Author") info (VStr [])));
          (py "creationdate",
           decode_value (info_get (py "/CreationDate") info (VStr []))) ]
    /\ decode_value (info_get (py "/Title") info (VStr [])) = [].
Proof.
  intros Hm Hi. unfold get_metadata. rewrite Hm.
  destruct info as [|kv info']; [congruence|].
  set (i := kv :: info'). change (truthy i) with true. cbv iota.
  rewrite metadata_entries.
  match goal with |- context [if ?c then _ else _] =>
    change c with (truthy (decode_value (info_get (py "/Title") i (VStr []))))
  end.
  destruct (decode_value (info_get (py "/Title") i (VStr []))) eqn:Et;
    cbn [truthy]; auto.
  destruct (first_page_title (reader self)) as [[title|]|]; auto.
  right. exists title. split; reflexivity.
Qed.

(** With document information, the metadata have exactly the keys
    title, author and creationdate, in this order; author and
    creationdate hold the decoded value of the information, the empty
    text when the information lacks the key; a decoded title that is
    not empty is kept, whatever the first page holds. *)
Theorem get_metadata_with_info (self : PdfProcessor) (info : list (str * value)) :
  metadata (reader self) = Some info -> info <> [] ->
  let md := get_metadata self in
  keys md = [py "title"; py "author"; py "creationdate"] /\
  get (py "author") md
    = Some (decode_value (info_get (py "/Author") info (VStr []))) /\
  get (py "creationdate") md
    = Some (decode_value (info_get (py "/CreationDate") info (VStr []))) /\
  ((forall v, ~ In (py "/Author", v) info) -> get (py "author") md = Some []) /\
  ((forall v, ~ In (py "/CreationDate", v) info) ->
   get (py "creationdate") md = Some []) /\
  (decode_value (info_get (py "/Title") info (VStr [])) <> [] ->
   get (py "title") md
     = Some (decode_value (info_get (py "/Title") info (VStr [])))).
Proof.
  intros Hm Hi md.
  pose proof (get_metadata_with_info_aux self Hm Hi) as Hmd. fold md in Hmd.
  assert (Ha : get (py "author") md
               = Some (decode_value (info_get (py "/Author") info (VStr [])))).
  { destruct Hmd as [-> | (t & -> & _)]; reflexivity. }
  assert (Hc : get (py "creationdate") md
            = Some (decode_value (info_get (py "/CreationDate") info (VStr [])))).
  { destruct Hmd as [-> | (t & -> & _)]; reflexivity. }
  repeat split; auto.
  - destruct Hmd as [-> | (t & -> & _)]; reflexivity.
  - intros H. rewrite Ha. now rewrite info_get_absent.
  - intros H. rewrite Hc. now rewrite info_get_absent.
  - intros H. destruct Hmd as [-> | (t & -> & E)]; [reflexivity | congruence].
Qed.

(** A title given as non-empty ASCII bytes is returned as the same
    characters. *)
Theorem get_metadata_ascii_title (self : PdfProcessor)
                                 (info : list (str * value)) (b : bytes)
                                 (as_str : str) :
  metadata (reader self) = Some info ->
  info_get (py "/Title") info (VStr []) = VBytes b as_str ->
  b <> [] -> Forall (fun x => (byte_val x < 128)%N) b ->
  get (py "title") (get_metadata self) = Some (map byte_val b).
Proof.
  intros Hm Ht Hb Ha.
  assert (Hi : info <> []) by (intros ->; discriminate Ht).
  assert (Hd : decode_value (info_get (py "/Title") info (VStr []))
               = map byte_val b).
  { rewrite Ht. simpl. now rewrite utf8_decode_ascii. }
  destruct (get_metadata_with_info_aux self Hm Hi) as [E | (t & E & Hn)].
  - rewrite E, Hd. reflexivity.
  - rewrite Hd in Hn. destruct b; [congruence | discriminate].
Qed.

Lemma get_metadata_no_title (self : PdfProcessor) :
  match metadata (reader self) with
  | Some info =>
      info = [] \/ decode_value (info_get (py "/Title") info (VStr [])) = []
  | None => True
  end ->
  exists md0,
    (forall t, get (py "title") md0 = Some t -> t = []) /\
    get_metadata self
      = match first_page_title (reader self) with
        | Some (Some title) => set (py "title") title md0
        | _ => md0
        end.
Proof.
  unfold get_metadata. destruct (metadata (reader self)) as [info|].
  - intros [-> | Ht].
    + exists []. split; [discriminate | reflexivity].
    + destruct info as [|kv info'].
      * exists []. split; [discriminate | reflexivity].
      * set (i := kv :: info') in *. change (truthy i) with true. cbv iota.
        rewrite metadata_entries. rewrite Ht. eexists. split; [|reflexivity].
        intros t H. change (Some (@nil char) = Some t) in H. congruence.
  - intros _. exists []. split; [discriminate | reflexivity].
Qed.

Lemma filter_blank_lines (blanks : list str) (line : str) (more : list str) :
  (forall l, In l blanks -> strip l = []) -> strip line <> [] ->
  hd_error (map strip (filter (fun l => truthy (strip l))
                              (blanks ++ line :: more)))
  = Some (strip line).
Proof.
  intros Hb Hl. induction blanks as [|b blanks IH]; simpl.
  - destruct (strip line) eqn:E; [congruence|]. simpl. now rewrite E.
  - rewrite (Hb b) by now left. simpl. apply IH.
    intros l H. apply Hb. now right.
Qed.

Lemma filter_all_blank (lines : list str) :
  (forall l, In l lines -> strip l = []) ->
  filter (fun l => truthy (strip l)) lines = [].
Proof.
  intros Hb. induction lines as [|b lines IH]; simpl; auto.
  rewrite (Hb b) by now left. simpl. apply IH.
  intros l H. apply Hb. now right.
Qed.

(** Without a title in the document information (no information, or a
    title that is missing or empty), the title is the first line of the
    first page that is not blank, trimmed: it is not empty and holds no
    newline.  When there is no first page, when its extraction raises or
    when all its lines are blank, no title is made up: the title stays
    absent or empty. *)
Theorem get_metadata_page_title (self : PdfProcessor) :
  match metadata (reader self) with
  | Some info =>
      info = [] \/ decode_value (info_get (py "/Title") info (VStr [])) = []
  | None => True
  end ->
  (forall p rest blanks line more,
      pages (reader self) = Some p :: rest ->
      split_nl p = blanks ++ line :: more ->
      (forall l, In l blanks -> strip l = []) -> strip line <> [] ->
      get (py "title") (get_metadata self) = Some (strip line) /\
      ~ In nl (strip line)) /\
  (pages (reader self) = [] \/
   (exists rest, pages (reader self) = None :: rest) \/
   (exists p rest, pages (reader self) = Some p :: rest /\
                   forall l, In l (split_nl p) -> strip l = []) ->
   forall t, get (py "title") (get_metadata self) = Some t -> t = []).
Proof.
  intros Hm. destruct (get_metadata_no_title self Hm) as (md0 & H0 & E).
  split.
  - intros p rest blanks line more Hp Hs Hb Hl. split.
    + rewrite E. unfold first_page_title. rewrite Hp, Hs.
      rewrite filter_blank_lines by assumption. apply get_set_same.
    + intros Hin. apply in_strip in Hin.
      apply (split_nl_no_nl p line); auto.
      rewrite Hs. apply in_or_app. right. now left.
  - intros Hp t. rewrite E. unfold first_page_title.
    destruct Hp as [-> | [(rest & ->) | (p & rest & -> & Hb)]]; auto.
    rewrite filter_all_blank by assumption. simpl. auto.
Qed.

(** ** Requests to the backend *)

Section Requests.

Import Summarizer.

Variable world : Type.
Variable post : world -> str -> str -> str -> nat -> world * option str.
Variable self : PaperSummarizer.

Lemma generate_summary_counting (w : world) (n : nat) (prompt : str) (k : nat) :
  generate_summary (counting post) self (w, n) prompt k
  = let (w', s) := generate_summary post self w prompt k in ((w', S n), s).
Proof.
  unfold generate_summary, counting. cbn [fst snd].
  destruct (post w (api_endpoint self) (model self) prompt k) as [w' [r|]];
    reflexivity.
Qed.

Lemma summary_step_counting (w : world) (n : nat) (d : dict) (item : str * str) :
  summary_step (counting post) self ((w, n), d) item
  = let (w', d') := summary_step post self (w, d) item in
    ((w', n + (if summarised item then 1 else 0)), d').
Proof.
  destruct item as [name content]. unfold summary_step, summarised.
  cbn [fst snd].
  destruct (existsb (str_eqb (lower name)) excluded); cbn [negb andb].
  - now rewrite Nat.add_0_r.
  - unfold summarize_section. destruct (truthy content).
    + rewrite generate_summary_counting.
      destruct (generate_summary post self w _ 500) as [w' s].
      rewrite Nat.add_1_r. now destruct (truthy s).
    + simpl. now rewrite Nat.add_0_r.
Qed.

Lemma section_summaries_counting (sections : dict) (w : world) (n : nat)
                                 (d : dict) :
  fold_left (summary_step (counting post) self) sections ((w, n), d)
  = let (w', d') := fold_left (summary_step post self) sections (w, d) in
    ((w', n + length (filter summarised sections)), d').
Proof.
  revert w n d; induction sections as [|item sections IH]; intros w n d.
  - simpl. now rewrite Nat.add_0_r.
  - cbn [fold_left filter]. rewrite summary_step_counting.
    destruct (summary_step post self (w, d) item) as [w1 d1].
    rewrite IH.
    destruct (fold_left (summary_step post self) sections (w1, d1)) as [w2 d2].
    destruct (summarised item); simpl; do 2 f_equal; lia.
Qed.

Lemma section_summaries_failing (sections : dict) (w : world) :
  (forall w e m p k, snd (post w e m p k) = None) ->
  snd (fold_left (summary_step post self) sections (w, [])) = [].
Proof.
  intros Hf. revert w; induction sections as [|[name content] sections IH];
    intros w; [reflexivity|].
  cbn [fold_left]. unfold summary_step at 2.
  destruct (existsb _ excluded); cbn [negb]; [apply IH|].
  unfold summarize_section. destruct (truthy content); [|apply IH].
  unfold generate_summary.
  pose proof (Hf w (api_endpoint self) (model self)
                 (section_prompt content name) 500) as H.
  destruct (post w _ _ _ 500) as [w' r]. simpl in H. subst r. apply IH.
Qed.

Lemma section_summaries_keys (sections : dict) (acc : world * dict) (k : str) :
  mem k (snd (fold_left (summary_step post self) sections acc)) = true ->
  mem k (snd acc) = true \/ In k (keys sections).
Proof.
  revert acc; induction sections as [|[name content] sections IH];
    intros [w d]; [simpl; auto|].
  cbn [fold_left]. intros H. apply IH in H as [H | H].
  - unfold summary_step in H.
    destruct (existsb (str_eqb (lower name)) excluded); cbn [negb snd] in H;
      auto.
    destruct (summarize_section post self w content name) as [w' s].
    destruct (truthy s); cbn [snd] in H; auto.
    apply mem_keys in H. apply in_keys_set in H as [-> | H].
    + right. now left.
    + left. now apply mem_keys.
  - right. now right.
Qed.

End Requests.

(** [generate_full_summary] asks the backend once for each section
    whose name is not excluded and whose text is not empty, and once for
    the overview; counting the requests changes nothing else. *)
Theorem generate_full_summary_requests
  (world : Type)
  (post : world -> str -> str -> str -> nat -> world * option str)
  (self : Summarizer.PaperSummarizer) (w : world) (n : nat)
  (pc : Summarizer.paper_content) :
  let sections :=
    match Summarizer.pc_sections pc with Some d => d | None => [] end in
  Summarizer.generate_full_summary (counting post) self (w, n) pc
  = let (w', summaries) := Summarizer.generate_full_summary post self w pc in
    ((w', n + length (filter summarised sections) + 1), summaries).
Proof.
  intros sections. unfold Summarizer.generate_full_summary.
  fold sections.
  replace (Summarizer.section_summaries (counting post) self (w, n) sections)
    with (let (w', d') := Summarizer.section_summaries post self w sections in
          ((w', n + length (filter summarised sections)), d'))
    by (symmetry; apply section_summaries_counting).
  destruct (Summarizer.section_summaries post self w sections) as [w1 d1].
  rewrite generate_summary_counting.
  destruct (Summarizer.generate_summary post self w1 _ 500) as [w2 s].
  now rewrite Nat.add_1_r.
Qed.

(** When every request to the backend fails, the summary is the one
    key overview with the empty text. *)
Theorem generate_full_summary_backend_down
  (world : Type)
  (post : world -> str -> str -> str -> nat -> world * option str)
  (self : Summarizer.PaperSummarizer) (w : world)
  (pc : Summarizer.paper_content) :
  (forall w e m p k, snd (post w e m p k) = None) ->
  snd (Summarizer.generate_full_summary post self w pc) = [(py "overview", [])].
Proof.
  intros Hf. unfold Summarizer.generate_full_summary,
    Summarizer.section_summaries.
  set (sections := match Summarizer.pc_sections pc with
                   | Some d => d | None => [] end).
  pose proof (section_summaries_failing post self sections w Hf) as Hs.
  destruct (fold_left (Summarizer.summary_step post self) sections (w, []))
    as [w1 d1]. simpl in Hs. subst d1.
  unfold Summarizer.generate_summary.
  match goal with |- context [post w1 ?e ?m ?p 500] =>
    pose proof (Hf w1 e m p 500) as H; destruct (post w1 e m p 500) as [w2 r]
  end.
  simpl in H. subst r. reflexivity.
Qed.

(** Every key of the summary is overview or a key of the section map
    given. *)
Theorem generate_full_summary_keys
  (world : Type)
  (post : world -> str -> str -> str -> nat -> world * option str)
  (self : Summarizer.PaperSummarizer) (w : world)
  (pc : Summarizer.paper_content) (k : str) :
  let sections :=
    match Summarizer.pc_sections pc with Some d => d | None => [] end in
  mem k (snd (Summarizer.generate_full_summary post self w pc)) = true ->
  k = py "overview" \/ mem k sections = true.
Proof.
  intros sections. unfold Summarizer.generate_full_summary,
    Summarizer.section_summaries. fold sections.
  pose proof (@section_summaries_keys world post self sections (w, []) k) as Hs.
  destruct (fold_left (Summarizer.summary_step post self) sections (w, []))
    as [w1 d1].
  destruct (Summarizer.generate_summary post self w1 _ 500) as [w2 s].
  cbn [snd] in *. intros H.
  apply mem_keys in H. apply in_keys_set in H as [-> | H]; auto.
  right. apply mem_keys in H. apply Hs in H as [H | H]; [discriminate|].
  now apply mem_keys.
Qed.

(** ** The rendering *)

Lemma in_get (k v : str) (d : dict) :
  NoDup (keys d) -> In (k, v) d -> get k d = Some v.
Proof.
  induction d as [|[k' v'] d IH]; simpl; [tauto|].
  intros Hn [E | Hin].
  - injection E as -> ->. now rewrite str_eqb_refl.
  - inversion Hn; subst. destruct (str_eqb k k') eqn:E.
    + apply str_eqb_eq in E. subst. exfalso. apply H1.
      change k' with (fst (k', v)). now apply in_map.
    + now apply IH.
Qed.

Lemma length_filter_other (k : str) (d : dict) :
  NoDup (keys d) -> mem k d = true ->
  S (length (filter (fun item => negb (str_eqb (fst item) k)) d)) = length d.
Proof.
  induction d as [|[k' v'] d IH]; simpl; [discriminate|].
  intros Hn Hm. inversion Hn; subst. unfold mem in Hm. simpl in Hm.
  destruct (str_eqb k' k) eqn:E; simpl.
  - apply str_eqb_eq in E. subst k'. f_equal.
    clear - H1. induction d as [|[k2 v2] d IHd]; simpl; auto.
    simpl in H1. destruct (str_eqb k2 k) eqn:E2; simpl.
    + apply str_eqb_eq in E2. tauto.
    + f_equal. apply IHd. tauto.
  - f_equal. apply IH; auto. unfold mem.
    destruct (str_eqb k k') eqn:E2; auto.
    apply str_eqb_eq in E2. subst. rewrite str_eqb_refl in E. discriminate.
Qed.

Lemma nodup_section_summaries
  (world : Type)
  (post : world -> str -> str -> str -> nat -> world * option str)
  (self : Summarizer.PaperSummarizer) (sections : dict) (acc : world * dict) :
  NoDup (keys (snd acc)) ->
  NoDup (keys (snd (fold_left (Summarizer.summary_step post self) sections acc))).
Proof.
  revert acc; induction sections as [|[name content] sections IH];
    intros [w d] H; [exact H|].
  cbn [fold_left]. apply IH. unfold Summarizer.summary_step.
  destruct (existsb _ Summarizer.excluded); cbn [negb snd]; auto.
  destruct (Summarizer.summarize_section post self w content name) as [w' s].
  destruct (truthy s); cbn [snd]; auto. now apply nodup_keys_set.
Qed.

(** The rendering of a summary that [generate_full_summary] produced
    is made of five parts, the two headings, the title line, the author
    line and the overview with the text stored under the key overview,
    followed by the blocks of the entries of the summary other than
    overview, in the order of the summary: every such key has its
    block, and every block belongs to a section of the input section
    map whose name is not excluded and whose summary is not empty. *)
Theorem rendered_blocks
  (world : Type)
  (post : world -> str -> str -> str -> nat -> world * option str)
  (self : Summarizer.PaperSummarizer) (w : world)
  (pc0 pc : Summarizer.paper_content) :
  let sections :=
    match Summarizer.pc_sections pc0 with Some d => d | None => [] end in
  let summaries := snd (Summarizer.generate_full_summary post self w pc0) in
  let metadata :=
    match Summarizer.pc_metadata pc with Some m => m | None => [] end in
  let blocks :=
    map Summarizer.section_block
        (filter (fun item => negb (str_eqb (fst item) (py "overview")))
                summaries) in
  (exists overview,
      get (py "overview") summaries = Some overview /\
      Summarizer.md_parts pc summaries
      = [ py "# Paper Summary" ++ [nl];
          py "## Metadata" ++ [nl];
          py "- Title: "
            ++ Summarizer.get_default (py "title") (py "N/A") metadata ++ [nl];
          py "- Author(s): "
            ++ Summarizer.get_default (py "author") (py "N/A") metadata
            ++ [nl; nl];
          py "## Overview" ++ nl :: overview ++ [nl] ] ++ blocks) /\
  length blocks + 1 = length summaries /\
  (forall k v, k <> py "overview" -> get k summaries = Some v ->
               In (Summarizer.section_block (k, v)) blocks) /\
  (forall part, In part blocks ->
    exists k v,
      part = Summarizer.section_block (k, v) /\
      get k summaries = Some v /\ k <> py "overview" /\ v <> [] /\
      ~ In (lower k) Summarizer.excluded /\ mem k sections = true).
Proof.
  intros sections summaries metadata blocks.
  assert (Hs : exists w1 d1 w2 s,
             Summarizer.section_summaries post self w sections = (w1, d1) /\
             summaries = set (py "overview") s d1 /\
             Summarizer.generate_full_summary post self w pc0
               = (w2, set (py "overview") s d1)).
  { unfold summaries, Summarizer.generate_full_summary. fold sections.
    destruct (Summarizer.section_summaries post self w sections) as [w1 d1].
    destruct (Summarizer.generate_summary post self w1 _ 500) as [w2 s].
    now exists w1, d1, w2, s. }
  destruct Hs as (w1 & d1 & w2 & s & E1 & E2 & _).
  pose proof (kept_section_summaries post self w sections) as Hk.
  pose proof (@section_summaries_keys world post self sections (w, [])) as Hin.
  pose proof (@nodup_section_summaries world post self sections (w, [])
                (NoDup_nil _)) as Hn.
  unfold Summarizer.section_summaries in E1. rewrite E1 in Hin, Hn.
  unfold Summarizer.section_summaries in Hk. rewrite E1 in Hk.
  cbn [snd] in *.
  assert (Hns : NoDup (keys summaries))
    by (rewrite E2; now apply nodup_keys_set).
  assert (Hm : mem (py "overview") summaries = true)
    by (rewrite E2; unfold mem; now rewrite get_set_same).
  assert (Ho : get (py "overview") summaries = Some s)
    by (rewrite E2; apply get_set_same).
  split; [|split; [|split]].
  - exists s. split; [exact Ho|].
    unfold Summarizer.md_parts, Summarizer.get_default. fold metadata.
    rewrite Ho. reflexivity.
  - unfold blocks. rewrite length_map.
    pose proof (@length_filter_other (py "overview") summaries Hns Hm) as Hl.
    lia.
  - intros k v Hne Hg. unfold blocks. apply in_map, filter_In. split.
    + now apply get_in.
    + cbn [fst]. apply negb_true_iff. now apply str_eqb_neq.
  - intros part Hp. unfold blocks in Hp.
    apply in_map_iff in Hp as ([k v] & <- & Hf).
    apply filter_In in Hf as [Hf Hne]. cbn [fst] in Hne.
    apply negb_true_iff in Hne. apply str_eqb_neq in Hne.
    pose proof (@in_get k v summaries Hns Hf) as Hg.
    assert (Hg1 : get k d1 = Some v).
    { rewrite E2 in Hg. apply get_set_inv in Hg as [[-> _] | Hg]; auto.
      congruence. }
    exists k, v. repeat split; auto.
    + apply (proj2 (Hk k v Hg1)).
    + apply (proj1 (Hk k v Hg1)).
    + assert (Hmk : mem k d1 = true) by (unfold mem; now rewrite Hg1).
      apply Hin in Hmk as [Hmk | Hmk]; [discriminate|]. now apply mem_keys.
Qed.

(** The rendering of the metadata that [get_metadata] gives: for a
    document with information the author line shows the decoded author,
    the empty text when the information has none, and the title line
    shows the stored title; the default N/A of the author is shown only
    for a document without information. *)
Theorem rendered_metadata (self : PdfProcessor) (pc : Summarizer.paper_content)
                          (summaries : dict) :
  Summarizer.pc_metadata pc = Some (get_metadata self) ->
  (forall info, metadata (reader self) = Some info -> info <> [] ->
     nth 3 (Summarizer.md_parts pc summaries) []
       = py "- Author(s): "
         ++ decode_value (info_get (py "/Author") info (VStr [])) ++ [nl; nl] /\
     exists t, get (py "title") (get_metadata self) = Some t /\
               nth 2 (Summarizer.md_parts pc summaries) []
                 = py "- Title: " ++ t ++ [nl]) /\
  (metadata (reader self) = None \/ metadata (reader self) = Some [] ->
   nth 3 (Summarizer.md_parts pc summaries) []
     = py "- Author(s): N/A" ++ [nl; nl]).
Proof.
  intros Hpc. unfold Summarizer.md_parts. rewrite Hpc. cbn [nth app].
  split.
  - intros info Hm Hi.
    destruct (get_metadata_with_info_aux self Hm Hi) as [E | (t & E & _)];
      rewrite E; split; try reflexivity; eexists; split; reflexivity.
  - intros Hm.
    assert (E : get (py "author") (get_metadata self) = None).
    { unfold get_metadata.
      destruct Hm as [-> | ->]; cbn [truthy get];
        destruct (first_page_title (reader self)) as [[t|]|]; reflexivity. }
    unfold Summarizer.get_default. rewrite E. reflexivity.
Qed.

(** ** Instances of the further properties *)

Lemma identify_sections_eta (h : store) (self : PdfProcessor) :
  identify_sections h self
  = (fst (fst (identify_sections h self)), snd (fst (identify_sections h self)),
     snd (identify_sections h self)).
Proof. now destruct (identify_sections h self) as [[h' self'] r]. Qed.

(** The section of the numbered sample, asked for in capitals. *)
Lemma get_section_any_case_witness :
  fresh (fst (loaded Samples.numbered)) (snd (loaded Samples.numbered)) /\
  get_section
    (fst (fst (identify_sections (fst (loaded Samples.numbered))
                                 (snd (loaded Samples.numbered)))))
    (snd (fst (identify_sections (fst (loaded Samples.numbered))
                                 (snd (loaded Samples.numbered)))))
    (py "INTRODUCTION")
  = Some (py "body one").
Proof.
  assert (F : fresh (fst (loaded Samples.numbered))
                    (snd (loaded Samples.numbered))) by fresh_loaded.
  split; [exact F|].
  apply (get_section_any_case (py "INTRODUCTION") (py "introduction")
           F (identify_sections_eta _ _)).
  - vm_compute. reflexivity.
  - vm_compute. reflexivity.
Defined.

Lemma returned_bodies_trimmed_witness :
  fresh (fst (loaded Samples.numbered)) (snd (loaded Samples.numbered)) /\
  strip (py "body one") = py "body one".
Proof.
  assert (F : fresh (fst (loaded Samples.numbered))
                    (snd (loaded Samples.numbered))) by fresh_loaded.
  split; [exact F|].
  apply (@returned_bodies_trimmed _ _ (py "introduction") (py "body one") F).
  vm_compute. reflexivity.
Defined.

Lemma plain_letters_check (s : str) :
  forallb (fun c => negb (existsb (char_eqb c) odd_letters)) s = true ->
  plain_letters s.
Proof.
  intros H c Hc Ho. rewrite forallb_forall in H. specialize (H c Hc).
  apply negb_true_iff in H. apply existsb_char_eqb in Ho. congruence.
Qed.

Lemma primary_pass_names_witness :
  plain_letters Samples.numbered /\
  length (primary_pass [] Samples.numbered) <= 15.
Proof.
  assert (P : plain_letters Samples.numbered)
    by (apply plain_letters_check; vm_compute; reflexivity).
  split; [exact P|].
  exact (proj2 (proj2 (primary_pass_names Samples.numbered) P)).
Defined.

Lemma identify_sections_grows_witness :
  valid (fst Samples.called_once) (snd Samples.called_once) /\
  length (deref (fst Samples.called_once)
                (sections (snd Samples.called_once))) = 2 /\
  2 <= length (returned (fst Samples.called_once) (snd Samples.called_once)).
Proof.
  assert (V : valid (fst Samples.called_once) (snd Samples.called_once))
    by (vm_compute; lia).
  assert (L : length (deref (fst Samples.called_once)
                            (sections (snd Samples.called_once))) = 2)
    by (vm_compute; reflexivity).
  split; [exact V|]. split; [exact L|].
  rewrite <- L at 1. exact (identify_sections_grows V).
Defined.

Lemma identify_sections_twice_kept_witness :
  fresh (fst (loaded Samples.numbered)) (snd (loaded Samples.numbered)) /\
  2 < length (primary_pass [] Samples.numbered) /\
  let '(h1, self1, r1) := identify_sections (fst (loaded Samples.numbered))
                                            (snd (loaded Samples.numbered)) in
  let '(h2, self2, r2) := identify_sections h1 self1 in
  r2 = r1 /\ deref h2 r2 = deref h1 r1 /\
  deref h1 r1 = primary_pass [] Samples.numbered.
Proof.
  assert (F : fresh (fst (loaded Samples.numbered))
                    (snd (loaded Samples.numbered))) by fresh_loaded.
  assert (K : 2 < length (primary_pass [] Samples.numbered))
    by (vm_compute; lia).
  split; [exact F|]. split; [exact K|].
  exact (identify_sections_twice_kept F (or_introl K)).
Defined.

Lemma fallback_needs_blank_line_witness :
  fresh (fst (loaded Samples.plain)) (snd (loaded Samples.plain)) /\
  returned (fst (loaded Samples.plain)) (snd (loaded Samples.plain))
    = primary_pass [] Samples.plain.
Proof.
  assert (F : fresh (fst (loaded Samples.plain))
                    (snd (loaded Samples.plain))) by fresh_loaded.
  split; [exact F|].
  apply (fallback_needs_blank_line F).
  - intros l Hl. vm_compute in Hl.
    destruct Hl as [<- | [<- | []]]; vm_compute; discriminate.
  - exists (py "Some text,"). split; vm_compute; auto.
Defined.

Lemma identify_sections_in_place_witness :
  valid (fst (loaded Samples.two_caps)) (snd (loaded Samples.two_caps)) /\
  deref (fst (fst (identify_sections (fst (loaded Samples.two_caps))
                                     (snd (loaded Samples.two_caps)))))
        (sections (snd (loaded Samples.two_caps)))
  = primary_pass [] Samples.two_caps.
Proof.
  assert (V : valid (fst (loaded Samples.two_caps))
                    (snd (loaded Samples.two_caps))) by (vm_compute; lia).
  split; [exact V|].
  exact (proj1 (identify_sections_in_place V (identify_sections_eta _ _))).
Defined.

Lemma extract_text_lines_witness :
  exists self',
    extract_text Samples.three_pages = Some (self', full_text self') /\
    split_nl (full_text self') = [py "Abstract"; py "first"; py "second"].
Proof.
  destruct (@extract_text_lines Samples.three_pages
              [join_nl [py "Abstract"; py "first"]; []; py "second"] eq_refl)
    as (self' & E & _ & _ & _ & H).
  exists self'. split; [exact E|]. apply H. discriminate.
Defined.

Lemma process_result_witness :
  exists h' self' out,
    process (fst (loaded Samples.numbered)) (snd (loaded Samples.numbered))
      = Some (h', self', out) /\
    p_sections out = sections self' /\
    p_metadata out = get_metadata (snd (loaded Samples.numbered)).
Proof.
  destruct (process (fst (loaded Samples.numbered))
                    (snd (loaded Samples.numbered)))
    as [[[h' self'] out]|] eqn:E; [|vm_compute in E; discriminate E].
  exists h', self', out. split; [reflexivity|].
  destruct (process_result _ _ E) as (self1 & t & _ & Hm & Hs & _).
  split; assumption.
Defined.

Lemma get_metadata_with_info_witness :
  keys (get_metadata Samples.titled)
    = [py "title"; py "author"; py "creationdate"] /\
  get (py "author") (get_metadata Samples.titled) = Some (py "A.B") /\
  get (py "creationdate") (get_metadata Samples.titled) = Some [] /\
  get (py "title") (get_metadata Samples.titled) = Some (py "A Study").
Proof.
  destruct (@get_metadata_with_info Samples.titled
              [(py "/Title", VStr (py "A Study"));
               (py "/Author",
                VBytes [x41; x2e; x42] (bytes_repr [x41; x2e; x42]))]
              eq_refl)
    as (H1 & H2 & _ & _ & H5 & H6); [discriminate|].
  split; [exact H1|]. split; [exact H2|]. split.
  - apply H5. intros v [E | [E | []]]; vm_compute in E; discriminate E.
  - apply H6. vm_compute. discriminate.
Defined.

Lemma get_metadata_ascii_title_witness :
  get (py "title") (get_metadata Samples.bytes_titled) = Some (py "Ok").
Proof.
  apply (@get_metadata_ascii_title Samples.bytes_titled
           [(py "/Title", VBytes [x4f; x6b] (bytes_repr [x4f; x6b]))]
           [x4f; x6b] (bytes_repr [x4f; x6b])).
  - reflexivity.
  - vm_compute. reflexivity.
  - discriminate.
  - repeat constructor.
Defined.

Lemma get_metadata_page_title_witness :
  get (py "title") (get_metadata Samples.untitled) = Some (py "On Things").
Proof.
  destruct (@get_metadata_page_title Samples.untitled I) as [H _].
  apply (H (join_nl [py "  "; py " On Things "; py "x"]) []
           [py "  "] (py " On Things ") [py "x"]).
  - reflexivity.
  - vm_compute. reflexivity.
  - intros l [<- | []]. vm_compute. reflexivity.
  - vm_compute. discriminate.
Defined.

Lemma generate_full_summary_backend_down_witness :
  snd (Summarizer.generate_full_summary (@failing unit) Samples.summarizer tt
         Samples.content)
  = [(py "overview", [])].
Proof.
  apply generate_full_summary_backend_down. reflexivity.
Defined.

Lemma generate_full_summary_keys_witness :
  mem (py "abstract")
      (snd (Summarizer.generate_full_summary Samples.echo Samples.summarizer tt
              Samples.content)) = true /\
  (py "abstract" = py "overview" \/
   mem (py "abstract")
       [(py "abstract", py "a"); (py "references", py "r"); (py "methods", [])]
     = true).
Proof.
  assert (M : mem (py "abstract")
                (snd (Summarizer.generate_full_summary Samples.echo
                        Samples.summarizer tt Samples.content)) = true)
    by (vm_compute; reflexivity).
  split; [exact M|].
  exact (@generate_full_summary_keys unit Samples.echo Samples.summarizer tt
           Samples.content (py "abstract") M).
Defined.

Lemma rendered_metadata_witness :
  nth 3 (Summarizer.md_parts
           (Summarizer.mkContent (Some (get_metadata Samples.titled)) None None)
           [])
        []
  = py "- Author(s): A.B" ++ [nl; nl].
Proof.
  destruct (@rendered_metadata Samples.titled
              (Summarizer.mkContent (Some (get_metadata Samples.titled))
                                    None None) [] eq_refl) as [H _].
  destruct (H [(py "/Title", VStr (py "A Study"));
               (py "/Author",
                VBytes [x41; x2e; x42] (bytes_repr [x41; x2e; x42]))]
              eq_refl) as [H3 _];
    [discriminate|].
  exact H3.
Defined.
